(** * Album-art and canvas generators: a shallow embedding

    The two scripts [canvas_generator.py] and [v7_album_artwork.py] are
    embedded as functions of a small state-and-exception monad over a
    [World] (file system, standard output, random source).

    Conventions of the embedding:
    - Python [int] is [Z]; sizes of images are [nat].
    - A Python [float] is a rational number [Q].  Where the code derives
      an integer or a printed digit from a quotient or a product (the
      resize target, the duration and the times of the segment) each
      operation is rounded to the nearest double by [round53] (53-bit
      significand, ties to even; the exponent range is not bounded, so
      overflow and underflow are not represented).  The weights of the
      blends are passed on as exact fractions, their rounding being part
      of the arithmetic of the blend; the mix of line 47 of
      [apply_smearing] and the scale of the identicon are computed
      exactly.  [int(x)] is truncation toward zero, a store into a
      [uint8] array is truncation followed by reduction modulo 256.
    - An image is its mode, its size and its rows of pixels; a pixel is
      the list of its channel samples.  [np.array(image)] and
      [Image.fromarray] are the identity on the rows.
    - Calls into Pillow, hashlib, librosa, matplotlib, glitch_this and
      the external processes are either written out from the library's
      documented behaviour or taken through the classes [Resampler],
      [Blender], [HashAlgo] and [Externals]. *)

From Stdlib Require Import ZArith QArith Qround Qminmax Qpower Lia Lqa String.
From Stdlib.Strings Require Import Byte.
From stdpp Require Import base list gmap strings pretty.
From Equations Require Import Equations.

Open Scope Z_scope.

(** ** Exceptions, world, monad *)

Inductive exn : Type :=
| ValueError
| IndexError
| ZeroDivisionError
| FileNotFoundError
| OSError
| CalledProcessError.

(** the text printed for [{e}]; the interpreter's full message is
    abbreviated to the kind of the exception *)
Definition exn_str (e : exn) : string :=
  match e with
  | ValueError => "ValueError"
  | IndexError => "IndexError"
  | ZeroDivisionError => "division by zero"
  | FileNotFoundError => "No such file or directory"
  | OSError => "OSError"
  | CalledProcessError => "CalledProcessError"
  end.

(** The random source is a tape of raw draws; an exhausted tape keeps
    answering 0.  Every sequence of outcomes of [random.random] and
    [random.randint] is the reading of some tape. *)
Record World : Type := mkWorld {
  files : gmap string (list byte);
  dirs : gset string;
  stdout : list string;
  rng : list Z
}.

Definition M (A : Type) : Type := World -> (exn + A) * World.

Definition ret {A} (a : A) : M A := fun w => (inr a, w).

Definition raise {A} (e : exn) : M A := fun w => (inl e, w).

Definition bind {A B} (m : M A) (k : A -> M B) : M B :=
  fun w => match m w with
           | (inr a, w') => k a w'
           | (inl e, w') => (inl e, w')
           end.

(** [try: m except Exception as e: h e] *)
Definition try_except {A} (m : M A) (h : exn -> M A) : M A :=
  fun w => match m w with
           | (inr a, w') => (inr a, w')
           | (inl e, w') => h e w'
           end.

Definition lift {A} (r : exn + A) : M A := fun w => (r, w).

Declare Scope monad_scope.
Delimit Scope monad_scope with monad.
Notation "x <- m ;; k" := (bind m (fun x => k))
  (at level 100, m at next level, right associativity) : monad_scope.
Notation "m ;;; k" := (bind m (fun _ => k))
  (at level 100, right associativity) : monad_scope.
Open Scope monad_scope.

Fixpoint foldM {S X} (body : X -> S -> M S) (xs : list X) (s : S) : M S :=
  match xs with
  | [] => ret s
  | x :: xs' => s' <- body x s ;; foldM body xs' s'
  end.

(** [range(a, b)] *)
Definition py_range (a b : Z) : list Z := seqZ a (b - a).

(** [for x in range(a, b): s = body x s] *)
Definition for_range {S} (a b : Z) (body : Z -> S -> M S) (s : S) : M S :=
  foldM body (py_range a b) s.

Definition print (msg : string) : M unit :=
  fun w => (inr tt, mkWorld (files w) (dirs w) (stdout w ++ [msg]) (rng w)).

Definition draw : M Z :=
  fun w => match rng w with
           | [] => (inr 0, w)
           | r :: t => (inr r, mkWorld (files w) (dirs w) (stdout w) t)
           end.

(** [random.random()]: a float in [0, 1) with 53 random bits. *)
Definition random_random : M Q :=
  r <- draw ;; ret (inject_Z (r mod 2 ^ 53) / inject_Z (2 ^ 53))%Q.

(** [random.randint(a, b)]: an integer in [a, b]; [ValueError] on an
    empty range, raised before anything is drawn. *)
Definition random_randint (a b : Z) : M Z :=
  if b <? a then raise ValueError
  else r <- draw ;; ret (a + r mod (b - a + 1)).

(** ** Numbers *)

Definition Qlt_bool (a b : Q) : bool := negb (Qle_bool b a).

(** [int(x)] on a float *)
Definition py_int (x : Q) : Z :=
  if Qle_bool 0 x then Qfloor x else Qceiling x.

(** store of a float into a [uint8] cell *)
Definition to_uint8 (x : Q) : Z := py_int x mod 256.

(** nearest integer, ties to even *)
Definition round_half_even (x : Q) : Z :=
  let f := Qfloor x in
  let r := (x - inject_Z f)%Q in
  if Qlt_bool r (1 # 2) then f
  else if Qlt_bool (1 # 2) r then f + 1
  else if Z.even f then f else f + 1.

(** floor of the binary logarithm of [x > 0] *)
Definition Qlog2 (x : Q) : Z :=
  let k := Z.log2 (Qnum x) - Z.log2 (Zpos (Qden x)) in
  if Qle_bool (2 ^ k) x then k else k - 1.

(** [x > 0] rounded to a significand of 53 bits, ties to even *)
Definition round53_pos (x : Q) : Q :=
  let e := Qlog2 x - 52 in
  (inject_Z (round_half_even (x / 2 ^ e)) * 2 ^ e)%Q.

(** the double nearest to [x] *)
Definition round53 (x : Q) : Q :=
  let x := Qred x in
  match (x ?= 0)%Q with
  | Eq => 0%Q
  | Gt => round53_pos x
  | Lt => (- round53_pos (- x))%Q
  end.

(** [a * b] on floats *)
Definition float_mul (a b : Q) : Q := round53 (a * b).

(** [a / b] on floats, and on integers (the quotient of two integers is
    rounded once) *)
Definition float_div (a b : Q) : exn + Q :=
  if Qeq_bool b 0 then inl ZeroDivisionError else inr (round53 (a / b)).

(** ** Images *)

Inductive Mode : Type := L | RGB | RGBA.

Definition bands (m : Mode) : nat :=
  match m with L => 1 | RGB => 3 | RGBA => 4 end%nat.

#[global] Instance Mode_eq_dec : EqDecision Mode.
Proof. solve_decision. Defined.

Abbreviation Pixel := (list Z).
Abbreviation Row := (list (list Z)).

Record Image : Type := mkImage {
  mode : Mode;
  width : nat;
  height : nat;
  data : list Row
}.

Definition size (im : Image) : nat * nat := (width im, height im).

Definition sample_ok (v : Z) : Prop := 0 <= v < 256.

Definition wf_rows (c w h : nat) (rows : list Row) : Prop :=
  length rows = h /\
  Forall (fun row => length row = w /\
                     Forall (fun px => length px = c /\ Forall sample_ok px) row)
         rows.

Definition wf_image (im : Image) : Prop :=
  wf_rows (bands (mode im)) (width im) (height im) (data im).

Definition all_black_rows (rows : list Row) : Prop :=
  Forall (Forall (Forall (fun v => v = 0))) rows.

Definition all_black (im : Image) : Prop := all_black_rows (data im).

(** ** canvas_generator.py: [apply_artifacting] *)

(** lines 25-33: the image is copied, a drawing context and the size
    are taken, and the copy is returned as it is *)
Definition apply_artifacting (image : Image) (intensity : Z) : M Image :=
  try_except
    (let image := image in
     let '(width, height) := size image in
     ret image)
    (fun e => print ("Error applying artifacting: " +:+ exn_str e) ;;; ret image).

(** ** canvas_generator.py: [apply_smearing] *)

(** line 46: [alpha = 1.0 - ((y - y_start) / streak_height)], the
    exact value; the double that stands for it is a function of this
    value, and its rounding belongs to the arithmetic of line 47 *)
Definition smear_alpha (y y_start streak_height : Z) : Q :=
  (1 - inject_Z (y - y_start) / inject_Z streak_height)%Q.

(** one sample of [img_array[y] * alpha + img_array[y-1] * (1-alpha)],
    stored back into the [uint8] array.  The sum is taken in exact
    arithmetic, an idealisation of numpy's doubles: it is the same on
    equal samples ([v * alpha + v * (1 - alpha)] is [v]), and what is
    proved of the weights is proved for any arithmetic put in its
    place. *)
Definition mix_sample (alpha : Q) (cur above : Z) : Z :=
  to_uint8 (inject_Z cur * alpha + inject_Z above * (1 - alpha))%Q.

Definition mix_rows (alpha : Q) (cur above : Row) : Row :=
  zip_with (zip_with (mix_sample alpha)) cur above.

(** [arr[y]] for [y >= 0]; out of range is [IndexError] *)
Definition get_row (arr : list Row) (y : Z) : exn + Row :=
  match arr !! Z.to_nat y with
  | Some r => inr r
  | None => inl IndexError
  end.

(** lines 45-47, the body of the loop over [y]; [mix alpha cur above]
    stands for the arithmetic of line 47 on the rows [img_array[y]] and
    [img_array[y-1]] *)
Definition smear_row_with (mix : Q -> Row -> Row -> Row) (y_start streak_height : Z)
    (y : Z) (img_array : list Row) : M (list Row) :=
  if 0 <? y then
    let alpha := smear_alpha y y_start streak_height in
    cur <- lift (get_row img_array y) ;;
    above <- lift (get_row img_array (y - 1)) ;;
    ret (<[Z.to_nat y := mix alpha cur above]> img_array)
  else ret img_array.

(** lines 41-47, the body of the loop over [x] *)
Definition smear_column_with (mix : Q -> Row -> Row -> Row) (strength : Z) (height : Z)
    (x : Z) (img_array : list Row) : M (list Row) :=
  r <- random_random ;;
  if Qlt_bool r (1 # 10) then
    streak_height <- random_randint 10 strength ;;
    y_start <- random_randint 0 (height - streak_height) ;;
    for_range y_start (Z.min (y_start + streak_height) height)
              (smear_row_with mix y_start streak_height) img_array
  else ret img_array.

(** the loop bodies with the arithmetic of [mix_rows] *)
Definition smear_row : Z -> Z -> Z -> list Row -> M (list Row) :=
  smear_row_with mix_rows.

Definition smear_column : Z -> Z -> Z -> list Row -> M (list Row) :=
  smear_column_with mix_rows.

Definition fromarray (image : Image) (img_array : list Row) : Image :=
  mkImage (mode image) (width image) (height image) img_array.

Definition apply_smearing (image : Image) (strength : Z) : M Image :=
  try_except
    (let img_array := data image in
     let height := Z.of_nat (height image) in
     let width := Z.of_nat (width image) in
     img_array <- for_range 0 width (smear_column strength height) img_array ;;
     ret (fromarray image img_array))
    (fun e => print ("Error applying smearing: " +:+ exn_str e) ;;; ret image).

(** ** Pillow operations used by the two scripts *)

Definition Box : Type := (Z * Z * Z * Z)%type.

Definition same_shape (im1 im2 : Image) : bool :=
  bool_decide (mode im1 = mode im2) && (width im1 =? width im2)%nat
  && (height im1 =? height im2)%nat.

Definition clip8 (v : Z) : Z := Z.max 0 (Z.min 255 v).

(** The arithmetic of [Image.blend] on one sample is Pillow's (C code in
    single precision, on the weight converted to a C float); only its
    interface is used: the sample computed from the weight and the two
    samples. *)
Class Blender : Type := { blend_sample : Q -> Z -> Z -> Z }.

(** interpolation [in1 + alpha * (in2 - in1)] in exact arithmetic,
    clipped to the 8-bit range: an instance of the interface *)
Definition linear_blender : Blender :=
  {| blend_sample := fun alpha a b =>
       clip8 (py_int (inject_Z a + alpha * inject_Z (b - a))%Q) |}.

(** [Image.blend(im1, im2, alpha)]: both images must have the same mode
    and size, otherwise [ValueError]. *)
Definition Image_blend `{Blender} (im1 im2 : Image) (alpha : Q) : exn + Image :=
  if same_shape im1 im2 then
    inr (mkImage (mode im1) (width im1) (height im1)
           (zip_with (zip_with (zip_with (blend_sample alpha))) (data im1) (data im2)))
  else inl ValueError.

Definition black_pixel (m : Mode) : Pixel := replicate (bands m) 0.

(** pixel at column [x], row [y]; black outside the image *)
Definition pixel_at (im : Image) (x y : Z) : Pixel :=
  if (0 <=? x) && (0 <=? y) then
    match data im !! Z.to_nat y with
    | Some row => match row !! Z.to_nat x with
                  | Some px => px
                  | None => black_pixel (mode im)
                  end
    | None => black_pixel (mode im)
    end
  else black_pixel (mode im).

(** [image.crop((left, upper, right, lower))] *)
Definition Image_crop (im : Image) (box : Box) : exn + Image :=
  let '(x0, y0, x1, y1) := box in
  if (x1 <? x0) || (y1 <? y0) then inl ValueError
  else inr (mkImage (mode im) (Z.to_nat (x1 - x0)) (Z.to_nat (y1 - y0))
              (map (fun y => map (fun x => pixel_at im x y) (py_range x0 x1))
                   (py_range y0 y1))).

(** [Image.new(mode, (w, h), color)]; the samples of the colour are
    clipped to the 8-bit range *)
Definition Image_new (m : Mode) (w h : nat) (color : Pixel) : Image :=
  mkImage m w h (replicate h (replicate w (map clip8 color))).

Definition convert_pixel (src dst : Mode) (px : Pixel) : Pixel :=
  match src, dst, px with
  | RGBA, RGB, [r; g; b; _] => [r; g; b]
  | RGB, RGBA, [r; g; b] => [r; g; b; 255]
  | L, RGB, [v] => [v; v; v]
  | L, RGBA, [v] => [v; v; v; 255]
  | RGB, L, [r; g; b] => [(r * 299 + g * 587 + b * 114) / 1000]
  | RGBA, L, [r; g; b; _] => [(r * 299 + g * 587 + b * 114) / 1000]
  | _, _, _ => px
  end.

(** [image.convert(mode)] *)
Definition Image_convert (im : Image) (m : Mode) : Image :=
  mkImage m (width im) (height im) (map (map (convert_pixel (mode im) m)) (data im)).

(** The resampling kernel of [Image.resize] is Pillow's; only its
    interface is used. *)
Class Resampler : Type := { resample : Image -> nat -> nat -> Image }.

Definition resample_lawful `{Resampler} : Prop :=
  forall im w h,
    mode (resample im w h) = mode im /\
    width (resample im w h) = w /\ height (resample im w h) = h /\
    (wf_image im -> wf_image (resample im w h)).

(** nearest-neighbour resampling, an instance of the interface *)
Definition nearest_resample (im : Image) (w h : nat) : Image :=
  mkImage (mode im) w h
    (map (fun y =>
            map (fun x => pixel_at im (Z.of_nat x * Z.of_nat (width im) / Z.of_nat w)
                                      (Z.of_nat y * Z.of_nat (height im) / Z.of_nat h))
                (seq 0 w))
         (seq 0 h)).

Definition nearest_resampler : Resampler := {| resample := nearest_resample |}.

(** [image.resize((w, h))]: a copy when the size asked for is the size
    of the image; otherwise [ValueError] unless both are positive *)
Definition Image_resize `{Resampler} (im : Image) (sz : Z * Z) : exn + Image :=
  let '(w, h) := sz in
  if (w =? Z.of_nat (width im)) && (h =? Z.of_nat (height im)) then inr im
  else if (w <? 1) || (h <? 1) then inl ValueError
  else inr (resample im (Z.to_nat w) (Z.to_nat h)).

(** ** canvas_generator.py: crossfade *)

Definition blend_images `{Blender} (img1 img2 : Image) (alpha : Q) : M Image :=
  lift (Image_blend img1 img2 alpha).

(** line 68: [alpha = (j + 1) / (num_transition_frames + 1)] *)
Definition crossfade_alpha (j num_transition_frames : Z) : Q :=
  (inject_Z (j + 1) / inject_Z (num_transition_frames + 1))%Q.

(** [l[i]] for [i >= 0] *)
Definition index {A} (l : list A) (i : Z) : M A :=
  match l !! Z.to_nat i with
  | Some a => ret a
  | None => raise IndexError
  end.

(** lines 67-71, the body of the loop over [j] *)
Definition transition_step `{Blender} (current_frame next_frame : Image)
    (num_transition_frames : Z) (j : Z) (smoothed_frames : list Image)
  : M (list Image) :=
  let alpha := crossfade_alpha j num_transition_frames in
  transition_frame <- blend_images current_frame next_frame alpha ;;
  transition_frame <- apply_smearing transition_frame 30 ;;
  ret (smoothed_frames ++ [transition_frame]).

(** lines 62-71, the body of the loop over [i] *)
Definition crossfade_step `{Blender} (glitch_frames : list Image) (num_transition_frames : Z)
    (i : Z) (smoothed_frames : list Image) : M (list Image) :=
  let len := Z.of_nat (length glitch_frames) in
  current_frame <- index glitch_frames i ;;
  next_frame <- index glitch_frames ((i + 1) mod len) ;;
  current_frame <- apply_smearing current_frame 40 ;;
  next_frame <- apply_smearing next_frame 40 ;;
  let smoothed_frames := smoothed_frames ++ [current_frame] in
  for_range 0 num_transition_frames
            (transition_step current_frame next_frame num_transition_frames)
            smoothed_frames.

Definition create_crossfade_frames `{Blender} (glitch_frames : list Image)
    (num_transition_frames : Z) : M (list Image) :=
  print "Applying crossfade and smearing effects..." ;;;
  for_range 0 (Z.of_nat (length glitch_frames))
            (crossfade_step glitch_frames num_transition_frames) [].

(** ** External collaborators

    Path functions of [os.path], the image codecs behind [Image.open]
    and [Image.save], the glitch library, the audio decoder, the
    spectrogram renderer, the colour enhancer, the per-pixel rule of
    [alpha_composite], Python's [str] on floats and [str.lower], and the
    child processes ([ffmpeg], [npx jdenticon]). *)
Class Externals : Type := {
  os_path_basename : string -> string;
  os_path_dirname : string -> string;
  os_path_splitext : string -> string * string;
  os_path_join : string -> string -> string;
  str_lower : string -> string;
  str_float : Q -> string;
  Image_decode : list byte -> exn + Image;
  Image_encode_png : Image -> list byte;
  Image_encode_gif : list Image -> Z -> list byte;
  glitch_image : Image -> Q -> nat -> M (list Image);
  subprocess_run : list string -> M Z;
  Audio : Type;
  audio_len : Audio -> Z;
  librosa_load : list byte -> exn + (Audio * Z);
  render_spectrogram : Audio -> Z -> Q -> Z -> Z -> Image;
  enhance_color : Image -> Q -> Image;
  alpha_over : Pixel -> Pixel -> Pixel
}.

(** ** File system *)

(** [os.path.exists(path)] *)
Definition os_path_exists (path : string) : M bool :=
  fun w => (inr (bool_decide (is_Some (files w !! path)) || bool_decide (path ∈ dirs w)), w).

(** [os.makedirs(path, exist_ok=True)] *)
Definition os_makedirs (path : string) : M unit :=
  fun w => match files w !! path with
           | Some _ => (inl OSError, w)
           | None => (inr tt, mkWorld (files w) ({[path]} ∪ dirs w) (stdout w) (rng w))
           end.

(** [open(path, 'rb').read()]: the whole content of a file *)
Definition read_file (path : string) : M (list byte) :=
  fun w => match files w !! path with
           | Some content => (inr content, w)
           | None => (inl (if bool_decide (path ∈ dirs w) then OSError else FileNotFoundError), w)
           end.

Definition write_file (path : string) (content : list byte) : M unit :=
  fun w => if bool_decide (path ∈ dirs w) then (inl OSError, w)
           else (inr tt, mkWorld (<[path := content]> (files w)) (dirs w) (stdout w) (rng w)).

(** [os.rename(src, dst)] on files *)
Definition os_rename (src dst : string) : M unit :=
  content <- read_file src ;;
  fun w => if bool_decide (dst ∈ dirs w) then (inl OSError, w)
           else (inr tt, mkWorld (<[dst := content]> (delete src (files w)))
                           (dirs w) (stdout w) (rng w)).

(** [a / b] in exact arithmetic *)
Definition true_div (a b : Q) : exn + Q :=
  if Qeq_bool b 0 then inl ZeroDivisionError else inr (a / b)%Q.

Section Pipelines.
Context `{Externals} `{Resampler} `{Blender}.

(** [Image.open(path)]: a file whose header announces a width or a
    height of 0 is not identified as an image ([UnidentifiedImageError],
    an [OSError]). *)
Definition Image_open (path : string) : M Image :=
  content <- read_file path ;;
  im <- lift (Image_decode content) ;;
  if (width im =? 0)%nat || (height im =? 0)%nat then raise OSError else ret im.

(** [image.save(path)] *)
Definition Image_save (im : Image) (path : string) : M unit :=
  write_file path (Image_encode_png im).

(** [subprocess.run(cmd, check=True)] *)
Definition subprocess_run_check (cmd : list string) : M unit :=
  rc <- subprocess_run cmd ;;
  if rc =? 0 then ret tt else raise CalledProcessError.

(** lines 16-23: [subprocess.run] without [check]; only
    [FileNotFoundError] is caught *)
Definition check_ffmpeg : M bool :=
  fun w => match (_ <- subprocess_run ["ffmpeg"; "-version"]%string ;; ret true) w with
           | (inl FileNotFoundError, w') =>
               (print "Error: FFmpeg is not installed. Please install FFmpeg to convert to MP4." ;;;
                ret false) w'
           | r => r
           end.

(** ** canvas_generator.py: the pipeline *)

Definition TARGET_WIDTH : Z := 720.
Definition TARGET_HEIGHT : Z := 1280.
Definition CANVAS_DURATION : Z := 8.

(** lines 123-131: the size the image is resized to *)
Definition fit_size (w h : nat) : exn + (Z * Z) :=
  match float_div (inject_Z (Z.of_nat w)) (inject_Z (Z.of_nat h)) with
  | inl e => inl e
  | inr original_aspect =>
      let canvas_aspect := round53 (inject_Z TARGET_WIDTH / inject_Z TARGET_HEIGHT) in
      if Qlt_bool canvas_aspect original_aspect then
        let new_height := TARGET_HEIGHT in
        let new_width := py_int (float_mul (inject_Z new_height) original_aspect) in
        inr (new_width, new_height)
      else
        let new_width := TARGET_WIDTH in
        match float_div (inject_Z new_width) original_aspect with
        | inl e => inl e
        | inr q => inr (new_width, py_int q)
        end
  end.

(** lines 136-139: the centre crop box in the resized image *)
Definition crop_box (resized_w resized_h : Z) : Box :=
  let left := (resized_w - TARGET_WIDTH) / 2 in
  let top := (resized_h - TARGET_HEIGHT) / 2 in
  let right := left + TARGET_WIDTH in
  let bottom := top + TARGET_HEIGHT in
  (left, top, right, bottom).

(** lines 120-141: warning, resize, centre crop *)
Definition resize_crop (image : Image) : M Image :=
  (if (Z.of_nat (width image) <? TARGET_WIDTH) || (Z.of_nat (height image) <? TARGET_HEIGHT)
   then print "Warning: Input image resolution is lower than target resolution"
   else ret tt) ;;;
  new_size <- lift (fit_size (width image) (height image)) ;;
  print "Resizing image..." ;;;
  resized_image <- lift (Image_resize image new_size) ;;
  let box := crop_box (Z.of_nat (width resized_image)) (Z.of_nat (height resized_image)) in
  lift (Image_crop resized_image box).

Definition convert_gif_to_mp4 (gif_path output_path : string) : M bool :=
  print "Converting to MP4 format..." ;;;
  try_except
    (let cmd := ["ffmpeg"; "-i"; gif_path;
                 "-movflags"; "+faststart";
                 "-pix_fmt"; "yuv420p";
                 "-vf"; "scale=trunc(iw/2)*2:trunc(ih/2)*2";
                 "-r"; "30";
                 "-t"; pretty CANVAS_DURATION;
                 "-y";
                 output_path]%string in
     subprocess_run_check cmd ;;;
     ret true)
    (fun e => print ("Error converting to MP4: " +:+ exn_str e) ;;; ret false).

(** [create_spotify_canvas(input_image_path, output_dir)]; the result
    is [None] or the tuple of the paths written. *)
Definition create_spotify_canvas (input_image_path : string) (output_dir : option string)
  : M (option (list string)) :=
  try_except
    (found <- os_path_exists input_image_path ;;
     if negb found then
       print "Error: File does not exist" ;;; ret None
     else
       let base_name := fst (os_path_splitext (os_path_basename input_image_path)) in
       let output_dir :=
         match output_dir with
         | Some d => d
         | None => os_path_join (os_path_dirname input_image_path) (base_name +:+ "_canvas")
         end in
       os_makedirs output_dir ;;;
       let FRAMES := 24 in
       let TRANSITION_FRAMES := 3 in
       let TOTAL_DURATION := 8000 in
       let DURATION := TOTAL_DURATION / (FRAMES + (FRAMES * TRANSITION_FRAMES)) in
       print "Opening and processing image..." ;;;
       opened <- Image_open input_image_path ;;
       let image := Image_convert opened RGBA in
       cropped_image <- resize_crop image ;;
       let cropped_image :=
         if bool_decide (mode cropped_image = RGB) then cropped_image
         else Image_convert cropped_image RGB in
       print "Generating glitch effects..." ;;;
       glitch_imgs <- glitch_image cropped_image 3 (Z.to_nat FRAMES) ;;
       smoothed_frames <- create_crossfade_frames glitch_imgs TRANSITION_FRAMES ;;
       print "Saving output files..." ;;;
       let static_path := os_path_join output_dir (base_name +:+ "_canvas_static.png") in
       let gif_path := os_path_join output_dir (base_name +:+ "_canvas.gif") in
       let mp4_path := os_path_join output_dir (base_name +:+ "_canvas.mp4") in
       Image_save cropped_image static_path ;;;
       _ <- index smoothed_frames 0 ;;
       write_file gif_path (Image_encode_gif smoothed_frames DURATION) ;;;
       converted <- convert_gif_to_mp4 gif_path mp4_path ;;
       if converted then
         print ("Static canvas generated at: " +:+ static_path) ;;;
         print ("GIF canvas generated at: " +:+ gif_path) ;;;
         print ("MP4 canvas generated at: " +:+ mp4_path) ;;;
         ret (Some [static_path; gif_path; mp4_path])
       else ret (Some [static_path; gif_path]))
    (fun e => print ("Error processing image: " +:+ exn_str e) ;;; ret None).

(** ** More Pillow operations, for v7_album_artwork.py *)

(** [image.putalpha(alpha)] on an RGBA image; [alpha] is an ['L'] image
    of the same size or a constant. *)
Definition set_alpha_sample (px : Pixel) (a : Z) : Pixel :=
  match px with
  | [r; g; b; _] => [r; g; b; a]
  | _ => px
  end.

Definition Image_putalpha (im : Image) (alpha : Image + Z) : exn + Image :=
  let im := if bool_decide (mode im = RGBA) then im else Image_convert im RGBA in
  match alpha with
  | inr a =>
      inr (mkImage RGBA (width im) (height im) (map (map (fun px => set_alpha_sample px a)) (data im)))
  | inl band =>
      if bool_decide (mode band = L) && (width band =? width im)%nat
         && (height band =? height im)%nat then
        inr (mkImage RGBA (width im) (height im)
               (zip_with (zip_with (fun px apx => set_alpha_sample px (hd 0 apx)))
                         (data im) (data band)))
      else inl ValueError
  end.

Definition in_box (x y x0 y0 : Z) (w h : nat) : bool :=
  (x0 <=? x) && (x <? x0 + Z.of_nat w) && (y0 <=? y) && (y <? y0 + Z.of_nat h).

(** [im.paste(im2, (x0, y0))] *)
Definition Image_paste (im im2 : Image) (dest : Z * Z) : Image :=
  let '(x0, y0) := dest in
  let im2 := if bool_decide (mode im2 = mode im) then im2 else Image_convert im2 (mode im) in
  mkImage (mode im) (width im) (height im)
    (imap (fun y row =>
             imap (fun x px =>
                     if in_box (Z.of_nat x) (Z.of_nat y) x0 y0 (width im2) (height im2)
                     then pixel_at im2 (Z.of_nat x - x0) (Z.of_nat y - y0)
                     else px) row)
          (data im)).

(** [im.alpha_composite(im2, dest)]: both images RGBA, [dest]
    non-negative; [im2] is laid over [im] with its corner at [dest]. *)
Definition Image_alpha_composite (im im2 : Image) (dest : Z * Z) : exn + Image :=
  let '(x0, y0) := dest in
  if (x0 <? 0) || (y0 <? 0) then inl ValueError
  else if negb (bool_decide (mode im = RGBA) && bool_decide (mode im2 = RGBA))
  then inl ValueError
  else inr (mkImage RGBA (width im) (height im)
              (imap (fun y row =>
                       imap (fun x px =>
                               if in_box (Z.of_nat x) (Z.of_nat y) x0 y0 (width im2) (height im2)
                               then alpha_over px (pixel_at im2 (Z.of_nat x - x0) (Z.of_nat y - y0))
                               else px) row)
                    (data im))).

(** ** v7_album_artwork.py *)

Definition print_normal (message : string) : M unit := print message.

(** The characters are written one by one with a pause between them and
    a final newline: on standard output this is the message. *)
Definition print_typewriter (message : string) : M unit := print message.

(** The interface of [hashlib.sha256()]. *)
Class HashAlgo : Type := {
  hash_state : Type;
  sha256_new : hash_state;
  sha256_update : hash_state -> list byte -> hash_state;
  sha256_hexdigest : hash_state -> string
}.

(** hashlib's contract: feeding data in pieces is feeding the
    concatenation. *)
Definition hash_lawful `{HashAlgo} : Prop :=
  (forall h, sha256_update h [] = h) /\
  (forall h a b, sha256_update (sha256_update h a) b = sha256_update h (a ++ b)).

(** [hashlib.sha256(content).hexdigest()] *)
Definition sha256_of `{HashAlgo} (content : list byte) : string :=
  sha256_hexdigest (sha256_update sha256_new content).

Definition CHUNK_SIZE : nat := Z.to_nat 65536.

(** lines 28-32: [rest] is the part of the file not read yet;
    [f.read(n)] returns its first [n] bytes, fewer at the end. *)
Equations? read_loop `{HashAlgo} (n : nat) (rest : list byte) (sha256 : hash_state)
  : hash_state by wf (length rest) lt :=
  read_loop n rest sha256 with Logic.inspect (take n rest) => {
    | exist _ nil _ => sha256
    | exist _ (cons b bs) E =>
        read_loop n (drop n rest) (sha256_update sha256 (cons b bs)) }.
Proof.
  rewrite length_drop. destruct rest as [|b0 rest], n as [|n]; try discriminate.
  cbn [length]. lia.
Qed.

(** [s[:8]] and [s[-8:]] *)
Definition str_head8 (s : string) : string := substring 0 8 s.
Definition str_tail8 (s : string) : string := substring (String.length s - 8) 8 s.

Definition hash_audio_file `{HashAlgo} (file_path : string) : M string :=
  print_normal "🔍 Analyzing your audio's unique fingerprint..." ;;;
  content <- read_file file_path ;;
  let sha256 := read_loop CHUNK_SIZE content sha256_new in
  let hash_value := sha256_hexdigest sha256 in
  print_normal ("✓ Got it! Your audio hash is: " +:+ str_head8 hash_value +:+ "..."
                +:+ str_tail8 hash_value) ;;;
  ret hash_value.

Definition create_identicon (hash_value output_dir : string) : M Image :=
  print_normal "🎨 Generating your unique identicon..." ;;;
  let identicon_path := os_path_join output_dir "identicon.png" in
  subprocess_run_check
    ["npx"; "jdenticon"; hash_value; "--size"; "5000"; "--output"; identicon_path]%string ;;;
  print_normal "✓ Identicon created!" ;;;
  opened <- Image_open identicon_path ;;
  ret (Image_convert opened RGBA).

(** line 57: [width = min(max(duration / 4, 10), 40)] *)
Definition spectrogram_width (duration : Q) : Q :=
  Qmin (Qmax (duration / 4) 10) 40.

(** [f"{width}"] on line 58: [max] and [min] return the integer bound,
    10 or 40, when it wins the comparison, and the float [duration / 4]
    otherwise, ties included. *)
Definition str_width (duration : Q) : string :=
  if Qlt_bool (duration / 4) 10 then "10"
  else if Qlt_bool 40 (duration / 4) then "40"
  else str_float (duration / 4).

Definition SPECTROGRAM_HEIGHT : Z := 10.
Definition SPECTROGRAM_DPI : Z := 100.

(** lines 84-91: widen an image that is not 1.5 times as wide as high *)
Definition force_aspect (spec_img : Image) : M Image :=
  let w := Z.of_nat (width spec_img) in
  let h := Z.of_nat (height spec_img) in
  if Qlt_bool (inject_Z w) (inject_Z h * (3 # 2)) then
    print_normal "Warning: Spectrogram not sufficiently rectangular. Forcing aspect ratio..." ;;;
    let target_width := py_int (inject_Z (h * 3)) in
    let new_img := Image_new RGBA (Z.to_nat target_width) (height spec_img) [0; 0; 0; 0] in
    resized <- lift (Image_resize spec_img (Z.min w target_width, h)) ;;
    let spec_img := Image_paste new_img resized (0, 0) in
    print_normal ("Adjusted spectrogram dimensions: " +:+ pretty (Z.of_nat (width spec_img))
                  +:+ "x" +:+ pretty (Z.of_nat (height spec_img)) +:+ " pixels") ;;;
    ret spec_img
  else ret spec_img.

(** lines 99-119: the columns [left, right) of the middle square *)
Definition middle_square (width height : Z) : Z * Z :=
  let square_size := height in
  let num_segments := Z.max 1 (width - square_size + 1) in
  if num_segments <=? 1 then
    (0, Z.min square_size width)
  else
    let left := (width - square_size) / 2 in
    (left, left + square_size).

(** lines 125-126 in exact arithmetic: the times that the code
    approximates in doubles *)
Definition segment_times (left right width : Z) (duration : Q) : exn + (Q * Q) :=
  match true_div (inject_Z left) (inject_Z width), true_div (inject_Z right) (inject_Z width) with
  | inr l, inr r => inr (l * duration, r * duration)%Q
  | inl e, _ => inl e
  | _, inl e => inl e
  end.

(** lines 125-126 as the code computes them: [(left / width) * duration]
    with the quotient and the product rounded *)
Definition segment_times_float (left right width : Z) (duration : Q) : exn + (Q * Q) :=
  match float_div (inject_Z left) (inject_Z width),
        float_div (inject_Z right) (inject_Z width) with
  | inr l, inr r => inr (float_mul l duration, float_mul r duration)
  | inl e, _ => inl e
  | _, inl e => inl e
  end.

(** [x] in hundredths, rounded to the nearest, ties to even *)
Definition hundredths (x : Q) : Z := round_half_even (x * 100).

Definition two_digits (n : Z) : string :=
  if n <? 10 then "0" +:+ pretty n else pretty n.

(** the decimal notation of [n / 100] with two decimals *)
Definition show_hundredths (n : Z) : string :=
  (if n <? 0 then "-" else "") +:+ pretty (Z.abs n / 100) +:+ "." +:+ two_digits (Z.abs n mod 100).

(** [f"{x:.2f}"]: the value of the double, correctly rounded to two
    decimals *)
Definition format_2f (x : Q) : string := show_hundredths (hundredths x).

(** line 127, the text of the message *)
Definition time_report (time_position time_end : Q) : string :=
  "✓ Enhanced spectrogram created! Selected middle segment covers audio from "
  +:+ format_2f time_position +:+ "s to " +:+ format_2f time_end +:+ "s".

Definition create_improved_spectrogram (audio_file_path : string) (saturation_level : Q)
  : M (Image * string * string) :=
  print_normal "🔊 Analyzing your audio frequencies with scaling..." ;;;
  content <- read_file audio_file_path ;;
  loaded <- lift (librosa_load content) ;;
  let '(y, sr) := loaded in
  duration <- lift (float_div (inject_Z (audio_len y)) (inject_Z sr)) ;;
  let height := SPECTROGRAM_HEIGHT in
  let width := spectrogram_width duration in
  print_normal ("Creating spectrogram with dimensions: " +:+ str_width duration +:+ "x"
                +:+ pretty height +:+ " inches") ;;;
  let dpi := SPECTROGRAM_DPI in
  let spec_img := Image_convert (render_spectrogram y sr width height dpi) RGBA in
  print_normal ("Raw spectrogram dimensions: " +:+ pretty (Z.of_nat (fst (size spec_img)))
                +:+ "x" +:+ pretty (Z.of_nat (snd (size spec_img))) +:+ " pixels") ;;;
  spec_img <- force_aspect spec_img ;;
  let spec_img :=
    if Qeq_bool saturation_level 1 then spec_img else enhance_color spec_img saturation_level in
  let '(width, height) := (Z.of_nat (fst (size spec_img)), Z.of_nat (snd (size spec_img))) in
  let rectangle_filename := "rectangle_spectrogram.png"%string in
  let full_rect_path := os_path_join (os_path_dirname audio_file_path) rectangle_filename in
  Image_save spec_img full_rect_path ;;;
  print_normal ("Saved full rectangular spectrogram to: " +:+ full_rect_path) ;;;
  let segment := middle_square width height in
  let left := fst segment in
  let right := snd segment in
  spec_img <- lift (Image_crop spec_img (left, 0, right, height)) ;;
  times <- lift (segment_times_float left right width duration) ;;
  let '(time_position, time_end) := times in
  print_normal (time_report time_position time_end) ;;;
  ret (spec_img, full_rect_path, rectangle_filename).

Definition set_image_alpha (image : Image) (alpha_value : Z) : M Image :=
  let image := if bool_decide (mode image = RGBA) then image else Image_convert image RGBA in
  let new_alpha := Image_new L (fst (size image)) (snd (size image)) [alpha_value] in
  lift (Image_putalpha image (inl new_alpha)).

Definition resize_identicon (identicon : Image) (scale : Q) : M Image :=
  let '(width, height) := (Z.of_nat (fst (size identicon)), Z.of_nat (snd (size identicon))) in
  let new_size := (py_int (inject_Z width * scale), py_int (inject_Z height * scale)) in
  lift (Image_resize identicon new_size).

(** lines 198-201: where the identicon is laid on the spectrogram *)
Definition centre_position (spectrogram identicon : Image) : Z * Z :=
  ((Z.of_nat (fst (size spectrogram)) - Z.of_nat (fst (size identicon))) / 2,
   (Z.of_nat (snd (size spectrogram)) - Z.of_nat (snd (size identicon))) / 2).

(** lines 175-205 of [create_album_artwork_v7]; the result is
    [(final_image_rgb, identicon)]. *)
Definition composite (identicon spectrogram : Image) : M (Image * Image) :=
  print_typewriter "📏 Resizing spectrogram to match identicon..." ;;;
  spectrogram <- lift (Image_resize spectrogram
                         (Z.of_nat (fst (size identicon)), Z.of_nat (snd (size identicon)))) ;;
  print_typewriter "🔍 Adjusting spectrogram transparency..." ;;;
  spectrogram <- set_image_alpha spectrogram 127 ;;
  print_typewriter "✂️ Resizing identicon..." ;;;
  identicon <- resize_identicon identicon (4 # 10) ;;
  identicon <- lift (Image_putalpha identicon (inr 255)) ;;
  print_typewriter "⬛ Creating a sleek black background..." ;;;
  let final_image := Image_new RGBA (fst (size spectrogram)) (snd (size spectrogram))
                               [0; 0; 0; 255] in
  print_typewriter "🔄 Applying the spectrogram to the background..." ;;;
  final_image <- lift (Image_alpha_composite final_image spectrogram (0, 0)) ;;
  print_typewriter "🎯 Centering the identicon..." ;;;
  let position := centre_position spectrogram identicon in
  final_image <- lift (Image_alpha_composite final_image identicon position) ;;
  let final_image_rgb := Image_convert final_image RGB in
  ret (final_image_rgb, identicon).

(** [s[1:]] *)
Definition str_tail (s : string) : string :=
  match s with
  | EmptyString => EmptyString
  | String _ t => t
  end.

Definition create_album_artwork_v7 `{HashAlgo} (audio_file_path : string) (saturation_level : Q)
  : M (string * string) :=
  let base_name := fst (os_path_splitext (os_path_basename audio_file_path)) in
  let file_ext := str_lower (snd (os_path_splitext audio_file_path)) in
  let output_dir :=
    os_path_join (os_path_dirname audio_file_path)
                 ("id_" +:+ base_name +:+ "_" +:+ str_tail file_ext +:+ "_v7_sat"
                  +:+ str_float saturation_level) in
  print_normal ("📁 Creating output directory: " +:+ output_dir) ;;;
  os_makedirs output_dir ;;;
  print_typewriter "🚀 Starting the v7 Album Artwork Generator" ;;;
  hash_value <- hash_audio_file audio_file_path ;;
  identicon <- create_identicon hash_value output_dir ;;
  result <- create_improved_spectrogram audio_file_path saturation_level ;;
  let '(spectrogram, rect_path, rect_filename) := result in
  os_rename rect_path (os_path_join output_dir rect_filename) ;;;
  Image_save spectrogram (os_path_join output_dir "spectrogram.png") ;;;
  layers <- composite identicon spectrogram ;;
  let '(final_image_rgb, identicon) := layers in
  let output_path := os_path_join output_dir (base_name +:+ ".png") in
  Image_save final_image_rgb output_path ;;;
  Image_save identicon (os_path_join output_dir "identicon.png") ;;;
  print_typewriter "✅ Album artwork v7 generated successfully!" ;;;
  print_typewriter ("📍 Find your masterpiece at: " +:+ output_path) ;;;
  print_typewriter "🎵 Now go make some more music worthy of this awesome cover!" ;;;
  ret (output_dir, output_path).

End Pipelines.

(** ** Reasoning about the monad *)

(** total correctness: [m] returns a value satisfying [Q] *)
Definition returns {A} (m : M A) (w : World) (Q : A -> World -> Prop) : Prop :=
  exists a w', m w = (inr a, w') /\ Q a w'.

(** partial correctness: if [m] returns, the value satisfies [Q] *)
Definition ensures {A} (m : M A) (w : World) (Q : A -> Prop) : Prop :=
  match m w with
  | (inr a, _) => Q a
  | (inl _, _) => True
  end.

(** ** Predicates of the statements *)

Definition row_update_closed (P : list Row -> Prop) : Prop :=
  forall rows (y : nat) alpha cur above,
    P rows -> (0 < y)%nat -> rows !! y = Some cur -> rows !! (y - 1)%nat = Some above ->
    P (<[y := mix_rows alpha cur above]> rows).

(** [out] is a result of [apply_smearing src strength] for some state
    of the world *)
Definition smeared (src : Image) (strength : Z) (out : Image) : Prop :=
  exists w w', apply_smearing src strength w = (inr out, w').



(** [ts] are the [k] transition frames between [cur] and [nxt]: the
    [j]-th is a smearing of the blend with [alpha = (j+1)/(k+1)] *)
Definition transition_frames `{Blender} (cur nxt : Image) (k : Z) (ts : list Image) : Prop :=
  length ts = Z.to_nat k /\
  forall j, 0 <= j < k ->
    exists blended t,
      Image_blend cur nxt (inject_Z (j + 1) / inject_Z (k + 1)) = inr blended /\
      smeared blended 30 t /\
      ts !! Z.to_nat j = Some t.

(** [block] is what iteration [i] appends: the smeared frame [i], then
    its transition frames toward the smeared frame [nxt_i] *)
Definition crossfade_block `{Blender} (frames : list Image) (k : Z) (i nxt_i : nat)
    (block : list Image) : Prop :=
  exists src_cur src_nxt cur nxt ts,
    frames !! i = Some src_cur /\ frames !! nxt_i = Some src_nxt /\
    smeared src_cur 40 cur /\ smeared src_nxt 40 nxt /\
    transition_frames cur nxt k ts /\
    block = cur :: ts.

(** every pixel of an RGBA image has alpha [a] *)
Definition uniform_alpha (a : Z) (im : Image) : Prop :=
  mode im = RGBA /\ Forall (Forall (fun px : list Z => px !! 3%nat = Some a)) (data im).

(** [m] raises [e] *)
Definition raises {A} (m : M A) (w : World) (e : exn) : Prop :=
  exists w', m w = (inl e, w').

(** files, directories and standard output are the same in [w'] *)
Definition same_io (w w' : World) : Prop :=
  files w' = files w /\ dirs w' = dirs w /\ stdout w' = stdout w.

(** [m] leaves what was printed before it and only appends lines *)
Definition appends_output {A} (m : M A) : Prop :=
  forall w, exists lines, stdout (snd (m w)) = stdout w ++ lines.

(** all rows of the image are the same row *)
Definition uniform_rows (im : Image) : Prop :=
  forall y1 y2 r1 r2, data im !! y1 = Some r1 -> data im !! y2 = Some r2 -> r1 = r2.

(** ** Concrete inputs and stand-ins for the collaborators *)

Definition empty_world : World := mkWorld ∅ ∅ [] [].

(** one column of 12 rows with the values 0, 20, ..., 220 *)
Definition ramp_image : Image :=
  mkImage L 1 12 (map (fun i => [[Z.of_nat i * 20]]) (seq 0 12)).


(** two one-column frames of the same size *)
Definition two_frames : list Image :=
  [mkImage L 1 2 [[[10]]; [[200]]]; mkImage L 1 2 [[[90]]; [[40]]]].

(** a 2 x 3 RGBA image *)
Definition stub_image : Image :=
  mkImage RGBA 2 3 [[[1; 2; 3; 255]; [4; 5; 6; 255]];
                    [[7; 8; 9; 255]; [10; 11; 12; 255]];
                    [[13; 14; 15; 255]; [16; 17; 18; 255]]].

(** a 5 x 5 RGBA image of one colour *)
Definition small_identicon : Image :=
  mkImage RGBA 5 5 (replicate 5 (replicate 5 [9; 9; 9; 9])).

Definition some_bytes : list byte := [x52; x49; x46; x46; x00; x01; xff].

(** a hash object that keeps the bytes fed to it and prints a 16-bit
    polynomial checksum of them: an instance of the interface *)
Definition checksum (l : list byte) : Z :=
  foldl (fun acc b => (31 * acc + Z.of_N (Byte.to_N b)) mod 65521) 7 l.

Definition buffer_hash : HashAlgo :=
  {| hash_state := list byte;
     sha256_new := [];
     sha256_update := fun h data => h ++ data;
     sha256_hexdigest := fun h => pretty (checksum h) |}.

(** stand-ins for the external collaborators, to run the pipelines on
    concrete inputs *)
Definition stub_externals : Externals :=
  {| os_path_basename := fun p => p;
     os_path_dirname := fun _ => "."%string;
     os_path_splitext := fun p => (p, ""%string);
     os_path_join := fun a b => (a +:+ "/" +:+ b)%string;
     str_lower := fun s => s;
     str_float := fun _ => "1.0"%string;
     Image_decode := fun _ => inr stub_image;
     Image_encode_png := fun _ => [];
     Image_encode_gif := fun _ _ => [];
     glitch_image := fun im _ n => ret (replicate n im);
     subprocess_run := fun _ => ret 0;
     Audio := unit;
     audio_len := fun _ => 8;
     librosa_load := fun _ => inr (tt, 1);
     render_spectrogram := fun _ _ _ _ _ => stub_image;
     enhance_color := fun im _ => im;
     alpha_over := fun dst src => src |}.

(** the same stand-ins with a decoder that yields the 5 x 5 image and
    an encoder that writes one byte *)
Definition stub_externals_5x5 : Externals :=
  {| os_path_basename := @os_path_basename stub_externals;
     os_path_dirname := @os_path_dirname stub_externals;
     os_path_splitext := @os_path_splitext stub_externals;
     os_path_join := @os_path_join stub_externals;
     str_lower := @str_lower stub_externals;
     str_float := @str_float stub_externals;
     Image_decode := fun _ => inr small_identicon;
     Image_encode_png := fun im => [x00];
     Image_encode_gif := @Image_encode_gif stub_externals;
     glitch_image := @glitch_image stub_externals;
     subprocess_run := @subprocess_run stub_externals;
     Audio := @Audio stub_externals;
     audio_len := @audio_len stub_externals;
     librosa_load := @librosa_load stub_externals;
     render_spectrogram := @render_spectrogram stub_externals;
     enhance_color := @enhance_color stub_externals;
     alpha_over := @alpha_over stub_externals |}.

(** * Proofs *)

Lemma returns_ret {A} (a : A) w (Q : A -> World -> Prop) : Q a w -> returns (ret a) w Q.
Proof. intros HQ. exists a, w. split; [reflexivity | exact HQ]. Qed.

Lemma returns_bind {A B} (m : M A) (k : A -> M B) w (Q : B -> World -> Prop) :
  returns m w (fun a w' => returns (k a) w' Q) -> returns (bind m k) w Q.
Proof.
  intros (a & w' & Hm & b & w'' & Hk & HQ).
  exists b, w''. unfold bind. rewrite Hm. auto.
Qed.

Lemma returns_mono {A} (m : M A) w (Q Q' : A -> World -> Prop) :
  returns m w Q -> (forall a w', Q a w' -> Q' a w') -> returns m w Q'.
Proof. intros (a & w' & Hm & HQ) Himp. exists a, w'. auto. Qed.

Lemma returns_print msg w (Q : unit -> World -> Prop) :
  (forall w', Q tt w') -> returns (print msg) w Q.
Proof. intros HQ. eexists _, _. split; [reflexivity | apply HQ]. Qed.

Lemma returns_lift {A} (r : exn + A) a w (Q : A -> World -> Prop) :
  r = inr a -> Q a w -> returns (lift r) w Q.
Proof. intros -> HQ. exists a, w. auto. Qed.

Lemma returns_foldM {S X} (body : X -> S -> M S) (Inv : nat -> S -> Prop) xs :
  (forall i x s w, xs !! i = Some x -> Inv i s ->
                   returns (body x s) w (fun s' _ => Inv (Datatypes.S i) s')) ->
  forall s w, Inv 0%nat s ->
              returns (foldM body xs s) w (fun s' _ => Inv (length xs) s').
Proof.
  revert Inv. induction xs as [|x xs IH]; intros Inv Hbody s w H0.
  - apply returns_ret. exact H0.
  - cbn [foldM]. apply returns_bind.
    eapply returns_mono; [apply (Hbody 0%nat x s w eq_refl H0)|].
    intros s' w' Hs'. cbn beta in Hs'.
    apply (IH (fun i => Inv (Datatypes.S i))); [|exact Hs'].
    intros i y s0 w0 Hy. apply (Hbody (Datatypes.S i)). exact Hy.
Qed.

Lemma ensures_ret {A} (a : A) w (Q : A -> Prop) : Q a -> ensures (ret a) w Q.
Proof. intros HQ. exact HQ. Qed.

Lemma ensures_bind {A B} (m : M A) (k : A -> M B) w (Q : B -> Prop) :
  (forall a w', ensures (k a) w' Q) -> ensures (bind m k) w Q.
Proof.
  intros Hk. unfold ensures, bind. destruct (m w) as [[e|a] w']; [exact I|].
  apply Hk.
Qed.

Lemma ensures_foldM {S X} (body : X -> S -> M S) (P : S -> Prop) xs :
  (forall x s w, P s -> ensures (body x s) w P) ->
  forall s w, P s -> ensures (foldM body xs s) w P.
Proof.
  intros Hbody. induction xs as [|x xs IH]; intros s w Hs.
  - exact Hs.
  - cbn [foldM]. unfold ensures, bind.
    specialize (Hbody x s w Hs). unfold ensures in Hbody.
    destruct (body x s w) as [[e|s'] w']; [exact I|].
    apply IH. exact Hbody.
Qed.

(** ** [apply_smearing] keeps what every row update keeps *)

Lemma smear_row_ensures (P : list Row -> Prop) y_start streak_height y rows w :
  row_update_closed P -> P rows ->
  ensures (smear_row y_start streak_height y rows) w P.
Proof.
  intros Hclosed HP. unfold smear_row, smear_row_with.
  destruct (0 <? y) eqn:Hy; [|exact HP].
  apply Z.ltb_lt in Hy.
  unfold ensures, bind, lift, get_row.
  destruct (rows !! Z.to_nat y) as [cur|] eqn:Hcur; [|exact I].
  destruct (rows !! Z.to_nat (y - 1)) as [above|] eqn:Habove; [|exact I].
  cbn. apply Hclosed; try assumption; [lia|].
  replace (Z.to_nat y - 1)%nat with (Z.to_nat (y - 1)) by lia. exact Habove.
Qed.

Lemma smear_column_ensures (P : list Row -> Prop) strength height x rows w :
  row_update_closed P -> P rows ->
  ensures (smear_column strength height x rows) w P.
Proof.
  intros Hclosed HP. unfold smear_column, smear_column_with.
  apply ensures_bind. intros r w1.
  destruct (Qlt_bool r (1 # 10)); [|exact HP].
  apply ensures_bind. intros streak_height w2.
  apply ensures_bind. intros y_start w3.
  apply ensures_foldM; [|exact HP].
  intros y rows' w4 HP'. apply smear_row_ensures; assumption.
Qed.

(** [apply_smearing] always returns an image, with the mode and size of
    its argument, and its rows keep every property that the row update
    of line 47 keeps. *)
Lemma apply_smearing_keeps (P : list Row -> Prop) image strength w :
  row_update_closed P -> P (data image) ->
  returns (apply_smearing image strength) w
          (fun out _ => mode out = mode image /\ width out = width image /\
                        height out = height image /\ P (data out)).
Proof.
  intros Hclosed HP. unfold apply_smearing, try_except.
  cbv zeta. unfold bind at 1. unfold for_range, returns. cbv beta.
  match goal with
  | |- context [foldM ?body ?xs ?s w] =>
      assert (Hloop : ensures (foldM body xs s) w P)
        by (apply ensures_foldM; [|exact HP];
            intros x s0 w0 Hs; apply smear_column_ensures; assumption);
      unfold ensures in Hloop;
      destruct (foldM body xs s w) as [[e|rows] w']
  end.
  - unfold bind, print, ret. cbn. eexists _, _. split; [reflexivity|]. auto.
  - cbn. eexists _, _. split; [reflexivity|]. cbn. auto.
Qed.

(** ** Numbers *)

(** *** Rounding to doubles *)

Lemma Qlt_bool_iff a b : Qlt_bool a b = true <-> (a < b)%Q.
Proof.
  unfold Qlt_bool. rewrite negb_true_iff. split.
  - intros Hb. apply Qnot_le_lt. intros Hle. apply Qle_bool_iff in Hle. congruence.
  - intros Hlt. destruct (Qle_bool b a) eqn:Hb; [|reflexivity].
    apply Qle_bool_iff in Hb. exfalso. apply (Qlt_not_le _ _ Hlt Hb).
Qed.

Lemma Qlt_bool_niff a b : Qlt_bool a b = false <-> (b <= a)%Q.
Proof.
  unfold Qlt_bool. rewrite negb_false_iff. apply Qle_bool_iff.
Qed.

Lemma round_half_even_mono (x y : Q) :
  (x <= y)%Q -> round_half_even x <= round_half_even y.
Proof.
  intros Hxy. unfold round_half_even.
  pose proof (Qfloor_resp_le _ _ Hxy) as Hf.
  pose proof (Qfloor_le x) as Hx1. pose proof (Qlt_floor x) as Hx2.
  pose proof (Qfloor_le y) as Hy1. pose proof (Qlt_floor y) as Hy2.
  rewrite inject_Z_plus in Hx2, Hy2. change (inject_Z 1) with 1%Q in Hx2, Hy2.
  destruct (Z.eq_dec (Qfloor x) (Qfloor y)) as [Heq | Hne].
  - rewrite <- Heq in *. set (f := Qfloor x) in *.
    destruct (Qlt_bool (x - inject_Z f) (1 # 2)) eqn:A1;
      destruct (Qlt_bool (y - inject_Z f) (1 # 2)) eqn:B1;
      destruct (Qlt_bool (1 # 2) (x - inject_Z f)) eqn:A2;
      destruct (Qlt_bool (1 # 2) (y - inject_Z f)) eqn:B2;
      destruct (Z.even f); try lia;
      rewrite ?Qlt_bool_iff, ?Qlt_bool_niff in *; exfalso; lra.
  - destruct (Qlt_bool (x - inject_Z (Qfloor x)) (1 # 2));
      destruct (Qlt_bool (y - inject_Z (Qfloor y)) (1 # 2));
      destruct (Qlt_bool (1 # 2) (x - inject_Z (Qfloor x)));
      destruct (Qlt_bool (1 # 2) (y - inject_Z (Qfloor y)));
      destruct (Z.even (Qfloor x)); destruct (Z.even (Qfloor y)); lia.
Qed.

Lemma round_half_even_Z (n : Z) : round_half_even (inject_Z n) = n.
Proof.
  unfold round_half_even. rewrite Qfloor_Z.
  assert (Hlt : Qlt_bool (inject_Z n - inject_Z n) (1 # 2) = true).
  { apply Qlt_bool_iff. lra. }
  rewrite Hlt. reflexivity.
Qed.

Lemma pow2_pos (e : Z) : (0 < 2 ^ e)%Q.
Proof. apply Qpower_0_lt. reflexivity. Qed.

Lemma pow2_succ (e : Z) : (2 ^ (e + 1) == 2 * 2 ^ e)%Q.
Proof. rewrite Qpower_plus by discriminate. change (2 ^ 1)%Q with 2%Q. ring. Qed.

Lemma pow2_add (a b : Z) : (2 ^ (a + b) == 2 ^ a * 2 ^ b)%Q.
Proof. apply Qpower_plus. discriminate. Qed.

Lemma pow2_le (a b : Z) : a <= b -> (2 ^ a <= 2 ^ b)%Q.
Proof. intros Hab. apply Qpower_le_compat_l; [exact Hab | discriminate]. Qed.

Lemma pow2_lt_inv (a b : Z) : (2 ^ a < 2 ^ b)%Q -> a < b.
Proof. intros Hab. apply (Qpower_lt_compat_l_inv 2); [exact Hab | reflexivity]. Qed.

Lemma pow2_Z (n : Z) : 0 <= n -> (2 ^ n == inject_Z (2 ^ n))%Q.
Proof. intros Hn. rewrite Zpower_Qpower by exact Hn. reflexivity. Qed.

Lemma Qlog2_spec (x : Q) :
  (0 < x)%Q -> (2 ^ Qlog2 x <= x)%Q /\ (x < 2 ^ (Qlog2 x + 1))%Q.
Proof.
  intros Hx. unfold Qlog2.
  destruct x as [n d]. cbn [Qnum Qden].
  assert (Hn : 0 < n) by (unfold Qlt in Hx; cbn in Hx; lia).
  set (a := Z.log2 n). set (b := Z.log2 (Z.pos d)).
  pose proof (Z.log2_nonneg n) as Ha0. pose proof (Z.log2_nonneg (Z.pos d)) as Hb0.
  fold a in Ha0. fold b in Hb0.
  destruct (Z.log2_spec n Hn) as [Ha1 Ha2]. fold a in Ha1, Ha2.
  destruct (Z.log2_spec (Z.pos d) ltac:(lia)) as [Hb1 Hb2]. fold b in Hb1, Hb2.
  assert (Hk : (2 ^ (a - b) == inject_Z (2 ^ a) / inject_Z (2 ^ b))%Q).
  { rewrite Qpower_minus by discriminate. rewrite !pow2_Z by assumption. reflexivity. }
  assert (Hx' : (n # d == inject_Z n / inject_Z (Z.pos d))%Q) by apply Qmake_Qdiv.
  assert (HP : (0 < inject_Z (2 ^ a))%Q).
  { change 0%Q with (inject_Z 0). rewrite <- Zlt_Qlt. lia. }
  assert (HB : (0 < inject_Z (2 ^ b))%Q).
  { change 0%Q with (inject_Z 0). rewrite <- Zlt_Qlt. lia. }
  assert (HD : (0 < inject_Z (Z.pos d))%Q) by reflexivity.
  assert (HN1 : (inject_Z (2 ^ a) <= inject_Z n)%Q) by (rewrite <- Zle_Qle; exact Ha1).
  assert (HN2 : (inject_Z n < 2 * inject_Z (2 ^ a))%Q).
  { change 2%Q with (inject_Z 2). rewrite <- inject_Z_mult, <- Zlt_Qlt.
    replace (2 * 2 ^ a) with (2 ^ Z.succ a); [exact Ha2|].
    rewrite Z.pow_succ_r by lia. reflexivity. }
  assert (HD1 : (inject_Z (2 ^ b) <= inject_Z (Z.pos d))%Q) by (rewrite <- Zle_Qle; exact Hb1).
  assert (HD2 : (inject_Z (Z.pos d) < 2 * inject_Z (2 ^ b))%Q).
  { change 2%Q with (inject_Z 2). rewrite <- inject_Z_mult, <- Zlt_Qlt.
    replace (2 * 2 ^ b) with (2 ^ Z.succ b); [exact Hb2|].
    rewrite Z.pow_succ_r by lia. reflexivity. }
  set (P := inject_Z (2 ^ a)) in *. set (B := inject_Z (2 ^ b)) in *.
  set (N := inject_Z n) in *. set (D := inject_Z (Z.pos d)) in *.
  assert (Hq : (P / B * B == P)%Q) by (field; lra).
  assert (HX : (N / D * D == N)%Q) by (field; lra).
  set (q := (P / B)%Q) in *. set (X := (N / D)%Q) in *.
  assert (Hq0 : (0 < q)%Q).
  { unfold q. apply Qlt_shift_div_l; [exact HB | lra]. }
  assert (HX0 : (0 < X)%Q).
  { unfold X. apply Qlt_shift_div_l; [exact HD | lra]. }
  clearbody q X P B N D.
  assert (Hlo : (q * (1 # 2) <= X)%Q).
  { apply Qnot_lt_le. intros Hc.
    assert (H1 : (X * D < q * (1 # 2) * D)%Q) by (apply Qmult_lt_compat_r; assumption).
    assert (H2 : (q * D < q * (2 * B))%Q).
    { rewrite !(Qmult_comm q). apply Qmult_lt_compat_r; lra. }
    assert (H3 : (q * (1 # 2) * D == (1 # 2) * (q * D))%Q) by ring.
    assert (H4 : (q * (2 * B) == 2 * (q * B))%Q) by ring.
    rewrite H3 in H1. rewrite H4 in H2.
    set (XD := (X * D)%Q) in *. set (qD := (q * D)%Q) in *.
    set (qB := (q * B)%Q) in *. clearbody XD qD qB.
    clear - H1 H2 Hq HX HN1. lra. }
  assert (Hhi : (X < 2 * q)%Q).
  { apply Qnot_le_lt. intros Hc.
    assert (H1 : (2 * q * D <= X * D)%Q) by (apply Qmult_le_compat_r; lra).
    assert (H2 : (q * B <= q * D)%Q).
    { rewrite !(Qmult_comm q). apply Qmult_le_compat_r; lra. }
    assert (H3 : (2 * q * D == 2 * (q * D))%Q) by ring.
    rewrite H3 in H1.
    set (XD := (X * D)%Q) in *. set (qD := (q * D)%Q) in *.
    set (qB := (q * B)%Q) in *. clearbody XD qD qB.
    clear - H1 H2 Hq HX HN2. lra. }
  destruct (Qle_bool (2 ^ (a - b)) (n # d)) eqn:Htest.
  - apply Qle_bool_iff in Htest. split; [exact Htest|].
    rewrite pow2_succ, Hk, Hx'. exact Hhi.
  - assert (Hlt : (n # d < 2 ^ (a - b))%Q).
    { apply Qnot_le_lt. intros Hle. apply Qle_bool_iff in Hle. congruence. }
    replace (a - b - 1 + 1) with (a - b) by lia. split; [|exact Hlt].
    assert (Hhalf : (2 ^ (a - b - 1) == 2 ^ (a - b) * (1 # 2))%Q).
    { rewrite (Qpower_minus 2 (a - b) 1) by discriminate. reflexivity. }
    rewrite Hhalf, Hk, Hx'. exact Hlo.
Qed.

Lemma Qlog2_mono (x y : Q) : (0 < x)%Q -> (x <= y)%Q -> Qlog2 x <= Qlog2 y.
Proof.
  intros Hx Hxy.
  destruct (Qlog2_spec x Hx) as [Hx1 _].
  destruct (Qlog2_spec y ltac:(lra)) as [_ Hy2].
  assert (Hlt : Qlog2 x < Qlog2 y + 1) by (apply pow2_lt_inv; lra).
  lia.
Qed.

Lemma round53_pos_bounds (x : Q) :
  (0 < x)%Q ->
  (2 ^ Qlog2 x <= round53_pos x)%Q /\ (round53_pos x <= 2 ^ (Qlog2 x + 1))%Q.
Proof.
  intros Hx. destruct (Qlog2_spec x Hx) as [H1 H2]. unfold round53_pos.
  set (e := Qlog2 x - 52).
  pose proof (pow2_pos e) as He.
  assert (HL : (2 ^ Qlog2 x == inject_Z (2 ^ 52) * 2 ^ e)%Q).
  { replace (Qlog2 x) with (52 + e) by (unfold e; lia).
    rewrite pow2_add, (pow2_Z 52) by lia. reflexivity. }
  assert (HL1 : (2 ^ (Qlog2 x + 1) == inject_Z (2 ^ 53) * 2 ^ e)%Q).
  { replace (Qlog2 x + 1) with (53 + e) by (unfold e; lia).
    rewrite pow2_add, (pow2_Z 53) by lia. reflexivity. }
  assert (Hm1 : (inject_Z (2 ^ 52) <= x / 2 ^ e)%Q).
  { apply Qle_shift_div_l; [exact He|]. rewrite <- HL. exact H1. }
  assert (Hm2 : (x / 2 ^ e <= inject_Z (2 ^ 53))%Q).
  { apply Qle_shift_div_r; [exact He|]. rewrite <- HL1. lra. }
  apply round_half_even_mono in Hm1, Hm2. rewrite round_half_even_Z in Hm1, Hm2.
  rewrite HL, HL1. split; apply Qmult_le_compat_r; try lra; rewrite <- Zle_Qle; assumption.
Qed.

Lemma round53_pos_mono (x y : Q) :
  (0 < x)%Q -> (x <= y)%Q -> (round53_pos x <= round53_pos y)%Q.
Proof.
  intros Hx Hxy. assert (Hy : (0 < y)%Q) by lra.
  pose proof (Qlog2_mono x y Hx Hxy) as HL.
  destruct (Z.eq_dec (Qlog2 x) (Qlog2 y)) as [Heq | Hne].
  - unfold round53_pos. rewrite Heq. set (e := Qlog2 y - 52).
    pose proof (pow2_pos e) as He.
    apply Qmult_le_compat_r; [|lra]. rewrite <- Zle_Qle.
    apply round_half_even_mono. apply Qmult_le_compat_r; [exact Hxy|].
    apply Qlt_le_weak, Qinv_lt_0_compat. exact He.
  - destruct (round53_pos_bounds x Hx) as [_ Hx2].
    destruct (round53_pos_bounds y Hy) as [Hy1 _].
    pose proof (pow2_le (Qlog2 x + 1) (Qlog2 y) ltac:(lia)). lra.
Qed.

Lemma round53_pos_gt0 (x : Q) : (0 < x)%Q -> (0 < round53_pos x)%Q.
Proof.
  intros Hx. destruct (round53_pos_bounds x Hx) as [H1 _].
  pose proof (pow2_pos (Qlog2 x)). lra.
Qed.

Lemma round53_proper (x y : Q) : (x == y)%Q -> round53 x = round53 y.
Proof. intros Hxy. unfold round53. rewrite (Qred_complete _ _ Hxy). reflexivity. Qed.

Lemma round53_of_pos (x : Q) : (0 < x)%Q -> round53 x = round53_pos (Qred x).
Proof.
  intros Hx. unfold round53. cbv zeta.
  assert (Hc : (Qred x ?= 0)%Q = Gt).
  { apply Qgt_alt. rewrite Qred_correct. exact Hx. }
  rewrite Hc. reflexivity.
Qed.

Lemma round53_0 (x : Q) : (x == 0)%Q -> round53 x = 0%Q.
Proof. intros Hx. rewrite (round53_proper x 0 Hx). reflexivity. Qed.

Lemma round53_gt0 (x : Q) : (0 < x)%Q -> (0 < round53 x)%Q.
Proof.
  intros Hx. rewrite round53_of_pos by exact Hx.
  apply round53_pos_gt0. rewrite Qred_correct. exact Hx.
Qed.

Lemma round53_mono (x y : Q) :
  (0 <= x)%Q -> (x <= y)%Q -> (round53 x <= round53 y)%Q.
Proof.
  intros Hx Hxy.
  destruct (Qlt_le_dec 0 x) as [Hpos | Hzero].
  - rewrite (round53_of_pos x Hpos), (round53_of_pos y) by lra.
    apply round53_pos_mono; rewrite !Qred_correct; assumption.
  - rewrite (round53_0 x) by lra.
    destruct (Qlt_le_dec 0 y) as [Hy | Hy].
    + apply Qlt_le_weak, round53_gt0. exact Hy.
    + rewrite (round53_0 y) by lra. lra.
Qed.

Lemma round_half_even_near (x : Q) :
  (inject_Z (round_half_even x) - x <= 1 # 2)%Q /\
  (x - inject_Z (round_half_even x) <= 1 # 2)%Q.
Proof.
  unfold round_half_even.
  pose proof (Qfloor_le x) as Hlo. pose proof (Qlt_floor x) as Hhi.
  rewrite inject_Z_plus in Hhi. change (inject_Z 1) with 1%Q in Hhi.
  set (f := inject_Z (Qfloor x)) in *.
  destruct (Qlt_bool (x - f) (1 # 2)) eqn:H1.
  - apply Qlt_bool_iff in H1. fold f. split; lra.
  - apply Qlt_bool_niff in H1.
    destruct (Qlt_bool (1 # 2) (x - f)) eqn:H2.
    + rewrite inject_Z_plus. change (inject_Z 1) with 1%Q. fold f. split; lra.
    + apply Qlt_bool_niff in H2.
      destruct (Z.even (Qfloor x));
        [|rewrite inject_Z_plus; change (inject_Z 1) with 1%Q]; fold f; split; lra.
Qed.

(** the relative error of rounding is at most 2^-53 *)
Lemma round53_error (x : Q) :
  (0 < x)%Q ->
  (round53 x - x <= x * (1 # 9007199254740992))%Q /\
  (x - round53 x <= x * (1 # 9007199254740992))%Q.
Proof.
  intros Hx. rewrite round53_of_pos by exact Hx.
  remember (Qred x) as x' eqn:Ex.
  assert (Hx' : (x' == x)%Q) by (subst x'; apply Qred_correct).
  clear Ex. rewrite <- Hx' in Hx |- *. rename Hx into Hpos.
  destruct (Qlog2_spec x' Hpos) as [H1 _]. unfold round53_pos.
  set (e := Qlog2 x' - 52).
  pose proof (pow2_pos e) as He.
  assert (HL : (2 ^ Qlog2 x' == inject_Z (2 ^ 52) * 2 ^ e)%Q).
  { replace (Qlog2 x') with (52 + e) by (unfold e; lia).
    rewrite pow2_add, (pow2_Z 52) by lia. reflexivity. }
  rewrite HL in H1.
  destruct (round_half_even_near (x' / 2 ^ e)) as [Hn1 Hn2].
  set (R := inject_Z (round_half_even (x' / 2 ^ e))) in *.
  assert (Hm : (x' / 2 ^ e * 2 ^ e == x')%Q) by (field; lra).
  set (m := (x' / 2 ^ e)%Q) in *. set (E := (2 ^ e)%Q) in *.
  assert (Ha : ((R - m) * E <= (1 # 2) * E)%Q) by (apply Qmult_le_compat_r; lra).
  assert (Hb : ((m - R) * E <= (1 # 2) * E)%Q) by (apply Qmult_le_compat_r; lra).
  assert (Ha' : ((R - m) * E == R * E - m * E)%Q) by ring.
  assert (Hb' : ((m - R) * E == m * E - R * E)%Q) by ring.
  rewrite Ha' in Ha. rewrite Hb' in Hb.
  change (inject_Z (2 ^ 52)) with (4503599627370496 # 1)%Q in H1.
  set (RE := (R * E)%Q) in *. set (mE := (m * E)%Q) in *.
  clearbody RE mE E. clear - Ha Hb Hm H1 He. split; lra.
Qed.

Lemma py_int_proper x y : (x == y)%Q -> py_int x = py_int y.
Proof.
  intros Hxy. unfold py_int.
  assert (Hb : Qle_bool 0 x = Qle_bool 0 y).
  { destruct (Qle_bool 0 x) eqn:Hx, (Qle_bool 0 y) eqn:Hy; try reflexivity.
    - apply Qle_bool_iff in Hx. rewrite Hxy in Hx. apply Qle_bool_iff in Hx. congruence.
    - apply Qle_bool_iff in Hy. rewrite <- Hxy in Hy. apply Qle_bool_iff in Hy. congruence. }
  rewrite Hb. destruct (Qle_bool 0 y).
  - apply Qfloor_comp. exact Hxy.
  - apply Qceiling_comp. exact Hxy.
Qed.

Lemma to_uint8_range x : sample_ok (to_uint8 x).
Proof. unfold sample_ok, to_uint8. apply Z.mod_pos_bound. lia. Qed.

Lemma mix_sample_black alpha : mix_sample alpha 0 0 = 0.
Proof.
  unfold mix_sample, to_uint8.
  rewrite (py_int_proper _ 0); [reflexivity|]. ring.
Qed.

(** ** Rows *)

Lemma mix_rows_wf c w alpha (cur above : Row) :
  length cur = w -> length above = w ->
  Forall (fun px : Pixel => length px = c /\ Forall sample_ok px) cur ->
  Forall (fun px : Pixel => length px = c /\ Forall sample_ok px) above ->
  length (mix_rows alpha cur above) = w /\
  Forall (fun px : Pixel => length px = c /\ Forall sample_ok px) (mix_rows alpha cur above).
Proof.
  intros Hlc Hla Hc Ha. unfold mix_rows. split.
  - rewrite length_zip_with. lia.
  - clear Hlc Hla. revert above Ha.
    induction Hc as [|px cur [Hlen Hpx] Hc IH]; intros above Ha; [constructor|].
    destruct Ha as [|px' above [Hlen' Hpx'] Ha]; [constructor|].
    cbn [zip_with]. constructor; [|apply IH; exact Ha].
    split.
    + rewrite length_zip_with. lia.
    + clear. revert px'. induction px as [|v px IH]; intros [|v' px']; cbn; constructor.
      * apply to_uint8_range.
      * apply IH.
Qed.

Lemma mix_rows_black alpha (cur above : Row) :
  Forall (Forall (fun v => v = 0)) cur -> Forall (Forall (fun v => v = 0)) above ->
  Forall (Forall (fun v => v = 0)) (mix_rows alpha cur above).
Proof.
  intros Hc. revert above.
  induction Hc as [|px cur Hpx Hc IH]; intros above Ha; [constructor|].
  destruct Ha as [|px' above Hpx' Ha]; [constructor|].
  cbn. constructor; [|apply IH; exact Ha].
  clear -Hpx Hpx'. revert px' Hpx'.
  induction Hpx as [|v px -> Hpx IH]; intros px' Hpx'; [constructor|].
  destruct Hpx' as [|v' px' -> Hpx']; [constructor|].
  cbn. constructor; [apply mix_sample_black | apply IH; exact Hpx'].
Qed.

Lemma wf_rows_update_closed c w h : row_update_closed (wf_rows c w h).
Proof.
  intros rows y alpha cur above [Hlen Hrows] Hy Hcur Habove. split.
  - rewrite length_insert. exact Hlen.
  - apply Forall_insert; [exact Hrows|].
    pose proof (Forall_lookup_1 _ _ _ _ Hrows Hcur) as [Hlc Hc].
    pose proof (Forall_lookup_1 _ _ _ _ Hrows Habove) as [Hla Ha].
    apply mix_rows_wf; assumption.
Qed.

Lemma all_black_update_closed : row_update_closed all_black_rows.
Proof.
  intros rows y alpha cur above Hrows Hy Hcur Habove.
  apply Forall_insert; [exact Hrows|].
  apply mix_rows_black.
  - exact (Forall_lookup_1 _ _ _ _ Hrows Hcur).
  - exact (Forall_lookup_1 _ _ _ _ Hrows Habove).
Qed.

Lemma first_row_update_closed (r : option Row) :
  row_update_closed (fun rows => rows !! 0%nat = r).
Proof.
  intros rows y alpha cur above Hrows Hy Hcur Habove.
  rewrite list_lookup_insert_ne by lia. exact Hrows.
Qed.

Lemma row_update_closed_and (P Q : list Row -> Prop) :
  row_update_closed P -> row_update_closed Q ->
  row_update_closed (fun rows => P rows /\ Q rows).
Proof.
  intros HP HQ rows y alpha cur above [Hp Hq] Hy Hcur Habove.
  split; [apply HP | apply HQ]; assumption.
Qed.

Lemma row_update_closed_impl (A : Prop) (P : list Row -> Prop) :
  row_update_closed P -> row_update_closed (fun rows => A -> P rows).
Proof.
  intros HP rows y alpha cur above Hp Hy Hcur Habove Ha.
  apply HP; auto.
Qed.

(** ** Smearing *)

(** C4: the frame returned by [apply_smearing] has the mode (hence the
    channel count), the width and the height of its argument and is
    again a well-formed pixel grid of that size, for every strength and
    every state of the random source; smearing an all-black frame gives
    an all-black frame. *)
Theorem apply_smearing_preserves_shape_and_black (image : Image) (strength : Z) (w : World) :
  wf_image image ->
  exists out w',
    apply_smearing image strength w = (inr out, w') /\
    width out = width image /\ height out = height image /\
    bands (mode out) = bands (mode image) /\
    wf_image out /\
    (all_black image -> all_black out).
Proof.
  intros Hwf.
  destruct (apply_smearing_keeps
              (fun rows => wf_rows (bands (mode image)) (width image) (height image) rows /\
                           (all_black image -> all_black_rows rows))
              image strength w) as (out & w' & Heq & Hm & Hw & Hh & Hrows & Hblack).
  - apply row_update_closed_and; [apply wf_rows_update_closed|].
    apply row_update_closed_impl, all_black_update_closed.
  - split; [exact Hwf | auto].
  - exists out, w'.
    split; [exact Heq|]. split; [exact Hw|]. split; [exact Hh|].
    split; [rewrite Hm; reflexivity|].
    split; [|exact Hblack].
    unfold wf_image. rewrite Hm, Hw, Hh. exact Hrows.
Qed.

Lemma ramp_image_wf : wf_image ramp_image.
Proof.
  split; [reflexivity|].
  repeat (constructor;
          [split; [reflexivity|];
           repeat (constructor; [split; [reflexivity|]; repeat constructor; unfold sample_ok; lia|]);
           constructor|]).
  constructor.
Qed.

Lemma apply_smearing_preserves_shape_and_black_witness :
  exists out w',
    apply_smearing ramp_image 10 (mkWorld ∅ ∅ [] [0; 0; 0]) = (inr out, w') /\
    width out = 1%nat /\ height out = 12%nat /\ wf_image out.
Proof.
  destruct (apply_smearing_preserves_shape_and_black ramp_image 10 (mkWorld ∅ ∅ [] [0; 0; 0]))
    as (out & w' & Heq & Hw & Hh & _ & Hwf & _).
  - apply ramp_image_wf.
  - exists out, w'. split; [exact Heq|]. split; [exact Hw|]. split; [exact Hh | exact Hwf].
Defined.

(** C10: row 0 of the frame returned by [apply_smearing] is row 0 of its
    argument, for every frame, every strength and every state of the
    random source. *)
Theorem apply_smearing_keeps_top_row (image : Image) (strength : Z) (w : World) :
  exists out w',
    apply_smearing image strength w = (inr out, w') /\
    data out !! 0%nat = data image !! 0%nat.
Proof.
  destruct (apply_smearing_keeps (fun rows => rows !! 0%nat = data image !! 0%nat)
              image strength w) as (out & w' & Heq & _ & _ & _ & Hrow).
  - apply first_row_update_closed.
  - reflexivity.
  - exists out, w'. split; assumption.
Qed.

Lemma inject_Z_nonzero (s : Z) : s <> 0 -> ~ (inject_Z s == 0)%Q.
Proof. intros Hs Heq. apply Hs. unfold Qeq in Heq. cbn in Heq. lia. Qed.

Lemma inject_Z_pos (s : Z) : 0 < s -> (0 < inject_Z s)%Q.
Proof. intros Hs. unfold Qlt. cbn. lia. Qed.









(** ** Crossfade *)

Lemma same_shape_spec im1 im2 :
  same_shape im1 im2 = true <->
  mode im1 = mode im2 /\ width im1 = width im2 /\ height im1 = height im2.
Proof.
  unfold same_shape. rewrite !andb_true_iff, bool_decide_eq_true, !Nat.eqb_eq. tauto.
Qed.

Section Crossfade.
Context `{Blender}.

Lemma Image_blend_same_shape im1 im2 alpha :
  same_shape im1 im2 = true ->
  Image_blend im1 im2 alpha
  = inr (mkImage (mode im1) (width im1) (height im1)
           (zip_with (zip_with (zip_with (blend_sample alpha))) (data im1) (data im2))).
Proof. intros Hs. unfold Image_blend. rewrite Hs. reflexivity. Qed.

Lemma apply_smearing_returns image strength w :
  exists out w',
    apply_smearing image strength w = (inr out, w') /\
    mode out = mode image /\ width out = width image /\ height out = height image.
Proof.
  destruct (apply_smearing_keeps (fun _ => True) image strength w)
    as (out & w' & Heq & Hm & Hw & Hh & _).
  - intros rows y alpha cur above _ _ _ _. exact I.
  - exact I.
  - exists out, w'. auto.
Qed.

Lemma index_returns {A} (l : list A) (i : Z) a w :
  l !! Z.to_nat i = Some a -> index l i w = (inr a, w).
Proof. intros Hl. unfold index. rewrite Hl. reflexivity. Qed.

Lemma length_py_range a b : length (py_range a b) = Z.to_nat (b - a).
Proof. unfold py_range. apply length_seqZ. Qed.

Lemma lookup_py_range a b i x : py_range a b !! i = Some x -> x = a + Z.of_nat i.
Proof. unfold py_range. intros Hx. apply lookup_seqZ in Hx. lia. Qed.

Lemma transition_loop cur nxt k acc w :
  same_shape cur nxt = true ->
  returns (for_range 0 k (transition_step cur nxt k) acc) w
          (fun s _ => exists ts, s = acc ++ ts /\ transition_frames cur nxt k ts).
Proof.
  intros Hshape. unfold for_range.
  eapply returns_mono.
  - apply (returns_foldM (transition_step cur nxt k)
             (fun n s => exists ts, s = acc ++ ts /\ length ts = n /\
                forall j, (j < n)%nat ->
                  exists blended t,
                    Image_blend cur nxt (inject_Z (Z.of_nat j + 1) / inject_Z (k + 1))
                    = inr blended /\
                    smeared blended 30 t /\ ts !! j = Some t)).
    + intros n x s w0 Hx (ts & -> & Hlen & Hts).
      apply lookup_py_range in Hx. rewrite Z.add_0_l in Hx. subst x.
      unfold transition_step, blend_images.
      apply returns_bind.
      eapply returns_lift; [apply Image_blend_same_shape; exact Hshape|].
      set (blended := mkImage _ _ _ _).
      apply returns_bind.
      destruct (apply_smearing_returns blended 30 w0) as (t & w1 & Ht & _).
      exists t, w1. split; [exact Ht|].
      apply returns_ret.
      exists (ts ++ [t]). split; [rewrite app_assoc; reflexivity|].
      split; [rewrite length_app; cbn; lia|].
      intros j Hj. destruct (decide (j = n)) as [->|Hne].
      * exists blended, t. split; [|split].
        -- apply Image_blend_same_shape. exact Hshape.
        -- exists w0, w1. exact Ht.
        -- rewrite lookup_app_r by lia. rewrite Hlen, Nat.sub_diag. reflexivity.
      * destruct (Hts j ltac:(lia)) as (b' & t' & Hb' & Hs' & Hl').
        exists b', t'. split; [exact Hb'|]. split; [exact Hs'|].
        rewrite lookup_app_l by lia. exact Hl'.
    + exists []. split; [rewrite app_nil_r; reflexivity|].
      split; [reflexivity|]. intros j Hj. lia.
  - intros s _ (ts & -> & Hlen & Hts). cbn beta.
    rewrite length_py_range, Z.sub_0_r in Hlen, Hts.
    exists ts. split; [reflexivity|]. split; [exact Hlen|].
    intros j Hj. destruct (Hts (Z.to_nat j) ltac:(lia)) as (b' & t' & Hb' & Hs' & Hl').
    rewrite Z2Nat.id in Hb' by lia. eauto.
Qed.

Lemma crossfade_step_returns frames k (i : nat) acc w :
  (forall f g, f ∈ frames -> g ∈ frames -> same_shape f g = true) ->
  (i < length frames)%nat ->
  returns (crossfade_step frames k (Z.of_nat i) acc) w
          (fun s _ => exists block,
               s = acc ++ block /\
               crossfade_block frames k i ((i + 1) mod length frames)%nat block).
Proof.
  intros Hshapes Hi. unfold crossfade_step.
  destruct (lookup_lt_is_Some_2 frames i Hi) as [src_cur Hcur].
  assert (Hn : ((i + 1) mod length frames < length frames)%nat)
    by (apply Nat.mod_upper_bound; lia).
  destruct (lookup_lt_is_Some_2 frames _ Hn) as [src_nxt Hnxt].
  apply returns_bind. exists src_cur, w. split.
  { apply index_returns. rewrite Nat2Z.id. exact Hcur. }
  apply returns_bind. exists src_nxt, w. split.
  { apply index_returns.
    replace (Z.of_nat i + 1) with (Z.of_nat (i + 1)) by lia.
    rewrite <- Nat2Z.inj_mod, Nat2Z.id. exact Hnxt. }
  apply returns_bind.
  destruct (apply_smearing_returns src_cur 40 w) as (cur & w1 & Hc & Hcm & Hcw & Hch).
  exists cur, w1. split; [exact Hc|].
  apply returns_bind.
  destruct (apply_smearing_returns src_nxt 40 w1) as (nxt & w2 & Hx & Hxm & Hxw & Hxh).
  exists nxt, w2. split; [exact Hx|].
  assert (Hshape : same_shape cur nxt = true).
  { apply same_shape_spec. rewrite Hcm, Hcw, Hch, Hxm, Hxw, Hxh.
    apply same_shape_spec, Hshapes; eapply list_elem_of_lookup_2; eassumption. }
  eapply returns_mono; [apply transition_loop; exact Hshape|].
  intros s _ (ts & -> & Hts). cbn beta.
  exists (cur :: ts). split; [rewrite <- app_assoc; reflexivity|].
  exists src_cur, src_nxt, cur, nxt, ts.
  repeat split; try assumption; try apply Hts.
  - exists w, w1. exact Hc.
  - exists w1, w2. exact Hx.
Qed.

Lemma crossfade_block_length frames k i n block :
  0 <= k -> crossfade_block frames k i n block -> length block = (Z.to_nat k + 1)%nat.
Proof.
  intros Hk (? & ? & ? & ? & ts & _ & _ & _ & _ & [Hlen _] & ->). cbn. lia.
Qed.

Lemma length_concat_uniform {A} (blocks : list (list A)) n :
  (forall i block, blocks !! i = Some block -> length block = n) ->
  length (concat blocks) = (length blocks * n)%nat.
Proof.
  induction blocks as [|b blocks IH]; intros Hlen; [reflexivity|].
  cbn. rewrite length_app, (Hlen 0%nat b eq_refl), IH; [reflexivity|].
  intros i block Hi. apply (Hlen (S i)). exact Hi.
Qed.

(** C1: for frames that share one mode and size and a transition count
    [k >= 0], [create_crossfade_frames] returns, its result has length
    [L * (k + 1)], and it is the concatenation of [L] blocks: block [i]
    is the smeared frame [i] followed by the [k] smeared blends toward
    the smeared frame [(i + 1) mod L], the [j]-th with
    [alpha = (j + 1) / (k + 1)].  The last block is of the same form with
    frame 0 as the frame blended toward.  The arithmetic of
    [Image.blend] on the samples is Pillow's and is left open. *)
Theorem create_crossfade_frames_spec (frames : list Image) (k : Z) (w : World) :
  0 <= k ->
  (forall f g, f ∈ frames -> g ∈ frames -> same_shape f g = true) ->
  exists out w',
    create_crossfade_frames frames k w = (inr out, w') /\
    Z.of_nat (length out) = Z.of_nat (length frames) * (k + 1) /\
    exists blocks,
      out = concat blocks /\
      length blocks = length frames /\
      (forall i block,
          blocks !! i = Some block ->
          crossfade_block frames k i ((i + 1) mod length frames)%nat block) /\
      (forall block,
          blocks !! (length frames - 1)%nat = Some block ->
          crossfade_block frames k (length frames - 1)%nat 0%nat block).
Proof.
  intros Hk Hshapes. unfold create_crossfade_frames.
  assert (Hloop :
    forall w0,
      returns (for_range 0 (Z.of_nat (length frames)) (crossfade_step frames k) []) w0
        (fun s _ => exists blocks,
             s = concat blocks /\ length blocks = length frames /\
             forall i block,
               blocks !! i = Some block ->
               crossfade_block frames k i ((i + 1) mod length frames)%nat block)).
  { intros w0. unfold for_range. eapply returns_mono.
    - apply (returns_foldM (crossfade_step frames k)
               (fun n s => exists blocks,
                    s = concat blocks /\ length blocks = n /\
                    forall i block,
                      blocks !! i = Some block ->
                      crossfade_block frames k i ((i + 1) mod length frames)%nat block)).
      + intros n x s w1 Hx (blocks & -> & Hlen & Hblocks).
        pose proof (lookup_lt_Some _ _ _ Hx) as Hn.
        rewrite length_py_range in Hn.
        apply lookup_py_range in Hx. rewrite Z.add_0_l in Hx. subst x.
        eapply returns_mono; [apply crossfade_step_returns; [exact Hshapes | lia]|].
        intros s _ (block & -> & Hblock). cbn beta.
        exists (blocks ++ [block]).
        split; [rewrite concat_app; cbn; rewrite app_nil_r; reflexivity|].
        split; [rewrite length_app; cbn; lia|].
        intros i b Hi. destruct (decide (i = n)) as [->|Hne].
        * rewrite lookup_app_r in Hi by lia.
          rewrite Hlen, Nat.sub_diag in Hi. injection Hi as <-. exact Hblock.
        * apply Hblocks. rewrite lookup_app_l in Hi; [exact Hi|].
          apply lookup_lt_Some in Hi. rewrite length_app in Hi. cbn in Hi. lia.
      + exists []. split; [reflexivity|]. split; [reflexivity|].
        intros i block Hi. rewrite lookup_nil in Hi. discriminate.
    - intros s _ (blocks & -> & Hlen & Hblocks). cbn beta.
      rewrite length_py_range in Hlen.
      exists blocks. split; [reflexivity|]. split; [lia | exact Hblocks]. }
  destruct (Hloop (mkWorld (files w) (dirs w)
                     (stdout w ++ ["Applying crossfade and smearing effects..."]) (rng w)))
    as (out & w' & Heq & blocks & -> & Hlen & Hblocks).
  exists (concat blocks), w'. split.
  { unfold bind, print. exact Heq. }
  split.
  { rewrite (length_concat_uniform blocks (Z.to_nat k + 1)).
    - rewrite Hlen. lia.
    - intros i block Hi. eapply crossfade_block_length; [exact Hk|].
      apply (Hblocks i block Hi). }
  exists blocks. split; [reflexivity|]. split; [exact Hlen|]. split; [exact Hblocks|].
  intros block Hlast.
  pose proof (lookup_lt_Some _ _ _ Hlast) as Hpos.
  specialize (Hblocks _ _ Hlast).
  replace ((length frames - 1 + 1) mod length frames)%nat with 0%nat in Hblocks;
    [exact Hblocks|].
  replace (length frames - 1 + 1)%nat with (length frames) by lia.
  symmetry. apply Nat.Div0.mod_same.
Qed.

End Crossfade.

Lemma create_crossfade_frames_spec_witness :
  exists out w',
    @create_crossfade_frames linear_blender two_frames 3 (mkWorld ∅ ∅ [] []) = (inr out, w') /\
    Z.of_nat (length out) = Z.of_nat (length two_frames) * (3 + 1).
Proof.
  destruct (@create_crossfade_frames_spec linear_blender two_frames 3 (mkWorld ∅ ∅ [] []))
    as (out & w' & Heq & Hlen & _).
  - lia.
  - intros f g Hf Hg. unfold two_frames in Hf, Hg.
    repeat (apply elem_of_cons in Hf as [->|Hf]); try (apply elem_of_nil in Hf; contradiction);
    repeat (apply elem_of_cons in Hg as [->|Hg]); try (apply elem_of_nil in Hg; contradiction);
    reflexivity.
  - exists out, w'. split; assumption.
Defined.

(** ** Aspect-fit resize and crop *)

Lemma Qlt_bool_true a b : Qlt_bool a b = true -> (a < b)%Q.
Proof.
  unfold Qlt_bool. intros Hb. apply negb_true_iff in Hb.
  apply Qnot_le_lt. intros Hle. apply Qle_bool_iff in Hle. congruence.
Qed.

Lemma Qlt_bool_false a b : Qlt_bool a b = false -> (b <= a)%Q.
Proof.
  unfold Qlt_bool. intros Hb. apply negb_false_iff in Hb.
  apply Qle_bool_iff. exact Hb.
Qed.

Lemma py_int_lower (n : Z) (x : Q) : 0 <= n -> (inject_Z n <= x)%Q -> n <= py_int x.
Proof.
  intros Hn Hx. unfold py_int.
  assert (H0 : (0 <= x)%Q).
  { eapply Qle_trans; [|exact Hx]. change 0%Q with (inject_Z 0). rewrite <- Zle_Qle. exact Hn. }
  apply Qle_bool_iff in H0. rewrite H0.
  rewrite <- (Qfloor_Z n). apply Qfloor_resp_le. exact Hx.
Qed.

Lemma canvas_aspect_value :
  (round53 (inject_Z TARGET_WIDTH / inject_Z TARGET_HEIGHT) == 9 # 16)%Q.
Proof. vm_compute. reflexivity. Qed.

Lemma round53_lower (n : Z) (x : Q) :
  0 <= n -> (round53 (inject_Z n) == inject_Z n)%Q -> (inject_Z n <= x)%Q ->
  (inject_Z n <= round53 x)%Q.
Proof.
  intros Hn Hexact Hx. rewrite <- Hexact. apply round53_mono; [|exact Hx].
  change 0%Q with (inject_Z 0). rewrite <- Zle_Qle. exact Hn.
Qed.

(** the size computed on lines 123-131 covers the canvas, and one of
    its sides is the side of the canvas *)
Lemma fit_size_covers (w h : nat) :
  (0 < w)%nat -> (0 < h)%nat ->
  exists new_w new_h,
    fit_size w h = inr (new_w, new_h) /\
    TARGET_WIDTH <= new_w /\ TARGET_HEIGHT <= new_h /\
    (new_w = TARGET_WIDTH \/ new_h = TARGET_HEIGHT).
Proof.
  intros Hw Hh. unfold fit_size, float_div, float_mul.
  assert (Hhq : (0 < inject_Z (Z.of_nat h))%Q) by (apply inject_Z_pos; lia).
  assert (Hwq : (0 < inject_Z (Z.of_nat w))%Q) by (apply inject_Z_pos; lia).
  assert (Hq : (0 < inject_Z (Z.of_nat w) / inject_Z (Z.of_nat h))%Q).
  { apply Qlt_shift_div_l; [exact Hhq|]. rewrite Qmult_0_l. exact Hwq. }
  destruct (Qeq_bool (inject_Z (Z.of_nat h)) 0) eqn:Hz.
  { apply Qeq_bool_iff in Hz. rewrite Hz in Hhq. discriminate. }
  pose proof (round53_gt0 _ Hq) as Ha.
  set (a := round53 (inject_Z (Z.of_nat w) / inject_Z (Z.of_nat h))) in *.
  clearbody a.
  destruct (Qlt_bool (round53 (inject_Z TARGET_WIDTH / inject_Z TARGET_HEIGHT)) a) eqn:Hcmp.
  - apply Qlt_bool_true in Hcmp. rewrite canvas_aspect_value in Hcmp.
    eexists _, _. split; [reflexivity|]. split; [|split; [reflexivity | right; reflexivity]].
    apply py_int_lower; [unfold TARGET_WIDTH; lia|].
    apply round53_lower; [unfold TARGET_WIDTH; lia | vm_compute; reflexivity |].
    change (inject_Z TARGET_WIDTH) with (720 # 1)%Q.
    change (inject_Z TARGET_HEIGHT) with (1280 # 1)%Q. lra.
  - apply Qlt_bool_false in Hcmp. rewrite canvas_aspect_value in Hcmp.
    destruct (Qeq_bool a 0) eqn:Hza.
    { apply Qeq_bool_iff in Hza. rewrite Hza in Ha. discriminate. }
    eexists _, _. split; [reflexivity|]. split; [reflexivity|].
    split; [|left; reflexivity].
    apply py_int_lower; [unfold TARGET_HEIGHT; lia|].
    apply round53_lower; [unfold TARGET_HEIGHT; lia | vm_compute; reflexivity |].
    apply Qle_shift_div_l; [exact Ha|].
    change (inject_Z TARGET_WIDTH) with (720 # 1)%Q.
    change (inject_Z TARGET_HEIGHT) with (1280 # 1)%Q. lra.
Qed.

Lemma black_pixel_wf m :
  length (black_pixel m) = bands m /\ Forall sample_ok (black_pixel m).
Proof.
  unfold black_pixel. split; [apply length_replicate|].
  apply Forall_replicate. unfold sample_ok. lia.
Qed.

Lemma pixel_at_wf im x y :
  wf_image im ->
  length (pixel_at im x y) = bands (mode im) /\ Forall sample_ok (pixel_at im x y).
Proof.
  intros [_ Hrows]. unfold pixel_at.
  destruct ((0 <=? x) && (0 <=? y)); [|apply black_pixel_wf].
  destruct (data im !! Z.to_nat y) as [row|] eqn:Hrow; [|apply black_pixel_wf].
  destruct (row !! Z.to_nat x) as [px|] eqn:Hpx; [|apply black_pixel_wf].
  pose proof (Forall_lookup_1 _ _ _ _ Hrows Hrow) as [_ Hr].
  exact (Forall_lookup_1 _ _ _ _ Hr Hpx).
Qed.

Lemma wf_rows_map {X Y} c (xs : list X) (ys : list Y) (f : Y -> X -> list Z) :
  (forall x y, length (f y x) = c /\ Forall sample_ok (f y x)) ->
  wf_rows c (length xs) (length ys) (map (fun y => map (f y) xs) ys).
Proof.
  intros Hf. split; [apply length_map|].
  apply Forall_map, Forall_forall. intros y _. split; [apply length_map|].
  apply Forall_map, Forall_forall. intros x _. apply Hf.
Qed.

Lemma Image_crop_wf im x0 y0 x1 y1 out :
  wf_image im -> Image_crop im (x0, y0, x1, y1) = inr out -> wf_image out.
Proof.
  intros Hwf. unfold Image_crop.
  destruct ((x1 <? x0) || (y1 <? y0)); [discriminate|].
  intros [= <-]. unfold wf_image. cbn.
  pose proof (wf_rows_map (bands (mode im)) (py_range x0 x1) (py_range y0 y1)
                (fun y x => pixel_at im x y)) as Hmap.
  rewrite !length_py_range in Hmap. apply Hmap.
  intros x y. apply pixel_at_wf. exact Hwf.
Qed.

Lemma nearest_resample_lawful : @resample_lawful nearest_resampler.
Proof.
  intros im w h. cbn.
  split; [reflexivity|]. split; [reflexivity|]. split; [reflexivity|].
  intros Hwf. unfold wf_image. cbn.
  pose proof (wf_rows_map (bands (mode im)) (seq 0 w) (seq 0 h)
                (fun y x => pixel_at im (Z.of_nat x * Z.of_nat (width im) / Z.of_nat w)
                                        (Z.of_nat y * Z.of_nat (height im) / Z.of_nat h)))
    as Hmap.
  rewrite !length_seq in Hmap. apply Hmap.
  intros x y. apply pixel_at_wf. exact Hwf.
Qed.

Section ResizeCrop.
Context `{Resampler}.

(** [image.resize] to a size with positive sides returns an image of
    that size and of the same mode *)
Lemma Image_resize_returns (im : Image) (w h : Z) :
  resample_lawful -> 1 <= w -> 1 <= h ->
  exists resized,
    Image_resize im (w, h) = inr resized /\
    mode resized = mode im /\
    Z.of_nat (width resized) = w /\ Z.of_nat (height resized) = h /\
    (wf_image im -> wf_image resized).
Proof.
  intros Hlaw Hw Hh. unfold Image_resize.
  destruct ((w =? Z.of_nat (width im)) && (h =? Z.of_nat (height im))) eqn:Hsame.
  - apply andb_true_iff in Hsame as [Hw' Hh'].
    apply Z.eqb_eq in Hw', Hh'. exists im. auto.
  - replace (w <? 1) with false by (symmetry; apply Z.ltb_ge; lia).
    replace (h <? 1) with false by (symmetry; apply Z.ltb_ge; lia).
    destruct (Hlaw im (Z.to_nat w) (Z.to_nat h)) as (Hrm & Hrw & Hrh & Hrwf).
    eexists. split; [reflexivity|]. split; [exact Hrm|].
    rewrite Hrw, Hrh, !Z2Nat.id by lia. auto.
Qed.

(** C2: for a source image of positive width and height, the stage
    resizes the image to the size [new_w x new_h] computed on lines
    123-131, crops the resized image with the box of lines 136-139 and
    returns that crop.  The box lies within the resized image:
    [0 <= left <= right <= new_w] and [0 <= top <= bottom <= new_h],
    with [right - left = 720] and [bottom - top = 1280]; and the image
    returned is exactly 720 x 1280 pixels. *)
Theorem resize_crop_exact (image : Image) (w : World) :
  resample_lawful ->
  (0 < width image)%nat -> (0 < height image)%nat ->
  exists new_w new_h resized x0 y0 x1 y1 out w',
    fit_size (width image) (height image) = inr (new_w, new_h) /\
    Image_resize image (new_w, new_h) = inr resized /\
    Z.of_nat (width resized) = new_w /\ Z.of_nat (height resized) = new_h /\
    crop_box (Z.of_nat (width resized)) (Z.of_nat (height resized)) = (x0, y0, x1, y1) /\
    0 <= x0 /\ x0 <= x1 /\ x1 <= Z.of_nat (width resized) /\
    0 <= y0 /\ y0 <= y1 /\ y1 <= Z.of_nat (height resized) /\
    x1 - x0 = TARGET_WIDTH /\ y1 - y0 = TARGET_HEIGHT /\
    Image_crop resized (x0, y0, x1, y1) = inr out /\
    resize_crop image w = (inr out, w') /\
    Z.of_nat (width out) = TARGET_WIDTH /\ Z.of_nat (height out) = TARGET_HEIGHT /\
    (wf_image image -> wf_image out).
Proof.
  intros Hlaw Hw Hh.
  destruct (fit_size_covers _ _ Hw Hh) as (new_w & new_h & Hfit & Hnw & Hnh & _).
  unfold TARGET_WIDTH in Hnw. unfold TARGET_HEIGHT in Hnh.
  destruct (Image_resize_returns image new_w new_h Hlaw ltac:(lia) ltac:(lia))
    as (resized & Hres & _ & Hrw & Hrh & Hrwf).
  set (x0 := (new_w - 720) / 2). set (y0 := (new_h - 1280) / 2).
  assert (Hbox : crop_box (Z.of_nat (width resized)) (Z.of_nat (height resized))
                 = (x0, y0, x0 + 720, y0 + 1280)).
  { rewrite Hrw, Hrh. reflexivity. }
  assert (Hx0 : 0 <= x0 /\ x0 + 720 <= new_w).
  { unfold x0. split; [apply Z.div_pos; lia|].
    pose proof (Z.mul_div_le (new_w - 720) 2 ltac:(lia)). lia. }
  assert (Hy0 : 0 <= y0 /\ y0 + 1280 <= new_h).
  { unfold y0. split; [apply Z.div_pos; lia|].
    pose proof (Z.mul_div_le (new_h - 1280) 2 ltac:(lia)). lia. }
  set (out := mkImage (mode resized) (Z.to_nat (x0 + 720 - x0)) (Z.to_nat (y0 + 1280 - y0))
                (map (fun y => map (fun x => pixel_at resized x y) (py_range x0 (x0 + 720)))
                     (py_range y0 (y0 + 1280)))).
  assert (Hcrop : Image_crop resized (x0, y0, x0 + 720, y0 + 1280) = inr out).
  { unfold Image_crop.
    replace (x0 + 720 <? x0) with false by (symmetry; apply Z.ltb_ge; lia).
    replace (y0 + 1280 <? y0) with false by (symmetry; apply Z.ltb_ge; lia).
    reflexivity. }
  assert (Hret : returns (resize_crop image) w (fun o _ => o = out)).
  { unfold resize_crop. apply returns_bind.
    assert (Hrest : forall w0,
      returns (new_size <- lift (fit_size (width image) (height image)) ;;
               print "Resizing image..." ;;;
               resized_image <- lift (Image_resize image new_size) ;;
               lift (Image_crop resized_image
                       (crop_box (Z.of_nat (width resized_image))
                                 (Z.of_nat (height resized_image))))) w0
              (fun o _ => o = out)).
    { intros w0. apply returns_bind. eapply returns_lift; [exact Hfit|].
      apply returns_bind, returns_print. intros w1.
      apply returns_bind. eapply returns_lift; [exact Hres|].
      rewrite Hbox.
      eapply returns_lift; [exact Hcrop | reflexivity]. }
    destruct ((Z.of_nat (width image) <? TARGET_WIDTH)
              || (Z.of_nat (height image) <? TARGET_HEIGHT)).
    - apply returns_print. intros w0. apply Hrest.
    - apply returns_ret. apply Hrest. }
  destruct Hret as (o & w' & Heq & ->).
  exists new_w, new_h, resized, x0, y0, (x0 + 720), (y0 + 1280), out, w'.
  split; [exact Hfit|]. split; [exact Hres|]. split; [exact Hrw|]. split; [exact Hrh|].
  split; [exact Hbox|].
  rewrite Hrw, Hrh. unfold TARGET_WIDTH, TARGET_HEIGHT.
  split; [lia|]. split; [lia|]. split; [lia|]. split; [lia|]. split; [lia|]. split; [lia|].
  split; [lia|]. split; [lia|].
  split; [exact Hcrop|]. split; [exact Heq|].
  split; [cbn; lia|]. split; [cbn; lia|].
  intros Hwf. eapply Image_crop_wf; [apply Hrwf; exact Hwf | exact Hcrop].
Qed.

End ResizeCrop.

(** the 2 x 3 image is resized to 853 x 1280 and cropped to the columns
    66 to 786 *)
Lemma resize_crop_exact_witness :
  exists resized out w',
    @Image_resize nearest_resampler stub_image (853, 1280) = inr resized /\
    Image_crop resized (66, 0, 786, 1280) = inr out /\
    @resize_crop nearest_resampler stub_image (mkWorld ∅ ∅ [] []) = (inr out, w') /\
    Z.of_nat (width out) = 720 /\ Z.of_nat (height out) = 1280.
Proof.
  destruct (@resize_crop_exact nearest_resampler stub_image (mkWorld ∅ ∅ [] []))
    as (nw & nh & resized & x0 & y0 & x1 & y1 & out & w' & Hfit & Hres & Hrw & Hrh & Hbox &
        _ & _ & _ & _ & _ & _ & _ & _ & Hcrop & Heq & Hw & Hh & _).
  - apply nearest_resample_lawful.
  - cbn. lia.
  - cbn. lia.
  - assert (Hsize : fit_size (width stub_image) (height stub_image) = inr (853, 1280))
      by (vm_compute; reflexivity).
    rewrite Hsize in Hfit. injection Hfit as <- <-.
    rewrite Hrw, Hrh in Hbox. vm_compute in Hbox. injection Hbox as <- <- <- <-.
    exists resized, out, w'. auto.
Defined.

(** the 1000 x 1000 source of the end-to-end scenario is resized to
    1280 x 1280 and cropped to the columns 280 to 1000; for a 300 x 565
    source the quotient [720 / (300 / 565)] is rounded below 1356 and
    the height is 1355 *)
Example fit_size_square :
  fit_size 1000 1000 = inr (1280, 1280) /\ crop_box 1280 1280 = (280, 0, 1000, 1280) /\
  fit_size 300 565 = inr (720, 1355).
Proof. split; [|split]; vm_compute; reflexivity. Qed.

(** ** Fingerprint *)

Lemma buffer_hash_lawful : @hash_lawful buffer_hash.
Proof.
  split; cbn.
  - intros h. apply app_nil_r.
  - intros h a b. symmetry. apply app_assoc.
Qed.

Section Fingerprint.
Context `{HashAlgo}.

Lemma read_loop_feeds_all (n : nat) (rest : list byte) (h : hash_state) :
  hash_lawful -> (0 < n)%nat -> read_loop n rest h = sha256_update h rest.
Proof.
  intros [Hnil Happ] Hn.
  remember (length rest) as len eqn:Hlen.
  revert rest h Hlen. induction len as [len IH] using lt_wf_ind. intros rest h Hlen.
  rewrite read_loop_equation_1. cbn.
  destruct (take n rest) as [|b bs] eqn:Htake; cbn.
  - destruct rest as [|b0 rest]; [symmetry; apply Hnil|].
    destruct n; [lia | discriminate].
  - rewrite (IH (length (drop n rest))); [| |reflexivity].
    + rewrite Happ, <- Htake, take_drop. reflexivity.
    + rewrite length_drop. subst len.
      destruct rest; [rewrite take_nil in Htake; discriminate|]. cbn. lia.
Qed.

(** C7: [hash_audio_file] returns the digest of the whole content of the
    file, as [hashlib.sha256(content).hexdigest()] computes it at once,
    whatever the content and its length; hence two files with the same
    content get the same fingerprint. *)
Theorem hash_audio_file_digest (path1 path2 : string) (w1 w2 : World) (content : list byte) :
  hash_lawful ->
  files w1 !! path1 = Some content ->
  files w2 !! path2 = Some content ->
  exists w1' w2',
    hash_audio_file path1 w1 = (inr (sha256_of content), w1') /\
    hash_audio_file path2 w2 = (inr (sha256_of content), w2').
Proof.
  intros Hlaw H1 H2.
  assert (Hone : forall path w, files w !! path = Some content ->
                   exists w', hash_audio_file path w = (inr (sha256_of content), w')).
  { intros path w Hfile.
    unfold hash_audio_file, print_normal, bind, print, read_file, ret. cbn.
    rewrite Hfile. rewrite read_loop_feeds_all; [|exact Hlaw|unfold CHUNK_SIZE; lia].
    eexists. reflexivity. }
  destruct (Hone path1 w1 H1) as [w1' Hw1]. destruct (Hone path2 w2 H2) as [w2' Hw2].
  exists w1', w2'. split; assumption.
Qed.

End Fingerprint.

Lemma hash_audio_file_digest_witness :
  exists w1' w2',
    @hash_audio_file buffer_hash "a.wav"
       (mkWorld {["a.wav"%string := some_bytes]} ∅ [] []) = (inr (@sha256_of buffer_hash some_bytes), w1') /\
    @hash_audio_file buffer_hash "b.wav"
       (mkWorld {["b.wav"%string := some_bytes]} ∅ [] [5]) = (inr (@sha256_of buffer_hash some_bytes), w2').
Proof.
  apply (@hash_audio_file_digest buffer_hash).
  - apply buffer_hash_lawful.
  - apply lookup_singleton_eq.
  - apply lookup_singleton_eq.
Defined.

(** reading in blocks of 3 feeds the 7 bytes in the pieces 3 + 3 + 1 *)
Example read_loop_chunks :
  @read_loop buffer_hash 3 some_bytes [] = some_bytes.
Proof. reflexivity. Qed.

(** ** Spectrogram width and time span: arithmetic *)

(** below 40 seconds the width is the constant 10 itself *)
Lemma spectrogram_width_low (duration : Q) :
  (duration < 40)%Q -> spectrogram_width duration = 10%Q.
Proof.
  intros Hd. unfold spectrogram_width, Qmax, Qmin, GenericMinMax.gmax, GenericMinMax.gmin.
  assert (Hc : (duration / 4 ?= 10)%Q = Lt).
  { apply Qlt_alt. apply Qlt_shift_div_r; [reflexivity|]. exact Hd. }
  rewrite Hc. reflexivity.
Qed.

Lemma hundredths_near (x : Q) :
  (inject_Z (hundredths x) * (1 # 100) - x <= 1 # 200)%Q /\
  (x - inject_Z (hundredths x) * (1 # 100) <= 1 # 200)%Q.
Proof.
  unfold hundredths.
  destruct (round_half_even_near (x * 100)) as [H1 H2].
  set (n := inject_Z (round_half_even (x * 100))) in *. clearbody n.
  split; lra.
Qed.

Lemma round53_error_nonneg (x : Q) :
  (0 <= x)%Q ->
  (round53 x - x <= x * (1 # 9007199254740992))%Q /\
  (x - round53 x <= x * (1 # 9007199254740992))%Q.
Proof.
  intros Hx. destruct (Qlt_le_dec 0 x) as [Hpos | Hzero].
  - apply round53_error. exact Hpos.
  - assert (H0 : (x == 0)%Q) by lra.
    rewrite (round53_0 x H0). split; lra.
Qed.

Lemma round53_nonneg (x : Q) : (0 <= x)%Q -> (0 <= round53 x)%Q.
Proof.
  intros Hx. change 0%Q with (round53 0) at 1. apply round53_mono; [lra | exact Hx].
Qed.

(** [(x / W) * D] computed in doubles is within the relative error
    2^-51 of the exact value *)
Lemma float_time_error (x W : Z) (D : Q) :
  0 <= x -> 0 < W -> (0 <= D)%Q ->
  let exact := (inject_Z x / inject_Z W * D)%Q in
  let computed := float_mul (round53 (inject_Z x / inject_Z W)) D in
  (computed - exact <= exact * (1 # 2251799813685248))%Q /\
  (exact - computed <= exact * (1 # 2251799813685248))%Q.
Proof.
  intros Hx HW HD. cbv zeta. unfold float_mul.
  assert (Hq0 : (0 <= inject_Z x / inject_Z W)%Q).
  { apply Qle_shift_div_l; [apply inject_Z_pos; exact HW|].
    rewrite Qmult_0_l. change 0%Q with (inject_Z 0). rewrite <- Zle_Qle. exact Hx. }
  set (x0 := (inject_Z x / inject_Z W)%Q) in *. clearbody x0.
  destruct (round53_error_nonneg x0 Hq0) as [Ha1 Ha2].
  pose proof (round53_nonneg x0 Hq0) as Hq.
  set (q := round53 x0) in *. clearbody q.
  assert (Hp0 : (0 <= q * D)%Q) by (apply Qmult_le_0_compat; assumption).
  destruct (round53_error_nonneg (q * D) Hp0) as [Hb1 Hb2].
  set (t := round53 (q * D)) in *. clearbody t.
  assert (Hc1 : ((q - x0) * D <= x0 * (1 # 9007199254740992) * D)%Q)
    by (apply Qmult_le_compat_r; assumption).
  assert (Hc2 : ((x0 - q) * D <= x0 * (1 # 9007199254740992) * D)%Q)
    by (apply Qmult_le_compat_r; assumption).
  assert (He0 : (0 <= x0 * D)%Q) by (apply Qmult_le_0_compat; assumption).
  assert (Hr1 : ((q - x0) * D == q * D - x0 * D)%Q) by ring.
  assert (Hr2 : ((x0 - q) * D == x0 * D - q * D)%Q) by ring.
  assert (Hr3 : (x0 * (1 # 9007199254740992) * D == x0 * D * (1 # 9007199254740992))%Q) by ring.
  rewrite Hr1, Hr3 in Hc1. rewrite Hr2, Hr3 in Hc2.
  set (E := (x0 * D)%Q) in *. set (P := (q * D)%Q) in *. clearbody E P.
  clear - Hb1 Hb2 Hc1 Hc2 He0 Hp0. split; lra.
Qed.

(** ** Missing input file *)

Section MissingInput.
Context `{Externals} `{Resampler} `{Blender} `{HashAlgo}.

Lemma create_spotify_canvas_missing (path : string) (od : option string) (w : World) :
  files w !! path = None ->
  exists w' msgs m,
    create_spotify_canvas path od w = (inr None, w') /\
    stdout w' = stdout w ++ msgs ++ [m] /\
    (m = "Error: File does not exist"%string \/
     exists e, m = ("Error processing image: " +:+ exn_str e)%string) /\
    files w' = files w.
Proof.
  intros Hfile.
  unfold create_spotify_canvas, try_except, bind at 1, os_path_exists.
  rewrite Hfile. rewrite (bool_decide_eq_false_2 (is_Some None)) by (intros [? ?]; discriminate).
  cbn [orb]. destruct (bool_decide (path ∈ dirs w)) eqn:Hdir; cbn [negb].
  - cbv zeta.
    match goal with |- context [os_makedirs ?d] => set (output_dir := d) end.
    unfold bind at 1, os_makedirs.
    destruct (files w !! output_dir) eqn:Hod.
    + eexists _, [], _. split; [reflexivity|]. cbn. split; [reflexivity|].
      split; [right; exists OSError; reflexivity | reflexivity].
    + unfold bind at 1, print at 1. unfold bind at 1, Image_open, bind at 1, read_file.
      cbn [files dirs]. rewrite Hfile.
      eexists _, ["Opening and processing image..."%string], _.
      split; [reflexivity|]. cbn. split; [rewrite <- app_assoc; reflexivity|].
      split; [right; eexists; reflexivity | reflexivity].
  - eexists _, [], _. split; [reflexivity|]. cbn. split; [reflexivity|].
    split; [left; reflexivity | reflexivity].
Qed.

(** C9, as amended: for a path that names no file, the image pipeline
    [create_spotify_canvas] catches the case, ends its output with an
    error message and returns [None], writing no file; when the path
    names nothing at all the message is "Error: File does not exist"
    and nothing else happens.  The audio pipeline
    [create_album_artwork_v7] has no such check and returns no result:
    it prints the line of the output directory; then [os.makedirs]
    raises when that path names a file, and otherwise the directory is
    created, two more lines are printed and the exception of [open] in
    [hash_audio_file] leaves the function ([FileNotFoundError], or the
    error of opening a directory).  No file is written. *)
Theorem missing_input_file (path : string) (od : option string) (sat : Q) (w : World) :
  files w !! path = None ->
  (exists w' msgs m,
      create_spotify_canvas path od w = (inr None, w') /\
      stdout w' = stdout w ++ msgs ++ [m] /\
      (m = "Error: File does not exist"%string \/
       exists e, m = ("Error processing image: " +:+ exn_str e)%string) /\
      files w' = files w) /\
  (path ∉ dirs w ->
   create_spotify_canvas path od w
   = (inr None,
      mkWorld (files w) (dirs w) (stdout w ++ ["Error: File does not exist"%string]) (rng w))) /\
  (let output_dir :=
     os_path_join (os_path_dirname path)
       ("id_" +:+ fst (os_path_splitext (os_path_basename path)) +:+ "_"
        +:+ str_tail (str_lower (snd (os_path_splitext path))) +:+ "_v7_sat"
        +:+ str_float sat) in
   let line := ("📁 Creating output directory: " +:+ output_dir)%string in
   create_album_artwork_v7 path sat w
   = match files w !! output_dir with
     | Some _ =>
         (inl OSError, mkWorld (files w) (dirs w) (stdout w ++ [line]) (rng w))
     | None =>
         (inl (if bool_decide (path ∈ ({[output_dir]} ∪ dirs w : gset string))
               then OSError else FileNotFoundError),
          mkWorld (files w) ({[output_dir]} ∪ dirs w)
            (stdout w ++ [line; "🚀 Starting the v7 Album Artwork Generator";
                          "🔍 Analyzing your audio's unique fingerprint..."]%string)
            (rng w))
     end).
Proof.
  intros Hfile. split; [apply create_spotify_canvas_missing; exact Hfile|].
  split.
  - intros Hdir.
    unfold create_spotify_canvas, try_except, bind at 1, os_path_exists.
    rewrite Hfile. rewrite (bool_decide_eq_false_2 (is_Some None)) by (intros [? ?]; discriminate).
    rewrite (bool_decide_eq_false_2 _ Hdir). reflexivity.
  - cbv zeta. unfold create_album_artwork_v7. cbv zeta.
    match goal with |- context [os_makedirs ?d] => set (output_dir := d) end.
    unfold bind at 1, print_normal, print at 1. unfold bind at 1, os_makedirs. cbn [files].
    destruct (files w !! output_dir) eqn:Hod; [reflexivity|].
    unfold bind at 1, print_typewriter, print at 1.
    unfold bind at 1, hash_audio_file, bind at 1, print_normal, print at 1.
    unfold bind at 1, read_file. cbn [files dirs stdout rng]. rewrite Hfile.
    rewrite <- !app_assoc. reflexivity.
Qed.

End MissingInput.

Lemma missing_input_file_witness :
  @create_spotify_canvas stub_externals nearest_resampler linear_blender "cover.png" None
    empty_world
  = (inr None, mkWorld ∅ ∅ ["Error: File does not exist"%string] []) /\
  @create_album_artwork_v7 stub_externals nearest_resampler buffer_hash "missing.wav" 1
    empty_world
  = (inl FileNotFoundError,
     mkWorld ∅ {["./id_missing.wav__v7_sat1.0"%string]}
       ["📁 Creating output directory: ./id_missing.wav__v7_sat1.0";
        "🚀 Starting the v7 Album Artwork Generator";
        "🔍 Analyzing your audio's unique fingerprint..."]%string []).
Proof.
  split.
  - destruct (@missing_input_file stub_externals nearest_resampler linear_blender buffer_hash
                "cover.png" None 1 empty_world) as (_ & Hcanvas & _).
    + apply lookup_empty.
    + apply Hcanvas. apply not_elem_of_empty.
  - destruct (@missing_input_file stub_externals nearest_resampler linear_blender buffer_hash
                "missing.wav" None 1 empty_world) as (_ & _ & Haudio).
    + apply lookup_empty.
    + rewrite Haudio. vm_compute. reflexivity.
Defined.

(** C9 as stated fails for the audio pipeline: on a path that names
    nothing, [create_album_artwork_v7] creates its output directory and
    then raises [FileNotFoundError] out of [hash_audio_file]; it
    returns no null result and prints nothing about the missing file *)
Lemma audio_pipeline_raises_on_missing_file :
  exists w',
    @create_album_artwork_v7 stub_externals nearest_resampler buffer_hash
      "missing.wav" 1 empty_world = (inl FileNotFoundError, w') /\
    stdout w' = ["📁 Creating output directory: ./id_missing.wav__v7_sat1.0";
                 "🚀 Starting the v7 Album Artwork Generator";
                 "🔍 Analyzing your audio's unique fingerprint..."]%string /\
    dirs w' = {["./id_missing.wav__v7_sat1.0"%string]} /\
    files w' = ∅.
Proof.
  eexists. split; [vm_compute; reflexivity|].
  split; [reflexivity|]. split; vm_compute; reflexivity.
Qed.

(** ** Compositing *)

Lemma py_int_scale (n : Z) : 0 <= n -> py_int (inject_Z n * (4 # 10)) = n * 4 / 10.
Proof.
  intros Hn. unfold py_int, Qle_bool, Qfloor, Qmult, inject_Z. cbn.
  assert (Hle : (0 * Z.pos (1 * 10) <=? n * 4 * 1) = true) by (apply Z.leb_le; lia).
  rewrite Hle. reflexivity.
Qed.

Lemma Forall_zip_with_both {A B C} (P : A -> Prop) (R : B -> Prop) (Q : C -> Prop)
    (f : A -> B -> C) l k :
  (forall x y, P x -> R y -> Q (f x y)) -> Forall P l -> Forall R k ->
  Forall Q (zip_with f l k).
Proof.
  intros Hf Hl. revert k. induction Hl as [|x l Hx Hl IH]; intros k Hk; [constructor|].
  destruct Hk as [|y k Hy Hk]; cbn; constructor.
  - apply Hf; assumption.
  - apply IH, Hk.
Qed.

Lemma set_alpha_sample_alpha (px : list Z) a :
  length px = 4%nat -> set_alpha_sample px a !! 3%nat = Some a.
Proof.
  destruct px as [|r [|g [|b [|a0 [|? ?]]]]]; cbn; intros Hlen; try discriminate.
  reflexivity.
Qed.

Lemma convert_pixel_rgba_length m (px : list Z) :
  length px = bands m -> length (convert_pixel m RGBA px) = 4%nat.
Proof.
  destruct m; cbn; destruct px as [|r [|g [|b [|a0 [|? ?]]]]]; cbn; intros Hlen;
    try discriminate; reflexivity.
Qed.

(** the image on which [putalpha] works has four samples per pixel *)
Lemma as_rgba_pixels im :
  wf_image im ->
  let im' := if bool_decide (mode im = RGBA) then im else Image_convert im RGBA in
  width im' = width im /\ height im' = height im /\
  Forall (Forall (fun px : list Z => length px = 4%nat)) (data im').
Proof.
  intros [_ Hrows]. cbv zeta. destruct (bool_decide (mode im = RGBA)) eqn:Hm.
  - apply bool_decide_eq_true in Hm. split; [reflexivity|]. split; [reflexivity|].
    rewrite Hm in Hrows. eapply Forall_impl; [exact Hrows|].
    intros row [_ Hrow]. eapply Forall_impl; [exact Hrow|]. intros px [Hlen _]. exact Hlen.
  - split; [reflexivity|]. split; [reflexivity|]. cbn.
    apply Forall_map. eapply Forall_impl; [exact Hrows|].
    intros row [_ Hrow]. apply Forall_map. eapply Forall_impl; [exact Hrow|].
    intros px [Hlen _]. apply convert_pixel_rgba_length. exact Hlen.
Qed.

Lemma Image_putalpha_constant im a :
  wf_image im ->
  exists out,
    Image_putalpha im (inr a) = inr out /\
    width out = width im /\ height out = height im /\ uniform_alpha a out.
Proof.
  intros Hwf. destruct (as_rgba_pixels im Hwf) as (Hw & Hh & Hpx).
  unfold Image_putalpha. eexists. split; [reflexivity|]. cbn.
  split; [exact Hw|]. split; [exact Hh|]. split; [reflexivity|].
  cbn. apply Forall_map. eapply Forall_impl; [exact Hpx|].
  intros row Hrow. apply Forall_map. eapply Forall_impl; [exact Hrow|].
  intros px Hlen. apply set_alpha_sample_alpha. exact Hlen.
Qed.

Lemma set_image_alpha_returns im a :
  wf_image im ->
  exists out,
    (forall w, set_image_alpha im a w = (inr out, w)) /\
    width out = width im /\ height out = height im /\ uniform_alpha (clip8 a) out.
Proof.
  intros Hwf. destruct (as_rgba_pixels im Hwf) as (Hw & Hh & Hpx).
  unfold set_image_alpha, lift, Image_putalpha. cbv zeta.
  set (im' := if bool_decide (mode im = RGBA) then im else Image_convert im RGBA) in *.
  assert (Hm' : mode im' = RGBA).
  { unfold im'. destruct (bool_decide (mode im = RGBA)) eqn:Hm; [|reflexivity].
    apply bool_decide_eq_true in Hm. exact Hm. }
  rewrite (bool_decide_eq_true_2 _ Hm'). cbn [size fst snd Image_new mode width height data].
  rewrite (bool_decide_eq_true_2 (L = L) eq_refl), !Nat.eqb_refl. cbn [andb].
  eexists. split; [intros w; reflexivity|]. cbn.
  split; [exact Hw|]. split; [exact Hh|]. split; [reflexivity|]. cbn.
  eapply (Forall_zip_with_both _ (Forall (fun apx : list Z => apx = [clip8 a])));
    [|exact Hpx|apply Forall_replicate, Forall_replicate; reflexivity].
  intros row arow Hrow Harow.
  eapply Forall_zip_with_both; [|exact Hrow|exact Harow].
  intros px apx Hlen ->. apply set_alpha_sample_alpha. exact Hlen.
Qed.

Section Compositing.
Context `{Externals} `{Resampler}.

Lemma Image_alpha_composite_rgba (im im2 : Image) (x0 y0 : Z) :
  mode im = RGBA -> mode im2 = RGBA -> 0 <= x0 -> 0 <= y0 ->
  exists out,
    Image_alpha_composite im im2 (x0, y0) = inr out /\
    mode out = RGBA /\ width out = width im /\ height out = height im.
Proof.
  intros Hm Hm2 Hx Hy. unfold Image_alpha_composite.
  replace (x0 <? 0) with false by (symmetry; apply Z.ltb_ge; lia).
  replace (y0 <? 0) with false by (symmetry; apply Z.ltb_ge; lia).
  rewrite (bool_decide_eq_true_2 _ Hm), (bool_decide_eq_true_2 _ Hm2). cbn.
  eexists. split; [reflexivity|]. cbn. auto.
Qed.

(** C5, as amended: the spectrogram is resized to the size the
    identicon has before it is scaled down, and its alpha is set to 127
    everywhere; the identicon is scaled to [int(0.4 w) x int(0.4 h)] and
    its alpha is set to 255 everywhere; the spectrogram layer is
    composited at (0, 0) over an opaque black image of its size, and the
    identicon at the centre position of the result, whose margins
    differ by at most one pixel; the result is converted to RGB. *)
Theorem composite_layers (identicon spectrogram : Image) (w : World) :
  resample_lawful ->
  wf_image identicon -> wf_image spectrogram ->
  (3 <= width identicon)%nat -> (3 <= height identicon)%nat ->
  exists resized spec_layer small ident_layer over1 over2 w',
    composite identicon spectrogram w = (inr (Image_convert over2 RGB, ident_layer), w') /\
    Image_resize spectrogram (Z.of_nat (width identicon), Z.of_nat (height identicon))
      = inr resized /\
    set_image_alpha resized 127 w' = (inr spec_layer, w') /\
    size spec_layer = size identicon /\
    uniform_alpha 127 spec_layer /\
    Image_resize identicon (Z.of_nat (width identicon) * 4 / 10,
                            Z.of_nat (height identicon) * 4 / 10) = inr small /\
    Image_putalpha small (inr 255) = inr ident_layer /\
    Z.of_nat (width ident_layer) = Z.of_nat (width identicon) * 4 / 10 /\
    Z.of_nat (height ident_layer) = Z.of_nat (height identicon) * 4 / 10 /\
    uniform_alpha 255 ident_layer /\
    Image_alpha_composite
      (Image_new RGBA (width identicon) (height identicon) [0; 0; 0; 255]) spec_layer (0, 0)
      = inr over1 /\
    Image_alpha_composite over1 ident_layer (centre_position spec_layer ident_layer)
      = inr over2 /\
    size over2 = size identicon /\
    (let '(px, py) := centre_position spec_layer ident_layer in
     0 <= px /\ 0 <= py /\
     0 <= Z.of_nat (width spec_layer) - Z.of_nat (width ident_layer) - 2 * px <= 1 /\
     0 <= Z.of_nat (height spec_layer) - Z.of_nat (height ident_layer) - 2 * py <= 1).
Proof.
  intros Hlaw Hwfi Hwfs Hw Hh.
  set (W := Z.of_nat (width identicon)). set (Hgt := Z.of_nat (height identicon)).
  (* the spectrogram layer *)
  destruct (Image_resize_returns spectrogram W Hgt Hlaw
              ltac:(unfold W; lia) ltac:(unfold Hgt; lia))
    as (resized & Hres & _ & Hrw & Hrh & Hrwf).
  apply Nat2Z.inj in Hrw, Hrh. specialize (Hrwf Hwfs).
  assert (Hspec : exists spec_layer,
             (forall w0, set_image_alpha resized 127 w0 = (inr spec_layer, w0)) /\
             width spec_layer = width identicon /\ height spec_layer = height identicon /\
             uniform_alpha 127 spec_layer).
  { destruct (set_image_alpha_returns resized 127 Hrwf) as (s & Hs & Hsw & Hsh & Hsa).
    exists s. split; [exact Hs|]. rewrite Hsw, Hsh. auto. }
  destruct Hspec as (spec_layer & Hset & Hsw & Hsh & Hsa).
  (* the identicon layer *)
  assert (HW4 : 1 <= W * 4 / 10 <= W).
  { unfold W. split.
    - apply Z.div_le_lower_bound; lia.
    - apply Z.div_le_upper_bound; lia. }
  assert (HH4 : 1 <= Hgt * 4 / 10 <= Hgt).
  { unfold Hgt. split.
    - apply Z.div_le_lower_bound; lia.
    - apply Z.div_le_upper_bound; lia. }
  destruct (Image_resize_returns identicon (W * 4 / 10) (Hgt * 4 / 10) Hlaw
              ltac:(lia) ltac:(lia))
    as (small & Hsmall & _ & Hmw & Hmh & Hmwf).
  apply (f_equal Z.to_nat) in Hmw, Hmh. rewrite Nat2Z.id in Hmw, Hmh.
  specialize (Hmwf Hwfi).
  destruct (Image_putalpha_constant small 255 Hmwf) as (ident_layer & Hput & Hiw & Hih & Hia).
  rewrite Hmw in Hiw. rewrite Hmh in Hih.
  (* the two compositions *)
  destruct (Image_alpha_composite_rgba
              (Image_new RGBA (width identicon) (height identicon) [0; 0; 0; 255])
              spec_layer 0 0 eq_refl (proj1 Hsa) ltac:(lia) ltac:(lia))
    as (over1 & Hover1 & Hm1 & Hw1 & Hh1).
  cbn in Hw1, Hh1.
  assert (Hpos : centre_position spec_layer ident_layer
                 = ((W - W * 4 / 10) / 2, (Hgt - Hgt * 4 / 10) / 2)).
  { unfold centre_position, size. cbn [fst snd].
    rewrite Hsw, Hsh, Hiw, Hih, !Z2Nat.id by lia. reflexivity. }
  assert (Hpx : 0 <= (W - W * 4 / 10) / 2) by (apply Z.div_pos; lia).
  assert (Hpy : 0 <= (Hgt - Hgt * 4 / 10) / 2) by (apply Z.div_pos; lia).
  destruct (Image_alpha_composite_rgba over1 ident_layer _ _ Hm1 (proj1 Hia) Hpx Hpy)
    as (over2 & Hover2 & Hm2 & Hw2 & Hh2).
  assert (Hret : returns (composite identicon spectrogram) w
                   (fun r _ => r = (Image_convert over2 RGB, ident_layer))).
  { unfold composite, print_typewriter.
    apply returns_bind, returns_print. intros w1.
    apply returns_bind. eapply returns_lift; [exact Hres|].
    apply returns_bind, returns_print. intros w2.
    apply returns_bind. exists spec_layer, w2. split; [apply Hset|].
    apply returns_bind, returns_print. intros w3.
    apply returns_bind. exists small, w3. split.
    { unfold resize_identicon, lift, size. cbn [fst snd].
      rewrite !py_int_scale by lia. fold W Hgt. rewrite Hsmall. reflexivity. }
    apply returns_bind. eapply returns_lift; [exact Hput|].
    apply returns_bind, returns_print. intros w4.
    apply returns_bind, returns_print. intros w5.
    apply returns_bind. eapply returns_lift.
    { unfold size. cbn [fst snd]. rewrite Hsw, Hsh. exact Hover1. }
    apply returns_bind, returns_print. intros w6.
    apply returns_bind. eapply returns_lift.
    { rewrite Hpos. exact Hover2. }
    apply returns_ret. reflexivity. }
  destruct Hret as (r & w' & Hcomp & ->).
  exists resized, spec_layer, small, ident_layer, over1, over2, w'.
  split; [exact Hcomp|]. split; [exact Hres|]. split; [apply Hset|].
  split; [unfold size; rewrite Hsw, Hsh; reflexivity|]. split; [exact Hsa|].
  split; [exact Hsmall|]. split; [exact Hput|].
  split; [rewrite Hiw; apply Z2Nat.id; lia|]. split; [rewrite Hih; apply Z2Nat.id; lia|].
  split; [exact Hia|]. split; [exact Hover1|].
  split; [rewrite Hpos; exact Hover2|].
  split; [unfold size; rewrite Hw2, Hh2, Hw1, Hh1; reflexivity|].
  rewrite Hpos, Hsw, Hsh, Hiw, Hih, !Z2Nat.id by lia. fold W Hgt.
  split; [exact Hpx|]. split; [exact Hpy|].
  pose proof (Z.mul_div_le (W - W * 4 / 10) 2 ltac:(lia)).
  pose proof (Z.mul_succ_div_gt (W - W * 4 / 10) 2 ltac:(lia)).
  pose proof (Z.mul_div_le (Hgt - Hgt * 4 / 10) 2 ltac:(lia)).
  pose proof (Z.mul_succ_div_gt (Hgt - Hgt * 4 / 10) 2 ltac:(lia)).
  lia.
Qed.

End Compositing.

Lemma small_identicon_wf : wf_image small_identicon.
Proof.
  split; [reflexivity|].
  repeat (constructor; [split; [reflexivity|]; repeat (constructor; [split; [reflexivity|]; repeat constructor; unfold sample_ok; lia|]); constructor|]).
  constructor.
Qed.

Lemma stub_image_wf : wf_image stub_image.
Proof.
  split; [reflexivity|].
  repeat (constructor; [split; [reflexivity|]; repeat (constructor; [split; [reflexivity|]; repeat constructor; unfold sample_ok; lia|]); constructor|]).
  constructor.
Qed.

Lemma composite_layers_witness :
  exists final_image_rgb ident_layer w',
    @composite stub_externals nearest_resampler small_identicon stub_image empty_world
    = (inr (final_image_rgb, ident_layer), w') /\
    size final_image_rgb = (5, 5)%nat /\
    uniform_alpha 255 ident_layer.
Proof.
  destruct (@composite_layers stub_externals nearest_resampler
              small_identicon stub_image empty_world)
    as (resized & spec_layer & small & ident_layer & over1 & over2 & w' & Hcomp & _ & _ & _ & _
        & _ & _ & _ & _ & Hia & _ & _ & Hsize & _).
  - apply nearest_resample_lawful.
  - apply small_identicon_wf.
  - apply stub_image_wf.
  - cbn. lia.
  - cbn. lia.
  - exists (Image_convert over2 RGB), ident_layer, w'.
    split; [exact Hcomp|]. split; [exact Hsize | exact Hia].
Defined.

(** C5 as stated fails: for a 5 x 5 identicon the scaled-down identicon
    is 2 x 2, while the composite, which has the size of the resized
    spectrogram layer, is 5 x 5, with the identicon at (1, 1) *)
Lemma spectrogram_layer_not_post_scale_size :
  exists final_image_rgb ident_layer w',
    @composite stub_externals nearest_resampler small_identicon stub_image empty_world
    = (inr (final_image_rgb, ident_layer), w') /\
    size ident_layer = (2, 2)%nat /\
    size final_image_rgb = (5, 5)%nat /\
    size final_image_rgb <> size ident_layer /\
    data final_image_rgb
    = [[[1; 2; 3]; [1; 2; 3]; [1; 2; 3]; [4; 5; 6]; [4; 5; 6]];
       [[1; 2; 3]; [9; 9; 9]; [9; 9; 9]; [4; 5; 6]; [4; 5; 6]];
       [[7; 8; 9]; [9; 9; 9]; [9; 9; 9]; [10; 11; 12]; [10; 11; 12]];
       [[7; 8; 9]; [7; 8; 9]; [7; 8; 9]; [10; 11; 12]; [10; 11; 12]];
       [[13; 14; 15]; [13; 14; 15]; [13; 14; 15]; [16; 17; 18]; [16; 17; 18]]].
Proof.
  eexists _, _, _. split; [vm_compute; reflexivity|].
  split; [reflexivity|]. split; [reflexivity|]. split; [discriminate | reflexivity].
Qed.

(** * Further properties of the code *)

(** ** More reasoning about the monad *)

Lemma bind_returns_inv {A B} (m : M A) (k : A -> M B) w b w' :
  bind m k w = (inr b, w') ->
  exists a w1, m w = (inr a, w1) /\ k a w1 = (inr b, w').
Proof.
  unfold bind. destruct (m w) as [[e|a] w1]; [discriminate|].
  intros Hk. exists a, w1. auto.
Qed.

Lemma ensures_bind_from {A B} (m : M A) (k : A -> M B) w (Q : B -> Prop) :
  (forall a w', m w = (inr a, w') -> ensures (k a) w' Q) -> ensures (bind m k) w Q.
Proof.
  intros Hk. unfold ensures, bind. destruct (m w) as [[e|a] w'] eqn:Hm; [exact I|].
  apply (Hk a w' eq_refl).
Qed.

Lemma raises_bind_l {A B} (m : M A) (k : A -> M B) w e :
  raises m w e -> raises (bind m k) w e.
Proof. intros [w' Hm]. exists w'. unfold bind. rewrite Hm. reflexivity. Qed.

Lemma raises_bind_r {A B} (m : M A) (k : A -> M B) w a w1 e :
  m w = (inr a, w1) -> raises (k a) w1 e -> raises (bind m k) w e.
Proof. intros Hm [w' Hk]. exists w'. unfold bind. rewrite Hm. exact Hk. Qed.

Lemma random_randint_range a b w v w' :
  random_randint a b w = (inr v, w') -> a <= v <= b.
Proof.
  unfold random_randint. destruct (b <? a) eqn:Hab; [discriminate|].
  apply Z.ltb_ge in Hab. intros Hr.
  apply bind_returns_inv in Hr as (r & w1 & _ & Hret). injection Hret as <- _.
  pose proof (Z.mod_pos_bound r (b - a + 1) ltac:(lia)). lia.
Qed.

Lemma fromarray_data image : fromarray image (data image) = image.
Proof. destruct image. reflexivity. Qed.

(** ** Smearing: frames it cannot change *)

Lemma smear_column_no_run strength height x rows w :
  strength < 10 \/ height < 10 ->
  ensures (smear_column strength height x rows) w (fun rows' => rows' = rows).
Proof.
  intros Hsmall. unfold smear_column, smear_column_with.
  apply ensures_bind_from. intros r w1 _.
  destruct (Qlt_bool r (1 # 10)); [|reflexivity].
  apply ensures_bind_from. intros s w2 Hs. apply random_randint_range in Hs.
  apply ensures_bind_from. intros y0 w3 Hy. apply random_randint_range in Hy.
  lia.
Qed.

Lemma apply_smearing_fixed image strength w :
  (forall x rows w0,
      rows = data image ->
      ensures (smear_column strength (Z.of_nat (height image)) x rows) w0
              (fun rows' => rows' = data image)) ->
  exists w', apply_smearing image strength w = (inr image, w').
Proof.
  intros Hcol. unfold apply_smearing, try_except.
  cbv zeta. unfold bind at 1. unfold for_range.
  match goal with
  | |- context [foldM ?body ?xs ?s w] =>
      assert (Hloop : ensures (foldM body xs s) w (fun rows => rows = data image))
        by (apply ensures_foldM; [|reflexivity]; intros x s0 w0 Hs; apply Hcol; exact Hs);
      unfold ensures in Hloop;
      destruct (foldM body xs s w) as [[e|rows] w']
  end.
  - eexists. reflexivity.
  - subst rows. unfold ret. rewrite fromarray_data. eexists. reflexivity.
Qed.

(** X1: when the strength is below 10, or the frame has fewer than 10
    rows, no run fits: [apply_smearing] returns the frame it was given,
    whatever the random source yields. *)
Theorem apply_smearing_no_room (image : Image) (strength : Z) (w : World) :
  strength < 10 \/ (height image < 10)%nat ->
  exists w', apply_smearing image strength w = (inr image, w').
Proof.
  intros Hsmall. apply apply_smearing_fixed.
  intros x rows w0 ->.
  apply smear_column_no_run. lia.
Qed.

Lemma apply_smearing_no_room_witness :
  exists w', apply_smearing ramp_image 5 (mkWorld ∅ ∅ [] [0; 7; 7]) = (inr ramp_image, w').
Proof. apply apply_smearing_no_room. left. lia. Defined.

Lemma py_int_inject_Z (a : Z) : py_int (inject_Z a) = a.
Proof.
  unfold py_int. destruct (Qle_bool 0 (inject_Z a)); [apply Qfloor_Z | apply Qceiling_Z].
Qed.

Lemma mix_sample_same alpha a : sample_ok a -> mix_sample alpha a a = a.
Proof.
  intros Ha. unfold mix_sample, to_uint8.
  rewrite (py_int_proper _ (inject_Z a)) by ring.
  rewrite py_int_inject_Z. apply Z.mod_small. exact Ha.
Qed.

Lemma mix_rows_same c alpha (row : Row) :
  Forall (fun px : list Z => length px = c /\ Forall sample_ok px) row ->
  mix_rows alpha row row = row.
Proof.
  unfold mix_rows. induction 1 as [|px row [_ Hpx] _ IH]; [reflexivity|].
  cbn. rewrite IH. f_equal.
  induction Hpx as [|v px Hv _ IHpx]; [reflexivity|].
  cbn. rewrite IHpx, mix_sample_same by exact Hv. reflexivity.
Qed.

(** X2: a well-formed frame whose rows are all the same row is returned
    unchanged by [apply_smearing]: blending a row with an equal row
    gives that row. *)
Theorem apply_smearing_uniform_rows (image : Image) (strength : Z) (w : World) :
  wf_image image -> uniform_rows image ->
  exists w', apply_smearing image strength w = (inr image, w').
Proof.
  intros [_ Hrows] Huni. apply apply_smearing_fixed.
  intros x rows w0 ->.
  apply smear_column_ensures; [|reflexivity].
  intros rows y alpha cur above -> Hy Hcur Habove.
  rewrite (Huni _ _ _ _ Habove Hcur).
  pose proof (Forall_lookup_1 _ _ _ _ Hrows Hcur) as [_ Hc].
  rewrite (mix_rows_same _ _ _ Hc). apply list_insert_id. exact Hcur.
Qed.

Lemma apply_smearing_uniform_rows_witness :
  exists w',
    apply_smearing (mkImage L 2 12 (replicate 12 [[7]; [200]])) 40 (mkWorld ∅ ∅ [] [0; 0; 1])
    = (inr (mkImage L 2 12 (replicate 12 [[7]; [200]])), w').
Proof.
  apply apply_smearing_uniform_rows.
  - split; [reflexivity|]. cbn.
    repeat (constructor; [split; [reflexivity|];
                          repeat (constructor; [split; [reflexivity|];
                                                repeat constructor; unfold sample_ok; lia|]);
                          constructor|]).
    constructor.
  - intros y1 y2 r1 r2 H1 H2. cbn [data] in H1, H2.
    apply lookup_replicate in H1 as [-> _]. apply lookup_replicate in H2 as [-> _].
    reflexivity.
Defined.

(** ** Smearing: what it does to the world *)

Lemma same_io_refl w : same_io w w.
Proof. repeat split. Qed.

Lemma same_io_trans w1 w2 w3 : same_io w1 w2 -> same_io w2 w3 -> same_io w1 w3.
Proof. intros (? & ? & ?) (? & ? & ?). repeat split; congruence. Qed.

Lemma same_io_bind {A B} (m : M A) (k : A -> M B) :
  (forall w, same_io w (snd (m w))) ->
  (forall a w, same_io w (snd (k a w))) ->
  forall w, same_io w (snd (bind m k w)).
Proof.
  intros Hm Hk w. unfold bind. specialize (Hm w).
  destruct (m w) as [[e|a] w1]; [exact Hm|].
  eapply same_io_trans; [exact Hm | apply Hk].
Qed.

Lemma same_io_foldM {S X} (body : X -> S -> M S) xs :
  (forall x s w, same_io w (snd (body x s w))) ->
  forall s w, same_io w (snd (foldM body xs s w)).
Proof.
  intros Hbody. induction xs as [|x xs IH]; intros s w; [apply same_io_refl|].
  cbn [foldM]. apply same_io_bind; [apply Hbody | apply IH].
Qed.

Lemma same_io_draw w : same_io w (snd (draw w)).
Proof. unfold draw. destruct (rng w); repeat split. Qed.

Lemma same_io_random_random w : same_io w (snd (random_random w)).
Proof.
  unfold random_random. apply same_io_bind; [apply same_io_draw|].
  intros; apply same_io_refl.
Qed.

Lemma same_io_random_randint a b w : same_io w (snd (random_randint a b w)).
Proof.
  unfold random_randint. destruct (b <? a); [apply same_io_refl|].
  apply same_io_bind; [apply same_io_draw|]. intros; apply same_io_refl.
Qed.

Lemma same_io_smear_row y_start streak_height y rows w :
  same_io w (snd (smear_row y_start streak_height y rows w)).
Proof.
  unfold smear_row, smear_row_with. destruct (0 <? y); [|apply same_io_refl].
  unfold bind, lift. destruct (get_row rows y); [apply same_io_refl|].
  destruct (get_row rows (y - 1)); apply same_io_refl.
Qed.

Lemma same_io_smear_column strength height x rows w :
  same_io w (snd (smear_column strength height x rows w)).
Proof.
  unfold smear_column, smear_column_with. revert w. apply same_io_bind; [apply same_io_random_random|].
  intros r w. destruct (Qlt_bool r (1 # 10)); [|apply same_io_refl].
  revert w. apply same_io_bind; [apply same_io_random_randint|].
  intros s. apply same_io_bind; [apply same_io_random_randint|].
  intros y0 w. apply same_io_foldM. intros; apply same_io_smear_row.
Qed.

(** X3: [apply_smearing] writes no file and creates no directory; it
    prints nothing, except one line "Error applying smearing: ..." when
    an exception was caught, and then the frame returned is the one it
    was given. *)
Theorem apply_smearing_io (image : Image) (strength : Z) (w : World) :
  exists out w',
    apply_smearing image strength w = (inr out, w') /\
    files w' = files w /\ dirs w' = dirs w /\
    (stdout w' = stdout w \/
     exists e, stdout w' = stdout w ++ [("Error applying smearing: " +:+ exn_str e)%string] /\
               out = image).
Proof.
  unfold apply_smearing, try_except. cbv zeta. unfold bind at 1, for_range.
  match goal with
  | |- context [foldM ?body ?xs ?s w] =>
      pose proof (same_io_foldM body xs
                    (fun x s0 w0 => same_io_smear_column _ _ x s0 w0) s w) as Hio;
      destruct (foldM body xs s w) as [[e|rows] w1]
  end; destruct Hio as (Hf & Hd & Hs); cbn [snd] in Hf, Hd, Hs.
  - eexists _, _. split; [reflexivity|]. cbn.
    split; [exact Hf|]. split; [exact Hd|]. right. exists e. rewrite Hs. auto.
  - eexists _, _. split; [reflexivity|]. cbn. auto.
Qed.

(** ** Crossfade: weights and edge cases *)

(** X4: for [0 <= j < k] the weight [(j + 1) / (k + 1)] lies strictly
    between 0 and 1, grows by [1 / (k + 1)] from one transition frame
    to the next, and the weights of frames [j] and [k - 1 - j] add up
    to 1. *)
Theorem crossfade_alpha_spacing (j k : Z) :
  0 <= j < k ->
  (0 < crossfade_alpha j k)%Q /\ (crossfade_alpha j k < 1)%Q /\
  (crossfade_alpha (j + 1) k == crossfade_alpha j k + 1 / inject_Z (k + 1))%Q /\
  (crossfade_alpha j k + crossfade_alpha (k - 1 - j) k == 1)%Q.
Proof.
  intros Hj. unfold crossfade_alpha.
  assert (Hpos : (0 < inject_Z (k + 1))%Q) by (apply inject_Z_pos; lia).
  assert (Hnz : ~ (inject_Z (k + 1) == 0)%Q) by (apply inject_Z_nonzero; lia).
  split.
  { apply Qlt_shift_div_l; [exact Hpos|]. rewrite Qmult_0_l. apply inject_Z_pos. lia. }
  split.
  { apply Qlt_shift_div_r; [exact Hpos|]. rewrite Qmult_1_l, <- Zlt_Qlt. lia. }
  split.
  { rewrite (inject_Z_plus (j + 1) 1). field. exact Hnz. }
  replace (k - 1 - j + 1) with (k + 1 - (j + 1)) by lia.
  unfold Z.sub. rewrite (inject_Z_plus (k + 1)), inject_Z_opp. field. exact Hnz.
Qed.

Lemma crossfade_alpha_spacing_witness :
  (0 < crossfade_alpha 1 3)%Q /\ (crossfade_alpha 1 3 < 1)%Q.
Proof.
  destruct (crossfade_alpha_spacing 1 3) as (H0 & H1 & _); [lia|]. split; assumption.
Defined.

Lemma py_range_empty a b : b <= a -> py_range a b = [].
Proof. intros Hab. unfold py_range. apply seqZ_nil. lia. Qed.

Lemma py_range_cons a b : a < b -> py_range a b = a :: py_range (a + 1) b.
Proof.
  intros Hab. unfold py_range. rewrite seqZ_cons by lia.
  f_equal. f_equal; lia.
Qed.

Section NoTransitions.
Context `{Blender}.

Lemma crossfade_step_no_transitions frames k (i : nat) acc w :
  k <= 0 -> (i < length frames)%nat ->
  returns (crossfade_step frames k (Z.of_nat i) acc) w
          (fun s _ => exists f o, frames !! i = Some f /\ smeared f 40 o /\ s = acc ++ [o]).
Proof.
  intros Hk Hi. unfold crossfade_step.
  destruct (lookup_lt_is_Some_2 frames i Hi) as [src_cur Hcur].
  assert (Hn : ((i + 1) mod length frames < length frames)%nat)
    by (apply Nat.mod_upper_bound; lia).
  destruct (lookup_lt_is_Some_2 frames _ Hn) as [src_nxt Hnxt].
  apply returns_bind. exists src_cur, w. split.
  { apply index_returns. rewrite Nat2Z.id. exact Hcur. }
  apply returns_bind. exists src_nxt, w. split.
  { apply index_returns.
    replace (Z.of_nat i + 1) with (Z.of_nat (i + 1)) by lia.
    rewrite <- Nat2Z.inj_mod, Nat2Z.id. exact Hnxt. }
  apply returns_bind.
  destruct (apply_smearing_returns src_cur 40 w) as (cur & w1 & Hc & _).
  exists cur, w1. split; [exact Hc|].
  apply returns_bind.
  destruct (apply_smearing_returns src_nxt 40 w1) as (nxt & w2 & Hx & _).
  exists nxt, w2. split; [exact Hx|].
  unfold for_range. rewrite py_range_empty by lia. apply returns_ret.
  exists src_cur, cur. split; [exact Hcur|]. split; [|reflexivity].
  exists w, w1. exact Hc.
Qed.

(** X5: with a transition count [k <= 0] nothing is blended:
    [create_crossfade_frames] returns, for any frames (of any sizes, and
    for no frame at all), one smeared frame per input frame, in order. *)
Theorem create_crossfade_frames_no_transitions (frames : list Image) (k : Z) (w : World) :
  k <= 0 ->
  exists out w',
    create_crossfade_frames frames k w = (inr out, w') /\
    length out = length frames /\
    forall i f, frames !! i = Some f -> exists o, out !! i = Some o /\ smeared f 40 o.
Proof.
  intros Hk. unfold create_crossfade_frames.
  assert (Hloop :
    forall w0,
      returns (for_range 0 (Z.of_nat (length frames)) (crossfade_step frames k) []) w0
        (fun s _ => length s = length frames /\
                    forall i f, frames !! i = Some f ->
                                exists o, s !! i = Some o /\ smeared f 40 o)).
  { intros w0. unfold for_range. eapply returns_mono.
    - apply (returns_foldM (crossfade_step frames k)
               (fun n s => length s = n /\
                           forall i f, (i < n)%nat -> frames !! i = Some f ->
                                       exists o, s !! i = Some o /\ smeared f 40 o)).
      + intros n x s w1 Hx (Hlen & Hs).
        pose proof (lookup_lt_Some _ _ _ Hx) as Hn.
        rewrite length_py_range in Hn.
        apply lookup_py_range in Hx. rewrite Z.add_0_l in Hx. subst x.
        eapply returns_mono; [apply crossfade_step_no_transitions; [exact Hk | lia]|].
        intros s' _ (f & o & Hf & Ho & ->). cbn beta.
        split; [rewrite length_app; cbn; lia|].
        intros i g Hi Hg. destruct (decide (i = n)) as [->|Hne].
        * exists o. split; [|congruence].
          rewrite lookup_app_r by lia. rewrite Hlen, Nat.sub_diag. reflexivity.
        * destruct (Hs i g ltac:(lia) Hg) as (o' & Ho' & Hsm).
          exists o'. split; [|exact Hsm]. rewrite lookup_app_l by lia. exact Ho'.
      + split; [reflexivity|]. intros i f Hi. lia.
    - intros s _ (Hlen & Hs). cbn beta. rewrite length_py_range in Hlen, Hs.
      split; [lia|]. intros i f Hf. apply Hs; [|exact Hf].
      apply lookup_lt_Some in Hf. lia. }
  destruct (Hloop (mkWorld (files w) (dirs w)
                     (stdout w ++ ["Applying crossfade and smearing effects..."]) (rng w)))
    as (out & w' & Heq & Hlen & Hout).
  exists out, w'. split; [|split; assumption].
  unfold bind, print. exact Heq.
Qed.

End NoTransitions.

Lemma create_crossfade_frames_no_transitions_witness :
  exists out w',
    @create_crossfade_frames linear_blender two_frames (-1) empty_world = (inr out, w') /\
    length out = length two_frames.
Proof.
  destruct (@create_crossfade_frames_no_transitions linear_blender two_frames (-1) empty_world)
    as (out & w' & Heq & Hlen & _); [lia|].
  exists out, w'. split; assumption.
Defined.

Section Mismatch.
Context `{Blender}.

(** X6: when the first two frames differ in mode or size and at least
    one transition frame is asked for, [create_crossfade_frames] raises
    the [ValueError] of [Image.blend]; nothing catches it there. *)
Theorem create_crossfade_frames_mismatch (f0 f1 : Image) (rest : list Image) (k : Z)
    (w : World) :
  same_shape f0 f1 = false -> 1 <= k ->
  raises (create_crossfade_frames (f0 :: f1 :: rest) k) w ValueError.
Proof.
  intros Hshape Hk. unfold create_crossfade_frames.
  eapply raises_bind_r; [reflexivity|].
  unfold for_range. rewrite py_range_cons by (cbn [length]; lia).
  cbn [foldM]. apply raises_bind_l.
  unfold crossfade_step.
  eapply raises_bind_r; [reflexivity|].
  eapply raises_bind_r.
  { apply index_returns.
    replace ((0 + 1) mod Z.of_nat (length (f0 :: f1 :: rest))) with 1
      by (symmetry; apply Z.mod_small; cbn [length]; lia).
    reflexivity. }
  match goal with |- raises _ ?w0 _ =>
    destruct (apply_smearing_returns f0 40 w0) as (cur & w1 & Hc & Hcm & Hcw & Hch) end.
  eapply raises_bind_r; [exact Hc|].
  destruct (apply_smearing_returns f1 40 w1) as (nxt & w2 & Hx & Hxm & Hxw & Hxh).
  eapply raises_bind_r; [exact Hx|].
  assert (Hsh : same_shape cur nxt = false).
  { destruct (same_shape cur nxt) eqn:Hs; [|reflexivity].
    apply same_shape_spec in Hs. rewrite Hcm, Hcw, Hch, Hxm, Hxw, Hxh in Hs.
    apply same_shape_spec in Hs. congruence. }
  unfold for_range. rewrite py_range_cons by lia. cbn [foldM].
  apply raises_bind_l. unfold transition_step. apply raises_bind_l.
  unfold blend_images, lift, Image_blend. rewrite Hsh. eexists. reflexivity.
Qed.

End Mismatch.

Lemma create_crossfade_frames_mismatch_witness :
  raises (@create_crossfade_frames linear_blender
            [mkImage L 1 2 [[[10]]; [[200]]]; mkImage L 1 1 [[[90]]]] 1) empty_world ValueError.
Proof. apply (@create_crossfade_frames_mismatch linear_blender); [reflexivity | lia]. Defined.

(** ** The size computed by the aspect fit *)

Lemma Qlt_bool_spec a b : Qlt_bool a b = true <-> (a < b)%Q.
Proof.
  split; [apply Qlt_bool_true|].
  intros Hlt. destruct (Qlt_bool a b) eqn:Hb; [reflexivity|].
  apply Qlt_bool_false in Hb. exfalso. exact (Qle_not_lt _ _ Hb Hlt).
Qed.

(** for a source narrower than 2^49 pixels the comparison of the aspect
    ratios in doubles is the comparison of the exact ratios *)
Lemma aspect_test (w h : Z) :
  0 < w -> 0 < h -> w < 2 ^ 49 ->
  Qlt_bool (round53 (inject_Z TARGET_WIDTH / inject_Z TARGET_HEIGHT))
           (round53 (inject_Z w / inject_Z h))
  = (9 * h <? 16 * w).
Proof.
  intros Hw Hh Hbound.
  assert (Hwq : (0 < inject_Z w)%Q) by (apply inject_Z_pos; exact Hw).
  assert (Hhq : (0 < inject_Z h)%Q) by (apply inject_Z_pos; exact Hh).
  assert (HX : (0 < inject_Z w / inject_Z h)%Q).
  { apply Qlt_shift_div_l; [exact Hhq|]. rewrite Qmult_0_l. exact Hwq. }
  apply eq_true_iff_eq. rewrite Qlt_bool_spec, Z.ltb_lt, canvas_aspect_value. split.
  - intros Hlt. apply Z.nle_gt. intros Hle.
    assert (Hx : (inject_Z w / inject_Z h <= 9 # 16)%Q).
    { apply Qle_shift_div_r; [exact Hhq|].
      assert (H16 : (inject_Z (16 * w) <= inject_Z (9 * h))%Q) by (rewrite <- Zle_Qle; exact Hle).
      rewrite !inject_Z_mult in H16.
      change (inject_Z 16) with (16 # 1)%Q in H16. change (inject_Z 9) with (9 # 1)%Q in H16.
      lra. }
    apply (round53_mono _ _ (Qlt_le_weak _ _ HX)) in Hx.
    assert (Hc : (round53 (9 # 16) == 9 # 16)%Q) by (vm_compute; reflexivity).
    rewrite Hc in Hx. lra.
  - intros Hwide.
    destruct (round53_error _ HX) as [_ Herr].
    assert (H16 : (inject_Z (9 * h + 1) <= inject_Z (16 * w))%Q) by (rewrite <- Zle_Qle; lia).
    rewrite inject_Z_plus, !inject_Z_mult in H16.
    change (inject_Z 16) with (16 # 1)%Q in H16. change (inject_Z 9) with (9 # 1)%Q in H16.
    change (inject_Z 1) with 1%Q in H16.
    assert (Hb : (inject_Z w < inject_Z (2 ^ 49))%Q) by (rewrite <- Zlt_Qlt; exact Hbound).
    change (inject_Z (2 ^ 49)) with (562949953421312 # 1)%Q in Hb.
    assert (Hlow : (9 # 16 < inject_Z w * (1 - (1 # 9007199254740992)) / inject_Z h)%Q).
    { apply Qlt_shift_div_l; [exact Hhq|]. lra. }
    assert (Heq : (inject_Z w * (1 - (1 # 9007199254740992)) / inject_Z h
                   == inject_Z w / inject_Z h
                      - inject_Z w / inject_Z h * (1 # 9007199254740992))%Q).
    { field. lra. }
    rewrite Heq in Hlow.
    set (X := (inject_Z w / inject_Z h)%Q) in *. set (r := round53 X) in *.
    clearbody r X. clear - Hlow Herr. lra.
Qed.

(** X7: for a source of positive height and of a width between 1 and
    2^49 pixels the size computed on lines 123-131 covers the canvas and
    fits one side: a source wider than 9:16 gets the height 1280 and a
    width of at least 720, any other source the width 720 and a height
    of at least 1280. *)
Theorem fit_size_fits (w h : nat) :
  (0 < w)%nat -> (0 < h)%nat -> Z.of_nat w < 2 ^ 49 ->
  exists new_w new_h,
    fit_size w h = inr (new_w, new_h) /\
    if 9 * Z.of_nat h <? 16 * Z.of_nat w
    then new_h = 1280 /\ 720 <= new_w
    else new_w = 720 /\ 1280 <= new_h.
Proof.
  intros Hw Hh Hbound.
  destruct (fit_size_covers w h Hw Hh) as (new_w & new_h & Hfit & Hnw & Hnh & _).
  exists new_w, new_h. split; [exact Hfit|].
  unfold TARGET_WIDTH in Hnw. unfold TARGET_HEIGHT in Hnh.
  revert Hfit. unfold fit_size, float_div.
  destruct (Qeq_bool (inject_Z (Z.of_nat h)) 0); [discriminate|].
  rewrite aspect_test by lia.
  destruct (9 * Z.of_nat h <? 16 * Z.of_nat w).
  - intros [= _ <-]. split; [reflexivity | exact Hnw].
  - destruct (Qeq_bool _ 0); [discriminate|].
    intros [= <- _]. split; [reflexivity | exact Hnh].
Qed.

(** 1920 x 1080 is resized to 2275 x 1280, 300 x 565 to 720 x 1355 *)
Lemma fit_size_fits_witness :
  fit_size 1920 1080 = inr (2275, 1280) /\
  exists new_h, fit_size 300 565 = inr (720, new_h) /\ 1280 <= new_h.
Proof.
  split; [vm_compute; reflexivity|].
  destruct (fit_size_fits 300 565) as (nw & nh & Hfit & Hcase); [lia | lia | lia |].
  change (9 * Z.of_nat 565 <? 16 * Z.of_nat 300) with false in Hcase.
  destruct Hcase as [-> Hnh]. exists nh. split; assumption.
Defined.

(** X8: [fit_size] fails, with [ZeroDivisionError], exactly when the
    source has width 0 or height 0. *)
Theorem fit_size_zero_dimension (w h : nat) :
  fit_size w h = inl ZeroDivisionError <-> (w = 0 \/ h = 0)%nat.
Proof.
  split.
  - intros Hfail. destruct w as [|w]; [left; reflexivity|].
    destruct h as [|h]; [right; reflexivity|].
    destruct (fit_size_covers (S w) (S h)) as (nw & nh & Hfit & _); [lia | lia|].
    congruence.
  - intros [-> | ->].
    + unfold fit_size, float_div. destruct h as [|h]; [reflexivity|].
      destruct (Qeq_bool (inject_Z (Z.of_nat (S h))) 0) eqn:Hz.
      { apply Qeq_bool_iff in Hz. exfalso. revert Hz. apply inject_Z_nonzero. lia. }
      assert (Ha : round53 (inject_Z (Z.of_nat 0) / inject_Z (Z.of_nat (S h))) = 0%Q).
      { apply round53_0. unfold Qdiv. apply Qmult_0_l. }
      rewrite Ha. reflexivity.
    + unfold fit_size, float_div. reflexivity.
Qed.

(** X9: on a resized image at least 720 x 1280 the crop box of lines
    136-139 is centred: it is 720 x 1280, lies inside the image, and the
    margins on opposite sides differ by at most one pixel (the extra
    pixel is on the right and at the bottom); on an axis where the
    image has the target size nothing is cropped. *)
Theorem crop_box_centred (resized_w resized_h : Z) :
  TARGET_WIDTH <= resized_w -> TARGET_HEIGHT <= resized_h ->
  let '(x0, y0, x1, y1) := crop_box resized_w resized_h in
  x1 - x0 = TARGET_WIDTH /\ y1 - y0 = TARGET_HEIGHT /\
  0 <= x0 /\ x1 <= resized_w /\ 0 <= y0 /\ y1 <= resized_h /\
  0 <= (resized_w - x1) - x0 <= 1 /\
  0 <= (resized_h - y1) - y0 <= 1 /\
  (resized_w = TARGET_WIDTH -> x0 = 0 /\ x1 = resized_w) /\
  (resized_h = TARGET_HEIGHT -> y0 = 0 /\ y1 = resized_h).
Proof.
  unfold crop_box, TARGET_WIDTH, TARGET_HEIGHT. intros Hw Hh.
  pose proof (Z.mul_div_le (resized_w - 720) 2 ltac:(lia)).
  pose proof (Z.mul_succ_div_gt (resized_w - 720) 2 ltac:(lia)).
  pose proof (Z.mul_div_le (resized_h - 1280) 2 ltac:(lia)).
  pose proof (Z.mul_succ_div_gt (resized_h - 1280) 2 ltac:(lia)).
  repeat split; try lia.
Qed.

Lemma crop_box_centred_witness :
  1497 - 777 = TARGET_WIDTH /\ 0 <= (2275 - 1497) - 777 <= 1.
Proof.
  pose proof (crop_box_centred 2275 1280 ltac:(unfold TARGET_WIDTH; lia)
                ltac:(unfold TARGET_HEIGHT; lia)) as Hbox.
  assert (Hb : crop_box 2275 1280 = (777, 0, 1497, 1280)) by reflexivity.
  rewrite Hb in Hbox. destruct Hbox as (H1 & _ & _ & _ & _ & _ & H7 & _).
  split; assumption.
Defined.

(** ** The image pipeline: what can go wrong, and what is returned *)

Lemma returns_print_exact msg w (Q : unit -> World -> Prop) :
  Q tt (mkWorld (files w) (dirs w) (stdout w ++ [msg]) (rng w)) ->
  returns (print msg) w Q.
Proof. intros HQ. eexists _, _. split; [reflexivity | exact HQ]. Qed.

Ltac inv_bind H :=
  let a := fresh "a" in
  let w := fresh "w" in
  let Hs := fresh "Hstep" in
  apply bind_returns_inv in H as (a & w & Hs & H); cbv beta in H.

Ltac inv_step H a w Hs :=
  apply bind_returns_inv in H as (a & w & Hs & H); cbv beta in H.

Lemma print_inv msg w u w' :
  print msg w = (inr u, w') ->
  w' = mkWorld (files w) (dirs w) (stdout w ++ [msg]) (rng w).
Proof. unfold print. intros Heq. injection Heq as _ <-. reflexivity. Qed.

Section CanvasPipeline.
Context `{Externals} `{Resampler} `{Blender}.

(** X10: [convert_gif_to_mp4] never raises: it returns [True] when
    the encoder process ends with status 0 and [False], after printing
    an error line, when the process cannot be run or ends with another
    status. *)
Theorem convert_gif_to_mp4_total (gif_path output_path : string) (w : World) :
  let cmd := ["ffmpeg"; "-i"; gif_path; "-movflags"; "+faststart"; "-pix_fmt"; "yuv420p";
              "-vf"; "scale=trunc(iw/2)*2:trunc(ih/2)*2"; "-r"; "30"; "-t"; "8"; "-y";
              output_path]%string in
  let w0 := mkWorld (files w) (dirs w) (stdout w ++ ["Converting to MP4 format..."%string])
                    (rng w) in
  exists b w',
    convert_gif_to_mp4 gif_path output_path w = (inr b, w') /\
    (b = true <-> exists w1, subprocess_run cmd w0 = (inr 0, w1)) /\
    (b = false -> exists e w1,
        fst (subprocess_run cmd w0) <> inr 0 /\
        stdout w' = stdout w1 ++ [("Error converting to MP4: " +:+ exn_str e)%string]).
Proof.
  cbv zeta. unfold convert_gif_to_mp4, try_except, subprocess_run_check.
  unfold bind at 1. unfold print at 1. cbv zeta.
  change (pretty CANVAS_DURATION) with "8"%string.
  unfold bind at 1. unfold bind at 1.
  match goal with |- context [subprocess_run ?c ?w0] =>
    destruct (subprocess_run c w0) as [[e|rc] w1] eqn:Hrun end.
  - eexists _, _. split; [reflexivity|]. split.
    + split; [discriminate|]. intros [w2 Hw2]. discriminate.
    + intros _. exists e, w1. split; [discriminate | reflexivity].
  - destruct (rc =? 0) eqn:Hrc.
    + apply Z.eqb_eq in Hrc. subst rc.
      eexists _, _. split; [reflexivity|]. split.
      * split; [intros _; exists w1; reflexivity | reflexivity].
      * discriminate.
    + apply Z.eqb_neq in Hrc.
      eexists _, _. split; [reflexivity|]. split.
      * split; [discriminate|]. intros [w2 Hw2]. congruence.
      * intros _. exists CalledProcessError, w1. split; [cbn; congruence | reflexivity].
Qed.

(** X11: [check_ffmpeg] does not look at the exit status: it returns
    [True] whenever the process could be started, [False] with a
    message when starting it raises [FileNotFoundError], and lets any
    other exception through. *)
Theorem check_ffmpeg_cases (w : World) :
  match subprocess_run ["ffmpeg"; "-version"]%string w with
  | (inr rc, w1) => check_ffmpeg w = (inr true, w1)
  | (inl FileNotFoundError, w1) =>
      check_ffmpeg w
      = (inr false,
         mkWorld (files w1) (dirs w1)
           (stdout w1 ++ ["Error: FFmpeg is not installed. Please install FFmpeg to convert to MP4."%string])
           (rng w1))
  | (inl e, w1) => check_ffmpeg w = (inl e, w1)
  end.
Proof.
  unfold check_ffmpeg, bind.
  destruct (subprocess_run _ w) as [[[]|rc] w1]; reflexivity.
Qed.

(** X12: for a source of positive width and height, [resize_crop]
    returns an image, leaves files, directories and the random source
    as they are, and prints "Resizing image...", preceded by the
    low-resolution warning exactly when the source is narrower than 720
    or lower than 1280: a small source is upscaled, not rejected. *)
Theorem resize_crop_output (image : Image) (w : World) :
  (0 < width image)%nat -> (0 < height image)%nat ->
  exists out,
    resize_crop image w
    = (inr out,
       mkWorld (files w) (dirs w)
         (stdout w
          ++ (if (Z.of_nat (width image) <? 720) || (Z.of_nat (height image) <? 1280)
              then ["Warning: Input image resolution is lower than target resolution"%string]
              else [])
          ++ ["Resizing image..."%string])
         (rng w)).
Proof.
  intros Hw Hh.
  destruct (fit_size_covers _ _ Hw Hh) as (new_w & new_h & Hfit & Hnw & Hnh & _).
  unfold TARGET_WIDTH in Hnw. unfold TARGET_HEIGHT in Hnh.
  assert (Hres : exists resized, Image_resize image (new_w, new_h) = inr resized).
  { cbn [Image_resize].
    destruct ((new_w =? Z.of_nat (width image)) && (new_h =? Z.of_nat (height image)));
      [eexists; reflexivity|].
    replace (new_w <? 1) with false by (symmetry; apply Z.ltb_ge; lia).
    replace (new_h <? 1) with false by (symmetry; apply Z.ltb_ge; lia).
    eexists. reflexivity. }
  destruct Hres as [resized Hres].
  assert (Hcrop : exists out,
             Image_crop resized (crop_box (Z.of_nat (width resized)) (Z.of_nat (height resized)))
             = inr out).
  { unfold crop_box, Image_crop.
    match goal with |- context [(?a + ?t <? ?a) || (?b + ?u <? ?b)] =>
      replace (a + t <? a) with false by (symmetry; apply Z.ltb_ge; unfold TARGET_WIDTH; lia);
      replace (b + u <? b) with false by (symmetry; apply Z.ltb_ge; unfold TARGET_HEIGHT; lia)
    end.
    eexists. reflexivity. }
  destruct Hcrop as [out Hcrop]. exists out.
  unfold resize_crop, TARGET_WIDTH, TARGET_HEIGHT.
  destruct ((Z.of_nat (width image) <? 720) || (Z.of_nat (height image) <? 1280));
    unfold bind, print, lift, ret; rewrite Hfit, Hres;
    unfold TARGET_WIDTH, TARGET_HEIGHT in Hcrop; rewrite Hcrop; cbn [files dirs stdout rng];
    rewrite <- ?app_assoc; reflexivity.
Qed.

End CanvasPipeline.

Lemma resize_crop_output_witness :
  exists out w',
    @resize_crop nearest_resampler stub_image empty_world = (inr out, w') /\
    stdout w' = ["Warning: Input image resolution is lower than target resolution";
                 "Resizing image..."]%string.
Proof.
  destruct (@resize_crop_output nearest_resampler stub_image empty_world) as [out Hout].
  - cbn. lia.
  - cbn. lia.
  - eexists _, _. split; [exact Hout | reflexivity].
Defined.

Section CanvasResult.
Context `{Externals} `{Resampler} `{Blender}.

(** X13: [create_spotify_canvas] never raises.  It returns [None] only
    after an error line, which is then the last line printed: the line
    of the existence check when the path names neither a file nor a
    directory, the line of the handler otherwise.  When it returns
    paths, the GIF has been written and the encoder was run on it: the
    result is the three paths, followed by the three closing lines, if
    the encoder ended with status 0, and the paths of the static image
    and of the GIF, after the error line of the conversion, if it ended
    with another status or could not be run. *)
Theorem create_spotify_canvas_result (input_image_path : string) (output_dir : option string)
    (w : World) :
  let base_name := fst (os_path_splitext (os_path_basename input_image_path)) in
  let dir :=
    match output_dir with
    | Some d => d
    | None => os_path_join (os_path_dirname input_image_path) (base_name +:+ "_canvas")
    end in
  let static_path := os_path_join dir (base_name +:+ "_canvas_static.png") in
  let gif_path := os_path_join dir (base_name +:+ "_canvas.gif") in
  let mp4_path := os_path_join dir (base_name +:+ "_canvas.mp4") in
  let cmd := ["ffmpeg"; "-i"; gif_path; "-movflags"; "+faststart"; "-pix_fmt"; "yuv420p";
              "-vf"; "scale=trunc(iw/2)*2:trunc(ih/2)*2"; "-r"; "30"; "-t"; "8"; "-y";
              mp4_path]%string in
  let said (w2 : World) (lines : list string) :=
    mkWorld (files w2) (dirs w2) (stdout w2 ++ lines) (rng w2) in
  exists r w',
    create_spotify_canvas input_image_path output_dir w = (inr r, w') /\
    match r with
    | None =>
        (files w !! input_image_path = None /\ (input_image_path ∉ dirs w) /\
         w' = said w ["Error: File does not exist"%string]) \/
        ((is_Some (files w !! input_image_path) \/ input_image_path ∈ dirs w) /\
         exists e, last (stdout w') = Some ("Error processing image: " +:+ exn_str e)%string)
    | Some paths =>
        exists frames w1,
          files w1 !! gif_path = Some (Image_encode_gif frames 83) /\
          last (stdout w1) = Some "Converting to MP4 format..."%string /\
          match subprocess_run cmd w1 with
          | (inr rc, w2) =>
              if rc =? 0 then
                paths = [static_path; gif_path; mp4_path] /\
                w' = said w2 ["Static canvas generated at: " +:+ static_path;
                              "GIF canvas generated at: " +:+ gif_path;
                              "MP4 canvas generated at: " +:+ mp4_path]%string
              else
                paths = [static_path; gif_path] /\
                w' = said w2 ["Error converting to MP4: CalledProcessError"%string]
          | (inl e, w2) =>
              paths = [static_path; gif_path] /\
              w' = said w2 [("Error converting to MP4: " +:+ exn_str e)%string]
          end
    end.
Proof.
  cbv zeta. unfold create_spotify_canvas, try_except.
  match goal with |- context [match ?m w with _ => _ end] =>
    destruct (m w) as [[e|r] w1] eqn:Hin end.
  - eexists _, _. split; [reflexivity|]. right. split.
    + unfold bind at 1, os_path_exists at 1 in Hin.
      destruct (bool_decide (is_Some (files w !! input_image_path))) eqn:Hf.
      * left. apply bool_decide_eq_true in Hf. exact Hf.
      * destruct (bool_decide (input_image_path ∈ dirs w)) eqn:Hd.
        -- right. apply bool_decide_eq_true in Hd. exact Hd.
        -- discriminate.
    + exists e. cbn. apply last_snoc.
  - exists r, w1. split; [reflexivity|].
    inv_step Hin found w2 Hfound.
    unfold os_path_exists in Hfound. injection Hfound as <- <-.
    destruct (bool_decide (is_Some (files w !! input_image_path))) eqn:Hf;
      [|destruct (bool_decide (input_image_path ∈ dirs w)) eqn:Hd]; cbn [orb negb] in Hin.
    3:{ inv_step Hin u w3 Hp. apply print_inv in Hp. injection Hin as <- <-.
        left. apply bool_decide_eq_false in Hf, Hd.
        split; [|split; [exact Hd | exact Hp]].
        destruct (files w !! input_image_path) eqn:E; [|reflexivity].
        exfalso. apply Hf. eexists. reflexivity. }
    all: cbv zeta in Hin.
    all: inv_step Hin u1 w3 Hmk; inv_step Hin u2 w4 Hp1; inv_step Hin opened w5 Hopen;
         inv_step Hin cropped w6 Hcrop; inv_step Hin u3 w7 Hp2;
         inv_step Hin glitch_imgs w8 Hglitch; inv_step Hin smoothed w9 Hsmooth;
         inv_step Hin u4 w10 Hp3; inv_step Hin u5 w11 Hsave; inv_step Hin frame0 w12 Hfirst;
         inv_step Hin u6 w13 Hgif; inv_step Hin converted w14 Hconv.
    all: unfold write_file in Hgif;
         destruct (bool_decide (_ ∈ dirs w12)); [discriminate|]; injection Hgif as _ <-.
    all: unfold convert_gif_to_mp4, try_except, subprocess_run_check in Hconv.
    all: unfold bind at 1, print at 1 in Hconv; cbv zeta in Hconv.
    all: change (pretty CANVAS_DURATION) with "8"%string in Hconv.
    all: unfold bind at 1 in Hconv; unfold bind at 1 in Hconv.
    all: cbn [files dirs stdout rng] in Hconv.
    all: match type of Hconv with context [subprocess_run ?c ?w0] =>
           destruct (subprocess_run c w0) as [[e|rc] w15] eqn:Hrun end.
    all: try (destruct (rc =? 0) eqn:Hrc).
    all: cbn in Hconv; injection Hconv as <- <-.
    all: try (inv_step Hin u7 w16 Hq1; inv_step Hin u8 w17 Hq2; inv_step Hin u9 w18 Hq3;
              apply print_inv in Hq1, Hq2, Hq3; subst w18 w17 w16).
    all: injection Hin as <- <-.
    all: match type of Hrun with subprocess_run _ ?w0 = _ => exists smoothed, w0 end.
    all: cbn [files dirs stdout rng].
    all: split; [exact (lookup_insert_eq _ _ _)|]; split; [apply last_snoc|].
    all: rewrite Hrun; rewrite ?Hrc; cbn [files dirs stdout rng]; rewrite <- ?app_assoc.
    all: split; reflexivity.
Qed.

End CanvasResult.

(** ** The audio pipeline: fingerprint *)

Section FingerprintEdges.
Context `{HashAlgo}.

(** X14: on a path that names no file [hash_audio_file] raises the
    exception of [open] ([FileNotFoundError], or [OSError] when the
    path is a directory) after printing only its first line; nothing
    else changes. *)
Theorem hash_audio_file_missing (file_path : string) (w : World) :
  files w !! file_path = None ->
  hash_audio_file file_path w
  = (inl (if bool_decide (file_path ∈ dirs w) then OSError else FileNotFoundError),
     mkWorld (files w) (dirs w)
       (stdout w ++ ["🔍 Analyzing your audio's unique fingerprint..."%string]) (rng w)).
Proof.
  intros Hfile. unfold hash_audio_file, print_normal, bind, print, read_file.
  cbn [files dirs]. rewrite Hfile. reflexivity.
Qed.

(** X15: for an empty file the loop stops at the first read, before any
    [update]: the fingerprint is the digest of a hash object that was
    fed nothing. *)
Theorem hash_audio_file_empty (file_path : string) (w : World) :
  files w !! file_path = Some [] ->
  fst (hash_audio_file file_path w) = inr (sha256_hexdigest sha256_new).
Proof.
  intros Hfile. unfold hash_audio_file, print_normal, bind, print, read_file.
  cbn [files dirs]. rewrite Hfile. rewrite read_loop_equation_1. reflexivity.
Qed.

End FingerprintEdges.

Lemma hash_audio_file_missing_witness :
  fst (@hash_audio_file buffer_hash "missing.wav" empty_world) = inl FileNotFoundError.
Proof.
  rewrite (@hash_audio_file_missing buffer_hash "missing.wav" empty_world).
  - reflexivity.
  - apply lookup_empty.
Defined.

Lemma hash_audio_file_empty_witness :
  fst (@hash_audio_file buffer_hash "empty.wav"
         (mkWorld {["empty.wav"%string := []]} ∅ [] []))
  = inr (@sha256_hexdigest buffer_hash (@sha256_new buffer_hash)).
Proof. apply (@hash_audio_file_empty buffer_hash). apply lookup_singleton_eq. Defined.

(** ** The audio pipeline: spectrogram geometry *)

(** X16: the figure width is the duration divided by 4 clamped to
    [10, 40]: it is 10 up to 40 seconds, [duration / 4] between 40 and
    160 seconds, 40 from 160 seconds on, and it never decreases when
    the duration grows. *)
Theorem spectrogram_width_clamped (d1 d2 : Q) :
  (10 <= spectrogram_width d1)%Q /\ (spectrogram_width d1 <= 40)%Q /\
  ((d1 <= 40)%Q -> (spectrogram_width d1 == 10)%Q) /\
  ((40 <= d1)%Q -> (d1 <= 160)%Q -> (spectrogram_width d1 == d1 / 4)%Q) /\
  ((160 <= d1)%Q -> (spectrogram_width d1 == 40)%Q) /\
  ((d1 <= d2)%Q -> (spectrogram_width d1 <= spectrogram_width d2)%Q).
Proof.
  unfold spectrogram_width.
  assert (Hq : forall d, (d / 4 == d * (1 # 4))%Q) by (intros d; reflexivity).
  destruct (Q.max_spec (d1 / 4) 10) as [[Ha1 Hm1] | [Ha1 Hm1]];
    destruct (Q.min_spec (Qmax (d1 / 4) 10) 40) as [[Hb1 Hn1] | [Hb1 Hn1]];
    destruct (Q.max_spec (d2 / 4) 10) as [[Ha2 Hm2] | [Ha2 Hm2]];
    destruct (Q.min_spec (Qmax (d2 / 4) 10) 40) as [[Hb2 Hn2] | [Hb2 Hn2]];
    rewrite ?Hn1, ?Hn2; rewrite ?Hm1, ?Hm2 in *; rewrite ?Hq in *;
    repeat split; intros; try lra.
Qed.

Lemma middle_square_bounds (width height : Z) :
  0 <= width -> 0 <= height ->
  let '(x0, x1) := middle_square width height in
  0 <= x0 /\ x0 <= x1 /\ x1 <= width /\
  x1 - x0 = Z.min height width /\
  0 <= (width - x1) - x0 <= 1.
Proof.
  intros Hw Hh. unfold middle_square.
  destruct (Z.max 1 (width - height + 1) <=? 1) eqn:Hseg.
  - apply Z.leb_le in Hseg. lia.
  - apply Z.leb_gt in Hseg.
    pose proof (Z.mul_div_le (width - height) 2 ltac:(lia)).
    pose proof (Z.mul_succ_div_gt (width - height) 2 ltac:(lia)).
    lia.
Qed.

(** X17: for an image of non-negative width and height the columns
    chosen on lines 109-119 lie inside the image, span
    [min(height, width)] columns (a square whenever the image is at
    least as wide as high), and are centred: the margins differ by at
    most one column. *)
Theorem middle_square_centred (width height : Z) :
  0 <= width -> 0 <= height ->
  let '(x0, x1) := middle_square width height in
  0 <= x0 /\ x0 <= x1 /\ x1 <= width /\
  x1 - x0 = Z.min height width /\
  0 <= (width - x1) - x0 <= 1.
Proof. apply middle_square_bounds. Qed.

Lemma middle_square_centred_witness :
  middle_square 3000 1000 = (1000, 2000) /\ 2000 - 1000 = Z.min 1000 3000.
Proof.
  pose proof (middle_square_centred 3000 1000 ltac:(lia) ltac:(lia)) as Hm.
  assert (Hs : middle_square 3000 1000 = (1000, 2000)) by reflexivity.
  rewrite Hs in Hm. destruct Hm as (_ & _ & _ & Hd & _). split; [exact Hs | exact Hd].
Defined.



(** ** The audio pipeline: layers *)

Lemma Image_paste_shape im im2 dest :
  mode (Image_paste im im2 dest) = mode im /\
  width (Image_paste im im2 dest) = width im /\
  height (Image_paste im im2 dest) = height im.
Proof. destruct dest. repeat split. Qed.

Lemma zip_with_replicate_same {A B C} (f : A -> B -> C) (l : list A) n y :
  length l = n -> zip_with f l (replicate n y) = map (fun x => f x y) l.
Proof.
  revert n. induction l as [|x l IH]; intros [|n] Hlen; try discriminate; [reflexivity|].
  cbn. f_equal. apply IH. cbn in Hlen. lia.
Qed.

Section Layers.
Context `{Externals} `{Resampler}.

Lemma force_aspect_test (image : Image) :
  Qlt_bool (inject_Z (Z.of_nat (width image))) (inject_Z (Z.of_nat (height image)) * (3 # 2))
  = (2 * Z.of_nat (width image) <? 3 * Z.of_nat (height image)).
Proof.
  apply eq_true_iff_eq. rewrite Qlt_bool_spec, Z.ltb_lt.
  unfold Qlt. cbn. lia.
Qed.

(** X19: for an image of positive width [force_aspect] returns an image
    of the same height that is at least 1.5 times as wide as high, and
    writes no file.  An image that already is so wide is returned as it
    is, with nothing printed; otherwise the result is an RGBA image
    exactly 3 times as wide as high. *)
Theorem force_aspect_wide (image : Image) (w : World) :
  (0 < width image)%nat ->
  exists out w',
    force_aspect image w = (inr out, w') /\
    height out = height image /\
    3 * Z.of_nat (height out) <= 2 * Z.of_nat (width out) /\
    files w' = files w /\
    (3 * Z.of_nat (height image) <= 2 * Z.of_nat (width image) -> out = image /\ w' = w) /\
    (2 * Z.of_nat (width image) < 3 * Z.of_nat (height image) ->
     mode out = RGBA /\ width out = (3 * height image)%nat).
Proof.
  intros Hw. unfold force_aspect. cbv zeta. rewrite force_aspect_test.
  destruct (2 * Z.of_nat (width image) <? 3 * Z.of_nat (height image)) eqn:Hnarrow.
  - apply Z.ltb_lt in Hnarrow.
    rewrite py_int_inject_Z.
    assert (Hres : exists resized,
               Image_resize image (Z.min (Z.of_nat (width image)) (Z.of_nat (height image) * 3),
                                   Z.of_nat (height image)) = inr resized).
    { unfold Image_resize.
      match goal with |- context [if ?c && ?d then _ else _] =>
        destruct (c && d); [eexists; reflexivity|] end.
      replace (Z.min (Z.of_nat (width image)) (Z.of_nat (height image) * 3) <? 1) with false
        by (symmetry; apply Z.ltb_ge; lia).
      replace (Z.of_nat (height image) <? 1) with false by (symmetry; apply Z.ltb_ge; lia).
      eexists. reflexivity. }
    destruct Hres as [resized Hres].
    unfold bind, print_normal, print, lift, ret. rewrite Hres.
    eexists _, _. split; [reflexivity|].
    destruct (Image_paste_shape
                (Image_new RGBA (Z.to_nat (Z.of_nat (height image) * 3)) (height image)
                           [0; 0; 0; 0]) resized (0, 0)) as (Hm & Hpw & Hph).
    rewrite Hm, Hpw, Hph. cbn [Image_new mode width height files].
    split; [reflexivity|]. split; [lia|]. split; [reflexivity|].
    split; [lia|]. intros _. split; [reflexivity | lia].
  - apply Z.ltb_ge in Hnarrow.
    eexists _, _. split; [reflexivity|].
    split; [reflexivity|]. split; [lia|]. split; [reflexivity|].
    split; [auto | lia].
Qed.

(** X20: [resize_identicon] with the scale 0.4 asks for the size
    [floor(0.4 w) x floor(0.4 h)].  For an empty identicon (0 x 0) that
    is its own size, and the identicon is returned as it is; any other
    identicon narrower or lower than 3 pixels is asked to shrink to a
    size with a zero, and the resize raises [ValueError]; from 3 x 3 on
    the identicon is resampled to that size. *)
Theorem resize_identicon_cases (identicon : Image) (w : World) :
  resize_identicon identicon (4 # 10) w
  = (if (width identicon =? 0)%nat && (height identicon =? 0)%nat
     then inr identicon
     else if (Z.of_nat (width identicon) <? 3) || (Z.of_nat (height identicon) <? 3)
     then inl ValueError
     else inr (resample identicon
                 (Z.to_nat (Z.of_nat (width identicon) * 4 / 10))
                 (Z.to_nat (Z.of_nat (height identicon) * 4 / 10))),
     w).
Proof.
  unfold resize_identicon, lift, size. cbn [fst snd].
  rewrite !py_int_scale by lia. unfold Image_resize.
  assert (Hown : forall n : nat, (Z.of_nat n * 4 / 10 =? Z.of_nat n) = (n =? 0)%nat).
  { intros n. apply eq_true_iff_eq. rewrite Z.eqb_eq, Nat.eqb_eq. split; intros Hn.
    - pose proof (Z.mul_div_le (Z.of_nat n * 4) 10 ltac:(lia)). lia.
    - subst n. reflexivity. }
  rewrite !Hown.
  assert (Hsmall : forall n, 0 <= n -> (n * 4 / 10 <? 1) = (n <? 3)).
  { intros n Hn. apply eq_true_iff_eq. rewrite !Z.ltb_lt. split; intros Hlt.
    - destruct (Z.lt_ge_cases n 3) as [Hn3 | Hn3]; [exact Hn3|].
      pose proof (Z.div_le_lower_bound (n * 4) 10 1 ltac:(lia) ltac:(lia)). lia.
    - rewrite Z.div_small by lia. lia. }
  rewrite !Hsmall by lia. reflexivity.
Qed.

(** X21: on a well-formed RGBA image [set_image_alpha] keeps the size
    and the three colour samples of every pixel and replaces the alpha
    sample by the value given, clipped to the range of a sample: a
    value below 0 gives the alpha 0 and a value above 255 the alpha
    255. *)
Theorem set_image_alpha_rgba (image : Image) (alpha_value : Z) (w : World) :
  wf_image image -> mode image = RGBA ->
  set_image_alpha image alpha_value w
  = (inr (mkImage RGBA (width image) (height image)
            (map (map (fun px => set_alpha_sample px (Z.max 0 (Z.min 255 alpha_value))))
                 (data image))),
     w).
Proof.
  intros [Hlen Hrows] Hm. unfold set_image_alpha, lift, Image_putalpha. cbv zeta.
  rewrite !(bool_decide_eq_true_2 _ Hm).
  cbn [size fst snd Image_new mode width height data].
  rewrite (bool_decide_eq_true_2 (L = L) eq_refl), !Nat.eqb_refl. cbn [andb].
  f_equal. f_equal.
  rewrite (zip_with_replicate_same _ _ _ _ Hlen).
  f_equal. apply map_ext_Forall. eapply Forall_impl; [exact Hrows|].
  intros row [Hrow _]. cbn beta.
  rewrite (zip_with_replicate_same _ _ _ _ Hrow). reflexivity.
Qed.

(** X22: [create_identicon] returns only RGBA images, and when the
    generator process ends with a status other than 0 it raises
    [CalledProcessError] before any image is opened. *)
Theorem create_identicon_result (hash_value output_dir : string) (w : World) :
  let cmd := ["npx"; "jdenticon"; hash_value; "--size"; "5000"; "--output";
              os_path_join output_dir "identicon.png"]%string in
  let w0 := mkWorld (files w) (dirs w)
              (stdout w ++ ["🎨 Generating your unique identicon..."%string]) (rng w) in
  (forall img w', create_identicon hash_value output_dir w = (inr img, w') -> mode img = RGBA) /\
  (forall rc w1, subprocess_run cmd w0 = (inr rc, w1) -> rc <> 0 ->
                 create_identicon hash_value output_dir w = (inl CalledProcessError, w1)).
Proof.
  cbv zeta. split.
  - intros img w' Hin. unfold create_identicon in Hin. cbv zeta in Hin.
    repeat (inv_bind Hin). injection Hin as <- _. reflexivity.
  - intros rc w1 Hrun Hrc. unfold create_identicon, subprocess_run_check. cbv zeta.
    unfold bind at 1. unfold print_normal at 1, print at 1.
    unfold bind at 1. unfold bind at 1. rewrite Hrun.
    apply Z.eqb_neq in Hrc. rewrite Hrc. reflexivity.
Qed.

End Layers.

Lemma force_aspect_wide_witness :
  exists out w',
    @force_aspect nearest_resampler stub_image empty_world = (inr out, w') /\
    size out = (9, 3)%nat.
Proof.
  destruct (@force_aspect_wide nearest_resampler stub_image empty_world)
    as (out & w' & Heq & Hh & _ & _ & _ & Hforced).
  - cbn. lia.
  - destruct Hforced as [_ Hw]; [cbn; lia|].
    exists out, w'. split; [exact Heq|]. unfold size. rewrite Hw, Hh. reflexivity.
Defined.

Lemma set_image_alpha_rgba_witness :
  fst (set_image_alpha stub_image 300 empty_world)
  = inr (mkImage RGBA 2 3 [[[1; 2; 3; 255]; [4; 5; 6; 255]];
                           [[7; 8; 9; 255]; [10; 11; 12; 255]];
                           [[13; 14; 15; 255]; [16; 17; 18; 255]]]).
Proof.
  rewrite (set_image_alpha_rgba stub_image 300 empty_world).
  - reflexivity.
  - apply stub_image_wf.
  - reflexivity.
Defined.

(** ** The audio pipeline: what is returned and written *)

Lemma lift_inv {A} (r : exn + A) w a w' : lift r w = (inr a, w') -> r = inr a /\ w' = w.
Proof. unfold lift. intros Heq. injection Heq as -> ->. auto. Qed.

Lemma read_file_inv path w c w' :
  read_file path w = (inr c, w') -> files w !! path = Some c /\ w' = w.
Proof.
  unfold read_file. destruct (files w !! path) as [c0|]; [|discriminate].
  intros Heq. injection Heq as -> ->. auto.
Qed.

Lemma write_file_inv path c w u w' :
  write_file path c w = (inr u, w') ->
  w' = mkWorld (<[path := c]> (files w)) (dirs w) (stdout w) (rng w).
Proof.
  unfold write_file. destruct (bool_decide (path ∈ dirs w)); [discriminate|].
  intros Heq. injection Heq as _ <-. reflexivity.
Qed.

Lemma Image_putalpha_shape im alpha out :
  Image_putalpha im alpha = inr out ->
  mode out = RGBA /\ width out = width im /\ height out = height im.
Proof.
  unfold Image_putalpha.
  set (im' := if bool_decide (mode im = RGBA) then im else Image_convert im RGBA).
  assert (Hs : width im' = width im /\ height im' = height im).
  { unfold im'. destruct (bool_decide (mode im = RGBA)); auto. }
  destruct Hs as [Hw Hh].
  destruct alpha as [band | a].
  - destruct (bool_decide (mode band = L) && (width band =? width im')%nat
              && (height band =? height im')%nat); [|discriminate].
    intros Heq. injection Heq as <-. cbn. auto.
  - intros Heq. injection Heq as <-. cbn. auto.
Qed.

(** what is printed is never taken back *)
Lemma appends_ret {A} (a : A) : appends_output (ret a).
Proof. intros w. exists []. cbn. rewrite app_nil_r. reflexivity. Qed.

Lemma appends_lift {A} (r : exn + A) : appends_output (lift r).
Proof. intros w. exists []. cbn. rewrite app_nil_r. reflexivity. Qed.

Lemma appends_print msg : appends_output (print msg).
Proof. intros w. exists [msg]. reflexivity. Qed.

Lemma appends_write_file path c : appends_output (write_file path c).
Proof.
  intros w. exists []. unfold write_file.
  destruct (bool_decide (path ∈ dirs w)); cbn; rewrite app_nil_r; reflexivity.
Qed.

Lemma appends_bind {A B} (m : M A) (k : A -> M B) :
  appends_output m -> (forall a, appends_output (k a)) -> appends_output (bind m k).
Proof.
  intros Hm Hk w. unfold bind. destruct (Hm w) as [l1 Hl1].
  destruct (m w) as [[e|a] w1]; cbn [snd] in Hl1.
  - exists l1. exact Hl1.
  - destruct (Hk a w1) as [l2 Hl2]. exists (l1 ++ l2).
    rewrite Hl2, Hl1, app_assoc. reflexivity.
Qed.

Section Outputs.
Context `{Externals} `{Resampler} `{HashAlgo}.

Lemma Image_resize_inv im w h out :
  Image_resize im (w, h) = inr out ->
  (w = Z.of_nat (width im) /\ h = Z.of_nat (height im) /\ out = im) \/
  (1 <= w /\ 1 <= h /\ out = resample im (Z.to_nat w) (Z.to_nat h)).
Proof.
  unfold Image_resize.
  destruct (w =? Z.of_nat (width im)) eqn:Ew; cbn [andb].
  - destruct (h =? Z.of_nat (height im)) eqn:Eh.
    + apply Z.eqb_eq in Ew, Eh. intros Heq. injection Heq as <-. left. auto.
    + destruct (w <? 1) eqn:Hw; [discriminate|].
      destruct (h <? 1) eqn:Hh; [discriminate|]. cbn [orb].
      apply Z.ltb_ge in Hw, Hh. intros Heq. injection Heq as <-. right. auto.
  - destruct (w <? 1) eqn:Hw; [discriminate|].
    destruct (h <? 1) eqn:Hh; [discriminate|]. cbn [orb].
    apply Z.ltb_ge in Hw, Hh. intros Heq. injection Heq as <-. right. auto.
Qed.

Lemma Image_alpha_composite_shape im im2 dest out :
  Image_alpha_composite im im2 dest = inr out ->
  mode out = RGBA /\ width out = width im /\ height out = height im.
Proof.
  unfold Image_alpha_composite. destruct dest as [x0 y0].
  destruct ((x0 <? 0) || (y0 <? 0)); [discriminate|].
  destruct (negb (bool_decide (mode im = RGBA) && bool_decide (mode im2 = RGBA)));
    [discriminate|].
  intros Heq. injection Heq as <-. cbn. auto.
Qed.

Lemma Image_open_inv path w im w' :
  Image_open path w = (inr im, w') -> (0 < width im)%nat /\ (0 < height im)%nat.
Proof.
  unfold Image_open. intros Hin.
  inv_step Hin content w1 Hread. inv_step Hin im0 w2 Hdec.
  destruct (width im0 =? 0)%nat eqn:Ew; [discriminate|].
  destruct (height im0 =? 0)%nat eqn:Eh; [discriminate|].
  cbn [orb] in Hin. injection Hin as <- _.
  apply Nat.eqb_neq in Ew, Eh. lia.
Qed.

Lemma create_identicon_inv hash_value output_dir w img w' :
  create_identicon hash_value output_dir w = (inr img, w') ->
  (0 < width img)%nat /\ (0 < height img)%nat.
Proof.
  unfold create_identicon. cbv zeta. intros Hin.
  inv_step Hin u1 w1 Hp1. inv_step Hin u2 w2 Hrun. inv_step Hin u3 w3 Hp2.
  inv_step Hin opened w4 Hopen. injection Hin as <- _.
  apply Image_open_inv in Hopen. exact Hopen.
Qed.

Lemma force_aspect_inv image w out w' :
  force_aspect image w = (inr out, w') ->
  files w' = files w /\ dirs w' = dirs w /\ height out = height image /\
  3 * Z.of_nat (height out) <= 2 * Z.of_nat (width out).
Proof.
  unfold force_aspect. cbv zeta. rewrite force_aspect_test.
  destruct (2 * Z.of_nat (width image) <? 3 * Z.of_nat (height image)) eqn:Hnarrow.
  - rewrite py_int_inject_Z. unfold print_normal. intros Hin.
    inv_step Hin u1 w1 Hp1. apply print_inv in Hp1. subst w1.
    inv_step Hin resized w2 Hres. apply lift_inv in Hres as [_ ->].
    inv_step Hin u2 w3 Hp2. apply print_inv in Hp2. subst w3.
    injection Hin as <- <-.
    cbn [files dirs width height].
    split; [reflexivity|]. split; [reflexivity|]. split; [reflexivity | lia].
  - apply Z.ltb_ge in Hnarrow. intros Hin. injection Hin as <- <-.
    split; [reflexivity|]. split; [reflexivity|]. split; [reflexivity | lia].
Qed.

Lemma appends_force_aspect image : appends_output (force_aspect image).
Proof.
  unfold force_aspect, print_normal. cbv zeta.
  destruct (Qlt_bool _ _); [|apply appends_ret].
  apply appends_bind; [apply appends_print | intros _].
  apply appends_bind; [apply appends_lift | intros resized].
  apply appends_bind; [apply appends_print | intros _]. apply appends_ret.
Qed.

(** the steps of [create_improved_spectrogram] on a run that returns *)
Lemma create_improved_spectrogram_inv (audio_file_path : string) (saturation_level : Q)
    (w w' : World) (spec : Image) (rect_path rect_filename : string) :
  create_improved_spectrogram audio_file_path saturation_level w
  = (inr (spec, rect_path, rect_filename), w') ->
  exists content y sr duration forced w1 w2 time_position time_end,
    let rect := if Qeq_bool saturation_level 1 then forced
                else enhance_color forced saturation_level in
    let segment := middle_square (Z.of_nat (width rect)) (Z.of_nat (height rect)) in
    files w !! audio_file_path = Some content /\
    librosa_load content = inr (y, sr) /\
    float_div (inject_Z (audio_len y)) (inject_Z sr) = inr duration /\
    force_aspect (Image_convert (render_spectrogram y sr (spectrogram_width duration)
                                   SPECTROGRAM_HEIGHT SPECTROGRAM_DPI) RGBA) w1
    = (inr forced, w2) /\
    rect_filename = "rectangle_spectrogram.png"%string /\
    rect_path = os_path_join (os_path_dirname audio_file_path) rect_filename /\
    Image_crop rect (fst segment, 0, snd segment, Z.of_nat (height rect)) = inr spec /\
    segment_times_float (fst segment) (snd segment) (Z.of_nat (width rect)) duration
    = inr (time_position, time_end) /\
    files w' = <[rect_path := Image_encode_png rect]> (files w) /\
    dirs w' = dirs w /\
    last (stdout w') = Some (time_report time_position time_end).
Proof.
  intros Hin. unfold create_improved_spectrogram, print_normal, Image_save in Hin.
  inv_step Hin u1 w1 Hp1. apply print_inv in Hp1.
  inv_step Hin content w2 Hread. apply read_file_inv in Hread as [Hread ->].
  inv_step Hin loaded w3 Hload. apply lift_inv in Hload as [Hload ->].
  destruct loaded as [y sr].
  inv_step Hin duration w4 Hdur. apply lift_inv in Hdur as [Hdur ->].
  cbv zeta in Hin.
  inv_step Hin u2 w5 Hp2. apply print_inv in Hp2.
  inv_step Hin u3 w6 Hp3. apply print_inv in Hp3.
  inv_step Hin forced w7 Hforce.
  pose proof (force_aspect_inv _ _ _ _ Hforce) as (Hff & Hfd & _ & _).
  unfold size in Hin. cbn [fst snd] in Hin.
  inv_step Hin u4 w8 Hsave. apply write_file_inv in Hsave.
  inv_step Hin u5 w9 Hp4. apply print_inv in Hp4.
  inv_step Hin cropped w10 Hcrop. apply lift_inv in Hcrop as [Hcrop ->].
  inv_step Hin times w11 Htimes. apply lift_inv in Htimes as [Htimes ->].
  destruct times as [time_position time_end].
  inv_step Hin u6 w12 Hp5. apply print_inv in Hp5.
  injection Hin as <- <- <- <-.
  exists content, y, sr, duration, forced, w6, w7, time_position, time_end. cbv zeta.
  subst w1. cbn [files] in Hread.
  split; [exact Hread|]. split; [exact Hload|]. split; [exact Hdur|].
  split; [exact Hforce|]. split; [reflexivity|]. split; [reflexivity|].
  split; [exact Hcrop|]. split; [exact Htimes|].
  subst w12 w9 w8 w6 w5. cbn [files dirs stdout] in *. rewrite Hff, Hfd.
  split; [reflexivity|]. split; [reflexivity|]. apply last_snoc.
Qed.

Lemma segment_times_float_width (left right width : Z) (D : Q) (times : Q * Q) :
  segment_times_float left right width D = inr times ->
  width <> 0 /\
  times = (float_mul (round53 (inject_Z left / inject_Z width)) D,
           float_mul (round53 (inject_Z right / inject_Z width)) D).
Proof.
  unfold segment_times_float, float_div.
  destruct (Qeq_bool (inject_Z width) 0) eqn:Hz; [discriminate|].
  intros Heq. injection Heq as <-. split; [|reflexivity].
  intros ->. discriminate.
Qed.

(** X23: whenever [create_improved_spectrogram] returns, the name it
    returns is "rectangle_spectrogram.png" and the path is that name in
    the directory of the audio file; the only file written is the
    rectangular spectrogram at that path, which is at least 1.5 times as
    wide as high; and the image returned is a square whose side is the
    height of that rectangle.  The colour enhancer is assumed to keep
    the size of its image. *)
Theorem create_improved_spectrogram_square (audio_file_path : string) (saturation_level : Q)
    (w w' : World) (spec : Image) (rect_path rect_filename : string) :
  (forall im s, size (enhance_color im s) = size im) ->
  create_improved_spectrogram audio_file_path saturation_level w
  = (inr (spec, rect_path, rect_filename), w') ->
  rect_filename = "rectangle_spectrogram.png"%string /\
  rect_path = os_path_join (os_path_dirname audio_file_path) rect_filename /\
  exists rect,
    files w' = <[rect_path := Image_encode_png rect]> (files w) /\
    dirs w' = dirs w /\
    (0 < width rect)%nat /\
    3 * Z.of_nat (height rect) <= 2 * Z.of_nat (width rect) /\
    width spec = height rect /\ height spec = height rect.
Proof.
  intros Henh Hin.
  apply create_improved_spectrogram_inv in Hin
    as (content & y & sr & duration & forced & w1 & w2 & time_position & time_end & Hin).
  cbv zeta in Hin.
  destruct Hin as (_ & _ & _ & Hforce & Hname & Hpath & Hcrop & Htimes & Hfiles & Hdirs & _).
  apply force_aspect_inv in Hforce as (_ & _ & _ & Hwide).
  set (rect := if Qeq_bool saturation_level 1 then forced
               else enhance_color forced saturation_level) in *.
  assert (Hsize : size rect = size forced).
  { unfold rect. destruct (Qeq_bool saturation_level 1); [reflexivity | apply Henh]. }
  injection Hsize as Hrw Hrh. rewrite <- Hrw, <- Hrh in Hwide.
  split; [exact Hname|]. split; [exact Hpath|].
  apply segment_times_float_width in Htimes as [Hpos _].
  pose proof (middle_square_bounds (Z.of_nat (width rect)) (Z.of_nat (height rect))
                ltac:(lia) ltac:(lia)) as Hm.
  destruct (middle_square (Z.of_nat (width rect)) (Z.of_nat (height rect))) as [l r].
  cbn [fst snd] in Hcrop. destruct Hm as (Hl & Hlr & Hr & Hd & _).
  unfold Image_crop in Hcrop.
  replace (r <? l) with false in Hcrop by (symmetry; apply Z.ltb_ge; lia).
  replace (Z.of_nat (height rect) <? 0) with false in Hcrop
    by (symmetry; apply Z.ltb_ge; lia).
  cbn [orb] in Hcrop. injection Hcrop as <-.
  exists rect. cbn [width height].
  split; [exact Hfiles|]. split; [exact Hdirs|]. split; [lia|].
  split; [exact Hwide|]. split; lia.
Qed.

Lemma composite_inv (identicon spectrogram final ident : Image) (w w' : World) :
  composite identicon spectrogram w = (inr (final, ident), w') ->
  files w' = files w /\ mode final = RGB /\ mode ident = RGBA /\
  (resample_lawful -> (0 < width identicon)%nat ->
   size final = size identicon /\
   Z.of_nat (width ident) = Z.of_nat (width identicon) * 4 / 10 /\
   Z.of_nat (height ident) = Z.of_nat (height identicon) * 4 / 10 /\
   (3 <= width identicon)%nat /\ (3 <= height identicon)%nat).
Proof.
  intros Hin. unfold composite, print_typewriter in Hin.
  inv_step Hin u1 w1 Hp1. apply print_inv in Hp1.
  inv_step Hin resized w2 Hres. apply lift_inv in Hres as [Hres ->].
  inv_step Hin u2 w3 Hp2. apply print_inv in Hp2.
  inv_step Hin spec_layer w4 Hset.
  unfold set_image_alpha in Hset. cbv zeta in Hset.
  apply lift_inv in Hset as [Hset ->]. apply Image_putalpha_shape in Hset as (_ & Hsw & Hsh).
  assert (Hsw' : width spec_layer = width resized).
  { rewrite Hsw. destruct (bool_decide (mode resized = RGBA)); reflexivity. }
  assert (Hsh' : height spec_layer = height resized).
  { rewrite Hsh. destruct (bool_decide (mode resized = RGBA)); reflexivity. }
  clear Hsw Hsh.
  inv_step Hin u3 w5 Hp3. apply print_inv in Hp3.
  inv_step Hin small w6 Hsmall.
  unfold resize_identicon, size in Hsmall. cbn [fst snd] in Hsmall.
  rewrite !py_int_scale in Hsmall by lia.
  apply lift_inv in Hsmall as [Hsmall ->].
  inv_step Hin ident0 w7 Hput. apply lift_inv in Hput as [Hput ->].
  apply Image_putalpha_shape in Hput as (Him & Hiw & Hih).
  inv_step Hin u4 w8 Hp4. apply print_inv in Hp4.
  cbv zeta in Hin.
  inv_step Hin u5 w9 Hp5. apply print_inv in Hp5.
  inv_step Hin over1 w10 Ho1. apply lift_inv in Ho1 as [Ho1 ->].
  apply Image_alpha_composite_shape in Ho1 as (_ & Ho1w & Ho1h).
  inv_step Hin u6 w11 Hp6. apply print_inv in Hp6.
  inv_step Hin over2 w12 Ho2. apply lift_inv in Ho2 as [Ho2 ->].
  apply Image_alpha_composite_shape in Ho2 as (_ & Ho2w & Ho2h).
  injection Hin as <- <- <-.
  subst w11 w9 w8 w5 w3 w1. cbn [files].
  split; [reflexivity|]. split; [reflexivity|]. split; [exact Him|].
  intros Hlaw Hpos.
  assert (Hrs : size resized = size identicon).
  { unfold size in *. cbn [fst snd] in Hres.
    apply Image_resize_inv in Hres as [(Hrw & Hrh & ->) | (Hw1 & Hh1 & ->)].
    - f_equal; apply Nat2Z.inj; congruence.
    - rewrite !Nat2Z.id.
      destruct (Hlaw spectrogram (width identicon) (height identicon)) as (_ & Hrw & Hrh & _).
      congruence. }
  injection Hrs as Hrw Hrh.
  apply Image_resize_inv in Hsmall as [(Hown & _ & _) | (Hw4 & Hh4 & ->)].
  { pose proof (Z.mul_div_le (Z.of_nat (width identicon) * 4) 10 ltac:(lia)). lia. }
  destruct (Hlaw identicon (Z.to_nat (Z.of_nat (width identicon) * 4 / 10))
                 (Z.to_nat (Z.of_nat (height identicon) * 4 / 10))) as (_ & Hmw & Hmh & _).
  unfold size in *. cbn [Image_convert Image_new width height fst snd] in *.
  split; [congruence|].
  split; [rewrite Hiw, Hmw; apply Z2Nat.id; lia|].
  split; [rewrite Hih, Hmh; apply Z2Nat.id; lia|].
  assert (Hthree : forall n, 1 <= n * 4 / 10 -> 3 <= n).
  { intros n Hn. destruct (Z.lt_ge_cases n 3) as [Hlt | Hge]; [|exact Hge].
    destruct (Z.lt_ge_cases n 0) as [Hneg | Hnn].
    - pose proof (Z.div_le_upper_bound (n * 4) 10 0 ltac:(lia) ltac:(lia)). lia.
    - rewrite Z.div_small in Hn by lia. lia. }
  apply Hthree in Hw4, Hh4. lia.
Qed.

(** X24: whenever [create_album_artwork_v7] returns, the directory it
    returns is [id_<base>_<ext>_v7_sat<saturation>] beside the audio
    file and the path is [<base>.png] in it; [identicon.png] in that
    directory then holds the encoding of an RGBA image, the identicon
    layer saved on line 210; unless that is the same path, the returned
    path holds an RGB image; and the last three lines printed are the
    success lines, the second naming the returned path.  With a lawful
    resampler the saved identicon is [floor(0.4 w) x floor(0.4 h)] for
    the final image's [w x h], both at least 3. *)
Theorem create_album_artwork_v7_outputs (audio_file_path : string) (saturation_level : Q)
    (w w' : World) (output_dir output_path : string) :
  create_album_artwork_v7 audio_file_path saturation_level w
  = (inr (output_dir, output_path), w') ->
  let base_name := fst (os_path_splitext (os_path_basename audio_file_path)) in
  let file_ext := str_lower (snd (os_path_splitext audio_file_path)) in
  output_dir = os_path_join (os_path_dirname audio_file_path)
                 ("id_" +:+ base_name +:+ "_" +:+ str_tail file_ext +:+ "_v7_sat"
                  +:+ str_float saturation_level) /\
  output_path = os_path_join output_dir (base_name +:+ ".png") /\
  exists final ident before,
    mode final = RGB /\ mode ident = RGBA /\
    files w' !! os_path_join output_dir "identicon.png" = Some (Image_encode_png ident) /\
    (output_path <> os_path_join output_dir "identicon.png" ->
     files w' !! output_path = Some (Image_encode_png final)) /\
    stdout w' = before ++ ["✅ Album artwork v7 generated successfully!";
                           "📍 Find your masterpiece at: " +:+ output_path;
                           "🎵 Now go make some more music worthy of this awesome cover!"]%string /\
    (resample_lawful ->
     (3 <= width final)%nat /\ (3 <= height final)%nat /\
     Z.of_nat (width ident) = Z.of_nat (width final) * 4 / 10 /\
     Z.of_nat (height ident) = Z.of_nat (height final) * 4 / 10).
Proof.
  intros Hin. cbv zeta.
  unfold create_album_artwork_v7, print_normal, print_typewriter, Image_save in Hin.
  cbv zeta in Hin.
  inv_step Hin u1 w1 Hp1. clear Hp1.
  inv_step Hin u2 w2 Hmk. clear Hmk.
  inv_step Hin u3 w3 Hp2. clear Hp2.
  inv_step Hin hash_value w4 Hhash. clear Hhash.
  inv_step Hin identicon w5 Hid. apply create_identicon_inv in Hid as [Hidw _].
  inv_step Hin triple w6 Hspec. clear Hspec.
  destruct triple as [[spectrogram rect_path] rect_filename].
  inv_step Hin u4 w7 Hren. clear Hren.
  inv_step Hin u5 w8 Hs1. clear Hs1.
  inv_step Hin layers w9 Hcomp.
  destruct layers as [final ident].
  apply composite_inv in Hcomp as (_ & Hfm & Him & Hsizes).
  inv_step Hin u6 w10 Hs2. apply write_file_inv in Hs2.
  inv_step Hin u7 w11 Hs3. apply write_file_inv in Hs3.
  inv_step Hin u8 w12 Hp3. apply print_inv in Hp3.
  inv_step Hin u9 w13 Hp4. apply print_inv in Hp4.
  inv_step Hin u10 w14 Hp5. apply print_inv in Hp5.
  injection Hin as <- <- <-.
  split; [reflexivity|]. split; [reflexivity|].
  exists final, ident, (stdout w11).
  split; [exact Hfm|]. split; [exact Him|].
  subst w14 w13 w12. cbn [files stdout]. subst w11 w10. cbn [files stdout].
  split; [apply lookup_insert_eq|].
  split.
  { intros Hne. rewrite lookup_insert_ne by (intros Heq; apply Hne; symmetry; exact Heq).
    apply lookup_insert_eq. }
  split.
  { rewrite <- !app_assoc. reflexivity. }
  intros Hlaw. destruct (Hsizes Hlaw Hidw) as (Hsz & Hiw & Hih & Hw3 & Hh3).
  injection Hsz as Hfw Hfh. rewrite Hfw, Hfh. auto.
Qed.

Lemma eight_seconds (n sr : Z) :
  sr <> 0 -> n = 8 * sr ->
  exists duration,
    float_div (inject_Z n) (inject_Z sr) = inr duration /\ (duration == 8)%Q.
Proof.
  intros Hsr ->. unfold float_div.
  assert (Hnz : ~ (inject_Z sr == 0)%Q).
  { unfold Qeq. cbn. lia. }
  destruct (Qeq_bool (inject_Z sr) 0) eqn:Hz.
  { apply Qeq_bool_iff in Hz. contradiction. }
  eexists. split; [reflexivity|].
  rewrite (round53_proper _ 8).
  - vm_compute. reflexivity.
  - rewrite inject_Z_mult. field. exact Hnz.
Qed.

(** C8: for audio of 8 seconds (8 times the sampling rate in samples)
    the duration computed on line 53 is 8, the width of line 57 is the
    lower bound 10, and [create_improved_spectrogram] announces a figure
    of 10 x 10 inches and renders it 10 inches wide and 10 inches high
    at 100 dots per inch: the size printed next is the size of that
    render, and on a run that returns the rectangle saved is that render,
    converted to RGBA and passed through the aspect and saturation
    steps. *)
Theorem spectrogram_width_8s (audio_file_path : string) (saturation_level : Q) (w : World)
    (content : list byte) (y : Audio) (sr : Z) :
  files w !! audio_file_path = Some content ->
  librosa_load content = inr (y, sr) ->
  sr <> 0 -> audio_len y = 8 * sr ->
  let render := render_spectrogram y sr 10 10 100 in
  exists duration,
    float_div (inject_Z (audio_len y)) (inject_Z sr) = inr duration /\
    (duration == 8)%Q /\
    spectrogram_width duration = 10%Q /\
    (exists lines,
       stdout (snd (create_improved_spectrogram audio_file_path saturation_level w))
       = stdout w
         ++ ["🔊 Analyzing your audio frequencies with scaling...";
             "Creating spectrogram with dimensions: 10x10 inches";
             "Raw spectrogram dimensions: " +:+ pretty (Z.of_nat (width render)) +:+ "x"
             +:+ pretty (Z.of_nat (height render)) +:+ " pixels"]%string
         ++ lines) /\
    (forall spec rect_path rect_filename w',
       create_improved_spectrogram audio_file_path saturation_level w
       = (inr (spec, rect_path, rect_filename), w') ->
       exists forced w1 w2,
         force_aspect (Image_convert render RGBA) w1 = (inr forced, w2) /\
         files w' !! rect_path
         = Some (Image_encode_png (if Qeq_bool saturation_level 1 then forced
                                   else enhance_color forced saturation_level))).
Proof.
  intros Hfile Hload Hsr Hlen. cbv zeta.
  destruct (eight_seconds _ _ Hsr Hlen) as (duration & Hdur & Hd8).
  assert (Hwidth : spectrogram_width duration = 10%Q).
  { apply spectrogram_width_low. rewrite Hd8. reflexivity. }
  assert (Htext : str_width duration = "10"%string).
  { unfold str_width.
    replace (Qlt_bool (duration / 4) 10) with true; [reflexivity|].
    symmetry. apply Qlt_bool_iff. rewrite Hd8. reflexivity. }
  exists duration. split; [exact Hdur|]. split; [exact Hd8|]. split; [exact Hwidth|].
  split.
  - unfold create_improved_spectrogram, print_normal.
    unfold bind at 1, print at 1. unfold bind at 1, read_file at 1. cbn [files].
    rewrite Hfile. unfold bind at 1, lift at 1. rewrite Hload.
    unfold bind at 1, lift at 1. rewrite Hdur. cbv zeta.
    rewrite Hwidth, Htext.
    unfold bind at 1, print at 1. unfold bind at 1, print at 1.
    match goal with |- context [snd (bind ?m ?k ?w3)] =>
      assert (Hrest : appends_output (bind m k)); [|destruct (Hrest w3) as [lines Hlines]] end.
    { apply appends_bind; [apply appends_force_aspect | intros forced].
      unfold Image_save, size. cbn [fst snd].
      apply appends_bind; [apply appends_write_file | intros _].
      apply appends_bind; [apply appends_print | intros _].
      apply appends_bind; [apply appends_lift | intros cropped].
      apply appends_bind; [apply appends_lift | intros [time_position time_end]].
      apply appends_bind; [apply appends_print | intros _]. apply appends_ret. }
    exists lines. rewrite Hlines. cbn [stdout]. rewrite <- !app_assoc. reflexivity.
  - intros spec rect_path rect_filename w' Hin.
    apply create_improved_spectrogram_inv in Hin
      as (content' & y' & sr' & duration' & forced & w1 & w2 & time_position & time_end & Hin).
    cbv zeta in Hin.
    destruct Hin as (Hfile' & Hload' & Hdur' & Hforce & _ & _ & _ & _ & Hfiles & _).
    rewrite Hfile in Hfile'. injection Hfile' as <-.
    rewrite Hload in Hload'. injection Hload' as <- <-.
    rewrite Hdur in Hdur'. injection Hdur' as <-.
    rewrite Hwidth in Hforce.
    exists forced, w1, w2. split; [exact Hforce|].
    rewrite Hfiles. apply lookup_insert_eq.
Qed.

(** C6: on a run of [create_improved_spectrogram] that returns, with the
    duration [D] of line 53, the rectangle [rect] that was saved, its
    width [W] and the columns [left, right) of the square cut out of
    it: the times of lines 125-126 are [(left / W) * D] and
    [(right / W) * D] computed in doubles, each within the relative
    error 2^-51 of the exact value, and the last line printed shows
    each of them as its nearest number of hundredths, so within 0.005
    of the computed time. *)
Theorem segment_times_linear (audio_file_path : string) (saturation_level : Q)
    (w w' : World) (spec : Image) (rect_path rect_filename : string) :
  create_improved_spectrogram audio_file_path saturation_level w
  = (inr (spec, rect_path, rect_filename), w') ->
  exists content y sr D rect time_position time_end,
    let W := Z.of_nat (width rect) in
    let segment := middle_square W (Z.of_nat (height rect)) in
    let exact_position := (inject_Z (fst segment) / inject_Z W * D)%Q in
    let exact_end := (inject_Z (snd segment) / inject_Z W * D)%Q in
    files w !! audio_file_path = Some content /\
    librosa_load content = inr (y, sr) /\
    float_div (inject_Z (audio_len y)) (inject_Z sr) = inr D /\
    files w' !! rect_path = Some (Image_encode_png rect) /\
    0 < W /\
    Image_crop rect (fst segment, 0, snd segment, Z.of_nat (height rect)) = inr spec /\
    segment_times_float (fst segment) (snd segment) W D = inr (time_position, time_end) /\
    last (stdout w')
    = Some ("✓ Enhanced spectrogram created! Selected middle segment covers audio from "
            +:+ show_hundredths (hundredths time_position) +:+ "s to "
            +:+ show_hundredths (hundredths time_end) +:+ "s")%string /\
    (inject_Z (hundredths time_position) * (1 # 100) - time_position <= 1 # 200)%Q /\
    (time_position - inject_Z (hundredths time_position) * (1 # 100) <= 1 # 200)%Q /\
    (inject_Z (hundredths time_end) * (1 # 100) - time_end <= 1 # 200)%Q /\
    (time_end - inject_Z (hundredths time_end) * (1 # 100) <= 1 # 200)%Q /\
    ((0 <= D)%Q ->
     (time_position - exact_position <= exact_position * (1 # 2251799813685248))%Q /\
     (exact_position - time_position <= exact_position * (1 # 2251799813685248))%Q /\
     (time_end - exact_end <= exact_end * (1 # 2251799813685248))%Q /\
     (exact_end - time_end <= exact_end * (1 # 2251799813685248))%Q).
Proof.
  intros Hin.
  apply create_improved_spectrogram_inv in Hin
    as (content & y & sr & D & forced & w1 & w2 & time_position & time_end & Hin).
  cbv zeta in Hin.
  destruct Hin as (Hfile & Hload & Hdur & _ & _ & _ & Hcrop & Htimes & Hfiles & _ & Hlast).
  set (rect := if Qeq_bool saturation_level 1 then forced
               else enhance_color forced saturation_level) in *.
  exists content, y, sr, D, rect, time_position, time_end. cbv zeta.
  pose proof (segment_times_float_width _ _ _ _ _ Htimes) as [Hpos Hval].
  injection Hval as Hp He.
  pose proof (middle_square_bounds (Z.of_nat (width rect)) (Z.of_nat (height rect))
                ltac:(lia) ltac:(lia)) as Hm.
  destruct (middle_square (Z.of_nat (width rect)) (Z.of_nat (height rect))) as [l r] eqn:Hseg.
  cbn [fst snd] in *. destruct Hm as (Hl & Hlr & _).
  split; [exact Hfile|]. split; [exact Hload|]. split; [exact Hdur|].
  split; [rewrite Hfiles; apply lookup_insert_eq|].
  split; [lia|]. split; [exact Hcrop|]. split; [exact Htimes|].
  split; [exact Hlast|].
  destruct (hundredths_near time_position) as [Hn1 Hn2].
  destruct (hundredths_near time_end) as [Hn3 Hn4].
  split; [exact Hn1|]. split; [exact Hn2|]. split; [exact Hn3|]. split; [exact Hn4|].
  intros HD.
  destruct (float_time_error l (Z.of_nat (width rect)) D ltac:(lia) ltac:(lia) HD) as [Ha Hb].
  destruct (float_time_error r (Z.of_nat (width rect)) D ltac:(lia) ltac:(lia) HD) as [Hc Hd].
  rewrite Hp, He. auto.
Qed.

End Outputs.

Lemma create_improved_spectrogram_square_witness :
  exists spec w',
    @create_improved_spectrogram stub_externals nearest_resampler "song.wav" 1
      (mkWorld {["song.wav"%string := some_bytes]} ∅ [] [])
    = (inr (spec, "./rectangle_spectrogram.png"%string, "rectangle_spectrogram.png"%string), w') /\
    width spec = height spec /\
    is_Some (files w' !! "./rectangle_spectrogram.png"%string).
Proof.
  set (w0 := mkWorld {["song.wav"%string := some_bytes]} ∅ [] []).
  set (run := @create_improved_spectrogram stub_externals nearest_resampler "song.wav" 1 w0).
  assert (Hrun : run = (inr (match fst run with inr (s, _, _) => s | inl _ => stub_image end,
                             "./rectangle_spectrogram.png"%string,
                             "rectangle_spectrogram.png"%string), snd run))
    by (vm_compute; reflexivity).
  destruct (@create_improved_spectrogram_square stub_externals nearest_resampler
              "song.wav" 1 w0 _ _ _ _ (fun im s => eq_refl) Hrun)
    as (_ & _ & rect & Hfiles & _ & _ & _ & Hw & Hh).
  eexists _, _. split; [exact Hrun|]. split; [congruence|].
  rewrite Hfiles, lookup_insert_eq. eexists. reflexivity.
Defined.

Lemma create_album_artwork_v7_outputs_witness :
  exists w' final ident,
    @create_album_artwork_v7 stub_externals_5x5 nearest_resampler buffer_hash "song.wav" 1
      (mkWorld {["song.wav"%string := some_bytes;
                 "./id_song.wav__v7_sat1.0/identicon.png"%string := some_bytes]} ∅ [] [])
    = (inr ("./id_song.wav__v7_sat1.0"%string, "./id_song.wav__v7_sat1.0/song.wav.png"%string), w') /\
    files w' !! "./id_song.wav__v7_sat1.0/identicon.png"%string
    = Some (@Image_encode_png stub_externals_5x5 ident) /\
    Z.of_nat (width ident) = Z.of_nat (width final) * 4 / 10.
Proof.
  set (w0 := mkWorld {["song.wav"%string := some_bytes;
                       "./id_song.wav__v7_sat1.0/identicon.png"%string := some_bytes]} ∅ [] []).
  set (run := @create_album_artwork_v7 stub_externals_5x5 nearest_resampler buffer_hash
                "song.wav" 1 w0).
  assert (Hrun : run = (inr ("./id_song.wav__v7_sat1.0"%string,
                             "./id_song.wav__v7_sat1.0/song.wav.png"%string), snd run))
    by (vm_compute; reflexivity).
  destruct (@create_album_artwork_v7_outputs stub_externals_5x5 nearest_resampler buffer_hash
              "song.wav" 1 w0 _ _ _ Hrun)
    as (_ & _ & final & ident & before & _ & _ & Hfile & _ & _ & Hsizes).
  destruct (Hsizes nearest_resample_lawful) as (_ & _ & Hw & _).
  exists (snd run), final, ident. split; [exact Hrun|]. split; [exact Hfile | exact Hw].
Defined.

Lemma spectrogram_width_8s_witness :
  exists duration lines,
    float_div (inject_Z 8) (inject_Z 1) = inr duration /\
    spectrogram_width duration = 10%Q /\
    stdout (snd (@create_improved_spectrogram stub_externals nearest_resampler "song.wav" 1
                   (mkWorld {["song.wav"%string := some_bytes]} ∅ [] [])))
    = ["🔊 Analyzing your audio frequencies with scaling...";
       "Creating spectrogram with dimensions: 10x10 inches";
       "Raw spectrogram dimensions: 2x3 pixels"]%string ++ lines.
Proof.
  destruct (@spectrogram_width_8s stub_externals nearest_resampler "song.wav" 1
              (mkWorld {["song.wav"%string := some_bytes]} ∅ [] []) some_bytes tt 1)
    as (duration & Hdur & _ & Hwidth & (lines & Hlines) & _).
  - apply lookup_singleton_eq.
  - reflexivity.
  - discriminate.
  - reflexivity.
  - exists duration, lines. split; [exact Hdur|]. split; [exact Hwidth|]. exact Hlines.
Defined.

Lemma segment_times_linear_witness :
  exists rect time_position time_end w',
    snd (@create_improved_spectrogram stub_externals nearest_resampler "song.wav" 1
           (mkWorld {["song.wav"%string := some_bytes]} ∅ [] [])) = w' /\
    segment_times_float (fst (middle_square (Z.of_nat (width rect)) (Z.of_nat (height rect))))
                        (snd (middle_square (Z.of_nat (width rect)) (Z.of_nat (height rect))))
                        (Z.of_nat (width rect)) (round53 8)
    = inr (time_position, time_end) /\
    last (stdout w')
    = Some ("✓ Enhanced spectrogram created! Selected middle segment covers audio from "
            +:+ show_hundredths (hundredths time_position) +:+ "s to "
            +:+ show_hundredths (hundredths time_end) +:+ "s")%string /\
    (time_position
     - inject_Z (fst (middle_square (Z.of_nat (width rect)) (Z.of_nat (height rect))))
       / inject_Z (Z.of_nat (width rect)) * round53 8
     <= inject_Z (fst (middle_square (Z.of_nat (width rect)) (Z.of_nat (height rect))))
        / inject_Z (Z.of_nat (width rect)) * round53 8 * (1 # 2251799813685248))%Q.
Proof.
  set (w0 := mkWorld {["song.wav"%string := some_bytes]} ∅ [] []).
  set (run := @create_improved_spectrogram stub_externals nearest_resampler "song.wav" 1 w0).
  assert (Hrun : run = (inr (match fst run with inr (s, _, _) => s | inl _ => stub_image end,
                             "./rectangle_spectrogram.png"%string,
                             "rectangle_spectrogram.png"%string), snd run))
    by (vm_compute; reflexivity).
  destruct (@segment_times_linear stub_externals nearest_resampler "song.wav" 1 w0 _ _ _ _ Hrun)
    as (content & y & sr & D & rect & time_position & time_end & Hall).
  cbv zeta in Hall.
  destruct Hall as (_ & Hload & Hdur & _ & _ & _ & Htimes & Hlast & _ & _ & _ & _ & Hacc).
  injection Hload as <- <-. injection Hdur as <-.
  destruct Hacc as (Hnear & _); [vm_compute; discriminate|].
  exists rect, time_position, time_end, (snd run).
  split; [reflexivity|]. split; [exact Htimes|]. split; [exact Hlast | exact Hnear].
Defined.

(** C6, the difference: with 8 seconds of audio and the columns [3, 6)
    of a rectangle 9 wide the exact times are 8/3 and 16/3; the times
    computed in doubles are not these, and the line printed shows 2.67
    and 5.33.  Where the exact time is a tie of the format, as 60.035
    for the half of 120.07 seconds, even the digits printed differ:
    the double is below the tie and is shown as 60.03. *)
Lemma reported_times_are_rounded :
  last (stdout (snd (@create_improved_spectrogram stub_externals nearest_resampler "song.wav" 1
                       (mkWorld {["song.wav"%string := some_bytes]} ∅ [] []))))
  = Some "✓ Enhanced spectrogram created! Selected middle segment covers audio from 2.67s to 5.33s"%string /\
  (exists time_position time_end,
     segment_times 3 6 9 8 = inr (time_position, time_end) /\
     (time_position == 8 # 3)%Q /\ (time_end == 16 # 3)%Q /\
     ~ (time_position == 267 # 100)%Q /\ ~ (time_end == 533 # 100)%Q) /\
  (exists D time_position time_end,
     float_div 8 1 = inr D /\
     segment_times_float 3 6 9 D = inr (time_position, time_end) /\
     (time_position < 8 # 3)%Q /\ (time_end < 16 # 3)%Q) /\
  (exists D time_position time_end exact_position exact_end,
     float_div 12007 100 = inr D /\
     segment_times_float 1 2 2 D = inr (time_position, time_end) /\
     segment_times 1 2 2 (12007 # 100) = inr (exact_position, exact_end) /\
     format_2f time_position = "60.03"%string /\
     format_2f exact_position = "60.04"%string).
Proof.
  split; [vm_compute; reflexivity|]. split; [|split].
  - eexists _, _. split; [reflexivity|].
    split; [reflexivity|]. split; [reflexivity|]. split; discriminate.
  - eexists _, _, _. split; [reflexivity|]. split; [vm_compute; reflexivity|].
    split; reflexivity.
  - eexists _, _, _, _, _. split; [reflexivity|]. split; [vm_compute; reflexivity|].
    split; [reflexivity|]. split; vm_compute; reflexivity.
Qed.
